(** * The PDF text marker: classifier, marker insertion and statistics

    A shallow embedding of [pdf_text_marker.py] and the properties of its
    marker-insertion engine.

    Texts.  A Python [str] is a sequence of code points.  Here a character
    is an [ascii], read as the code point of the same number, so texts range
    over U+0000..U+00FF and [length] counts code points as [len] does.  The
    character classes below ([\s], [\d], case) are the ones Python uses on
    that range.

    Patterns.  A configuration holds its patterns and templates the way the
    program uses them after [re.compile] and inside [str.format]: as syntax
    trees.  A pattern that does not compile, or a template naming a field
    the program does not supply, makes the program fail and is not a value
    of these types.

    Documents.  The extraction is modelled on what the PDF library hands
    over, pages of blocks of lines of spans; [process_pdf] on the lines that
    the extraction returns.  Sizes and positions are the rationals that the
    floating-point numbers denote; the one computation on them, the mean of
    the font sizes of a line, is left open. *)

From Stdlib Require Import QArith Ascii String.
From stdpp Require Import base list strings gmap.

Close Scope Q_scope.
Open Scope nat_scope.
Open Scope list_scope.

(** ** Characters and strings *)

Definition char := ascii.
Bind Scope char_scope with char.
Definition str := list char.

(** A literal of the source: ["abc"] in Python is [lit "abc"] here. *)
Definition lit (s : string) : str := list_ascii_of_string s.

Definition ord (c : char) : nat := nat_of_ascii c.
Definition chr (n : nat) : char := ascii_of_nat n.

Definition in_range (lo hi : nat) (c : char) : bool :=
  (lo <=? ord c) && (ord c <=? hi).

(** [\d] and [str.isdigit] on the modelled range: the decimal digits. *)
Definition is_digit (c : char) : bool := in_range 48 57 c.

(** [\s] and [str.isspace]: tab..carriage return, the four separators
    U+001C..U+001F, space, next line and no-break space. *)
Definition is_space (c : char) : bool :=
  in_range 9 13 c || in_range 28 32 c || (ord c =? 133) || (ord c =? 160).

(** Upper-case and lower-case letters ([str.isupper], [str.islower] of one
    character). *)
Definition is_upper_char (c : char) : bool :=
  in_range 65 90 c || in_range 192 214 c || in_range 216 222 c.

Definition is_lower_char (c : char) : bool :=
  in_range 97 122 c || (ord c =? 170) || (ord c =? 181) || (ord c =? 186)
  || in_range 223 246 c || in_range 248 255 c.

(** Simple case mappings, one character to one character, as the regular
    expression engine uses them under IGNORECASE. *)
Definition lower_char (c : char) : char :=
  if in_range 65 90 c || in_range 192 214 c || in_range 216 222 c
  then chr (ord c + 32) else c.

Definition upper_char (c : char) : char :=
  if in_range 97 122 c || in_range 224 246 c || in_range 248 254 c
  then chr (ord c - 32) else c.

(** [str.upper]: the sharp s becomes two letters.  The micro sign and the
    y with diaeresis have their capitals outside the modelled range and are
    kept; [_format_marker], the only caller, deletes them and their
    capitals alike. *)
Definition upper (s : str) : str :=
  c ← s; if ord c =? 223 then lit "SS" else [upper_char c].

(** [str.isupper]: some upper-case letter and no lower-case one. *)
Definition isupper (s : str) : bool :=
  existsb is_upper_char s && negb (existsb is_lower_char s).

Fixpoint lstrip (s : str) : str :=
  match s with
  | c :: s' => if is_space c then lstrip s' else s
  | [] => []
  end.

Definition rstrip (s : str) : str := reverse (lstrip (reverse s)).

(** [str.strip()] *)
Definition strip (s : str) : str := rstrip (lstrip s).

(** [str.split()] without argument: the maximal runs of non-space. *)
Fixpoint split_ws (cur : str) (s : str) : list str :=
  match s with
  | [] => match cur with [] => [] | _ => [reverse cur] end
  | c :: s' =>
      if is_space c
      then match cur with [] => split_ws [] s' | _ => reverse cur :: split_ws [] s' end
      else split_ws (c :: cur) s'
  end.

Definition split (s : str) : list str := split_ws [] s.

Fixpoint starts_with (p s : str) : bool :=
  match p, s with
  | [], _ => true
  | a :: p', b :: s' => Ascii.eqb a b && starts_with p' s'
  | _ :: _, [] => false
  end.

(** [needle in hay] on strings. *)
Fixpoint contains (needle hay : str) : bool :=
  starts_with needle hay ||
  match hay with
  | [] => false
  | _ :: hay' => contains needle hay'
  end.

(** ** Regular expressions *)

Module Re.

Inductive cls_item :=
| CChar (c : char)
| CRange (lo hi : char)
| CDigit
| CSpace.

Inductive regex :=
| Eps
| Chr (c : char)
| Dot
| Cls (neg : bool) (items : list cls_item)
| Bol
| Eol
| Seq (r1 r2 : regex)
| Alt (r1 r2 : regex)
| Rep (r : regex) (lo : nat) (hi : option nat) (greedy : bool)
| Grp (n : nat) (r : regex).

Declare Scope re_scope.
Delimit Scope re_scope with re.
Bind Scope re_scope with regex.
Infix "-:-" := Seq (at level 60, right associativity) : re_scope.

(** Pattern syntax, named after what it abbreviates. *)
Definition Str (s : string) : regex := foldr (fun c r => Seq (Chr c) r) Eps (lit s).
Definition digit : regex := Cls false [CDigit].
Definition space : regex := Cls false [CSpace].
Definition opt (r : regex) : regex := Rep r 0 (Some 1) true.
Definition star (r : regex) : regex := Rep r 0 None true.
Definition plus (r : regex) : regex := Rep r 1 None true.
Definition plus_lazy (r : regex) : regex := Rep r 1 None false.
Definition at_least (n : nat) (r : regex) : regex := Rep r n None true.
Definition exactly (n : nat) (r : regex) : regex := Rep r n (Some n) true.
Definition between (n m : nat) (r : regex) : regex := Rep r n (Some m) true.

Fixpoint alts (rs : list regex) : regex :=
  match rs with
  | [] => Cls false []
  | [r] => r
  | r :: rs' => Alt r (alts rs')
  end.

(** The state of a match in progress: how many characters are behind, what
    is ahead, and the groups captured so far (latest first). *)
Record mstate := MState {
  m_pos : nat;
  m_rest : str;
  m_groups : list (nat * str)
}.

Definition item_base (it : cls_item) (c : char) : bool :=
  match it with
  | CChar a => Ascii.eqb a c
  | CRange lo hi => in_range (ord lo) (ord hi) c
  | CDigit => is_digit c
  | CSpace => is_space c
  end.

(** Under IGNORECASE a set matches a character when it holds the character
    or its other case. *)
Definition item_match (ic : bool) (it : cls_item) (c : char) : bool :=
  item_base it c || (ic && (item_base it (lower_char c) || item_base it (upper_char c))).

Definition cls_match (ic neg : bool) (items : list cls_item) (c : char) : bool :=
  xorb neg (existsb (fun it => item_match ic it c) items).

Definition chr_match (ic : bool) (p c : char) : bool :=
  if ic then Ascii.eqb (lower_char p) (lower_char c) else Ascii.eqb p c.

(** One character consumed when it passes the test. *)
Definition eat (test : char -> bool) (st : mstate) : list mstate :=
  match m_rest st with
  | c :: rest' => if test c then [MState (S (m_pos st)) rest' (m_groups st)] else []
  | [] => []
  end.

Definition set_group (n : nat) (st st' : mstate) : mstate :=
  MState (m_pos st') (m_rest st')
         ((n, take (m_pos st' - m_pos st) (m_rest st)) :: m_groups st').

(** A repetition: the iterations that are tried, in the engine's order.
    A greedy repetition tries one more iteration before it tries to stop, a
    lazy one the other way round.  An iteration has to consume something;
    every repeated expression of this program does.  [fuel] bounds the
    number of iterations and is set to more than the text can feed. *)
Fixpoint rep_loop (step : mstate -> list mstate) (greedy : bool)
    (fuel lo : nat) (hi : option nat) (st : mstate) : list mstate :=
  match fuel with
  | 0 => []
  | S fuel' =>
      let stop := match lo with 0 => [st] | S _ => [] end in
      let more :=
        match hi with
        | Some 0 => []
        | _ =>
            st' ← step st;
            if m_pos st <? m_pos st'
            then rep_loop step greedy fuel' (pred lo) (pred <$> hi) st'
            else []
        end in
      if greedy then more ++ stop else stop ++ more
  end.

(** All the ways [r] matches at [st], in the order a backtracking engine
    finds them; the first one is the match Python reports. *)
Fixpoint matches (ic : bool) (r : regex) (st : mstate) : list mstate :=
  match r with
  | Eps => [st]
  | Chr p => eat (chr_match ic p) st
  | Dot => eat (fun c => negb (Ascii.eqb c "010")) st
  | Cls neg items => eat (cls_match ic neg items) st
  | Bol => if m_pos st =? 0 then [st] else []
  | Eol => match m_rest st with
           | [] => [st]
           | [c] => if Ascii.eqb c "010" then [st] else []
           | _ => []
           end
  | Seq r1 r2 => st' ← matches ic r1 st; matches ic r2 st'
  | Alt r1 r2 => matches ic r1 st ++ matches ic r2 st
  | Rep r' lo hi greedy =>
      rep_loop (matches ic r') greedy (S (length (m_rest st))) lo hi st
  | Grp n r' => set_group n st <$> matches ic r' st
  end.

(** A compiled pattern: the expression and its IGNORECASE flag. *)
Record pattern := Pattern { p_re : regex; p_ic : bool }.

(** A match object: where it starts and the state where it ends. *)
Record mobj := MObj { mo_start : nat; mo_text : str; mo_end : mstate }.

(** [m.group(n)] for [n >= 1]; [None] when the group took no part. *)
Definition group (m : mobj) (n : nat) : option str :=
  (fun g => snd (snd g)) <$> list_find (fun g => fst g = n) (m_groups (mo_end m)).

(** [m.group(0)] *)
Definition group0 (m : mobj) : str :=
  take (m_pos (mo_end m) - mo_start m) (mo_text m).

(** [pattern.match(text)] *)
Definition re_match (p : pattern) (text : str) : option mobj :=
  MObj 0 text <$> head (matches (p_ic p) (p_re p) (MState 0 text [])).

(** [pattern.search(text)]: the first position with a match. *)
Fixpoint search_from (p : pattern) (pos : nat) (rest : str) : option mobj :=
  match matches (p_ic p) (p_re p) (MState pos rest []) with
  | e :: _ => Some (MObj pos rest e)
  | [] => match rest with
          | [] => None
          | _ :: rest' => search_from p (S pos) rest'
          end
  end.

Definition re_search (p : pattern) (text : str) : option mobj :=
  search_from p 0 text.

(** [re.sub(pattern, '', text)]: every match, leftmost first, is deleted.
    The four patterns the program passes never match the empty string; such
    a match would delete nothing and is passed over. *)
Fixpoint delete_from (p : pattern) (fuel pos : nat) (rest : str) : str :=
  match fuel with
  | 0 => rest
  | S fuel' =>
      let skip := match rest with
                  | [] => []
                  | c :: rest' => c :: delete_from p fuel' (S pos) rest'
                  end in
      match matches (p_ic p) (p_re p) (MState pos rest []) with
      | e :: _ =>
          if pos <? m_pos e then delete_from p fuel' (m_pos e) (m_rest e)
          else skip
      | [] => skip
      end
  end.

Definition re_delete (p : pattern) (text : str) : str :=
  delete_from p (S (length text)) 0 text.

End Re.

Import Re.
Open Scope re_scope.

(** ** Configuration *)

(** A format template: literal text and replacement fields. *)
Inductive piece (F : Type) :=
| TText (s : str)
| TField (f : F).
Arguments TText {F} s.
Arguments TField {F} f.

(** The fields [_format_marker] and [_format_code_marker] supply. *)
Inductive marker_field := f_type | f_value.
Inductive code_field := f_prefix | f_code | f_suffix.

(** [template.format] with keyword arguments. *)
Definition format {F : Type} (template : list (piece F)) (fields : F -> str) : str :=
  p ← template; match p with TText s => s | TField f => fields f end.

Record MarkerConfig := {
  l1_min_font_size : Q;
  l2_min_font_size : Q;
  l3_min_font_size : Q;
  l1_patterns : list regex;
  l2_patterns : list regex;
  l3_patterns : list regex;
  code_pattern : regex;
  code_with_fee_pattern : regex;
  provisional_marker : str;
  asterisk_marker : str;
  fee_pattern : regex;
  skip_patterns : list regex;
  content_start_patterns : list regex;
  min_line_length : Z;
  marker_format : list (piece marker_field);
  code_marker_format : list (piece code_field)
}.

Definition upper_AZ : cls_item := CRange "A" "Z".
Definition lower_az : cls_item := CRange "a" "z".

(** [[A-Z]-\d+], a page reference. *)
Definition page_ref : regex := Cls false [upper_AZ] -:- Chr "-" -:- plus digit.

(** [^[~]?(\d{4})[\*]?\s+] *)
Definition default_code_pattern : regex :=
  Bol -:- opt (Cls false [CChar "~"]) -:- Grp 1 (exactly 4 digit)
      -:- opt (Cls false [CChar "*"]) -:- plus space.

(** [^[~]?(\d{4})[\*]?\s+.+?\.{3,}\s*[\d,]+\.\d{2}] *)
Definition default_code_with_fee_pattern : regex :=
  Bol -:- opt (Cls false [CChar "~"]) -:- Grp 1 (exactly 4 digit)
      -:- opt (Cls false [CChar "*"]) -:- plus space -:- plus_lazy Dot
      -:- at_least 3 (Chr ".") -:- star space
      -:- plus (Cls false [CDigit; CChar ","]) -:- Chr "." -:- exactly 2 digit.

(** [\.{3,}\s*([\d,]+\.\d{2})] *)
Definition default_fee_pattern : regex :=
  at_least 3 (Chr ".") -:- star space
      -:- Grp 1 (plus (Cls false [CDigit; CChar ","]) -:- Chr "." -:- exactly 2 digit).

Definition default_l1_patterns : list regex := [
  (* ^[A-Z][A-Z\s\-]+\s*\(\d{2}(?:-\d+)?\) *)
  Bol -:- Cls false [upper_AZ] -:- plus (Cls false [upper_AZ; CSpace; CChar "-"])
      -:- star space -:- Chr "(" -:- exactly 2 digit
      -:- opt (Chr "-" -:- plus digit) -:- Chr ")";
  (* ^[A-Z][A-Z\s\-]{10,}$ *)
  Bol -:- Cls false [upper_AZ]
      -:- at_least 10 (Cls false [upper_AZ; CSpace; CChar "-"]) -:- Eol;
  Bol -:- alts [Str "VISITS"; Str "GENERAL"; Str "ANESTHESIA"; Str "INTEGUMENTARY";
                Str "MUSCULOSKELETAL"];
  Bol -:- alts [Str "RESPIRATORY"; Str "CARDIOVASCULAR"; Str "DIGESTIVE"; Str "URINARY"];
  Bol -:- alts [Str "NERVOUS"; Str "ENDOCRINE"; Str "MATERNITY"; Str "LABORATORY"]
].

Definition default_l2_patterns : list regex := [
  (* ^[A-Z][a-z]+(?:\s+[A-Z][a-z]+)*\s*(?:Procedures?|Care|Visits?|Services?) *)
  Bol -:- Cls false [upper_AZ] -:- plus (Cls false [lower_az])
      -:- star (plus space -:- Cls false [upper_AZ] -:- plus (Cls false [lower_az]))
      -:- star space
      -:- alts [Str "Procedure" -:- opt (Chr "s"); Str "Care";
                Str "Visit" -:- opt (Chr "s"); Str "Service" -:- opt (Chr "s")];
  Bol -:- alts [Str "Office"; Str "Hospital"; Str "Virtual"; Str "Chronic";
                Str "Concomitant"];
  Bol -:- alts [Str "Investigation"; Str "Incision"; Str "Excision"; Str "Repair"]
].

Definition default_l3_patterns : list regex := [
  (* ^[A-Z][a-z]+(?:\s+[A-Za-z]+)*$ *)
  Bol -:- Cls false [upper_AZ] -:- plus (Cls false [lower_az])
      -:- star (plus space -:- plus (Cls false [upper_AZ; lower_az])) -:- Eol
].

Definition default_skip_patterns : list regex := [
  (* ^April 1,\s*\d{4} *)
  Bol -:- Str "April 1," -:- star space -:- exactly 4 digit;
  (* ^[A-Z]-\d+$ *)
  Bol -:- page_ref -:- Eol;
  (* ^\d{1,3}$ *)
  Bol -:- between 1 3 digit -:- Eol;
  (* ^[ivxlcdm]+$ *)
  Bol -:- plus (Cls false [CChar "i"; CChar "v"; CChar "x"; CChar "l"; CChar "c";
                           CChar "d"; CChar "m"]) -:- Eol;
  Bol -:- Str "Table of Contents";
  (* ^\f *)
  Bol -:- Chr "012"
].

Definition default_content_start_patterns : list regex := [
  (* RULES\s+OF\s+APPLICATION *)
  Str "RULES" -:- plus space -:- Str "OF" -:- plus space -:- Str "APPLICATION";
  Str "These benefits cannot be correctly interpreted"
].

(** The two guillemets of the marker syntax, U+00AB and U+00BB. *)
Definition laquo : char := "171".
Definition raquo : char := "187".

(** [MarkerConfig()], the built-in configuration. *)
Definition default_config : MarkerConfig := {|
  l1_min_font_size := 12;
  l2_min_font_size := 21 # 2;
  l3_min_font_size := 10;
  l1_patterns := default_l1_patterns;
  l2_patterns := default_l2_patterns;
  l3_patterns := default_l3_patterns;
  code_pattern := default_code_pattern;
  code_with_fee_pattern := default_code_with_fee_pattern;
  provisional_marker := lit "~";
  asterisk_marker := lit "*";
  fee_pattern := default_fee_pattern;
  skip_patterns := default_skip_patterns;
  content_start_patterns := default_content_start_patterns;
  min_line_length := 3;
  (* «{type}:{value}» *)
  marker_format := [TText [laquo]; TField f_type; TText (lit ":"); TField f_value;
                    TText [raquo]];
  (* «CODE:{prefix}{code}{suffix}» *)
  code_marker_format := [TText (laquo :: lit "CODE:"); TField f_prefix; TField f_code;
                         TField f_suffix; TText [raquo]]
|}.

(** ** Lines *)

Record TextLine := {
  text : str;
  page_num : Z;
  top : Q;
  left : Q;
  font_size : Q;
  is_bold : bool;
  line_num : Z
}.

(** A line of text alone, with the defaults of the dataclass. *)
Definition line_of (s : str) : TextLine :=
  {| text := s; page_num := 1; top := 0; left := 0; font_size := 0;
     is_bold := false; line_num := 0 |}.

(** ** Hierarchy detection *)

(** The values [detect_level] can name; Python's [None] is [None]. *)
Inductive level := CODE | L1 | L2 | L3 | L4.

Global Instance level_eq_dec : EqDecision level.
Proof. solve_decision. Defined.

Definition level_name (l : level) : str :=
  match l with
  | CODE => lit "CODE"
  | L1 => lit "L1"
  | L2 => lit "L2"
  | L3 => lit "L3"
  | L4 => lit "L4"
  end.

(** [HierarchyDetector]: the configuration and the patterns [__init__]
    compiles from it, with their flags. *)
Record HierarchyDetector := {
  d_config : MarkerConfig;
  d_l1_patterns : list pattern;
  d_l2_patterns : list pattern;
  d_l3_patterns : list pattern;
  d_skip_patterns : list pattern;
  d_code_pattern : pattern;
  d_code_with_fee : pattern;
  d_fee_pattern : pattern
}.

Definition HierarchyDetector_init (config : MarkerConfig) : HierarchyDetector := {|
  d_config := config;
  d_l1_patterns := (fun p => Pattern p true) <$> l1_patterns config;
  d_l2_patterns := (fun p => Pattern p true) <$> l2_patterns config;
  d_l3_patterns := (fun p => Pattern p true) <$> l3_patterns config;
  d_skip_patterns := (fun p => Pattern p true) <$> skip_patterns config;
  d_code_pattern := Pattern (code_pattern config) false;
  d_code_with_fee := Pattern (code_with_fee_pattern config) false;
  d_fee_pattern := Pattern (fee_pattern config) false
|}.

(** Truth of a match object. *)
Definition found (m : option mobj) : bool :=
  match m with Some _ => true | None => false end.

Definition should_skip (self : HierarchyDetector) (line : TextLine) : bool :=
  let text := strip (text line) in
  if (Z.of_nat (length text) <? min_line_length (d_config self))%Z then true
  else existsb (fun pattern => found (re_search pattern text)) (d_skip_patterns self).

(** [^[~]?\d{4}[\*]?\s*$] *)
Definition standalone_code_re : regex :=
  Bol -:- opt (Cls false [CChar "~"]) -:- exactly 4 digit
      -:- opt (Cls false [CChar "*"]) -:- star space -:- Eol.

(** [^[~]?(\d{4})[\*]?\s+(.+)$] *)
Definition code_description_re : regex :=
  Bol -:- opt (Cls false [CChar "~"]) -:- Grp 1 (exactly 4 digit)
      -:- opt (Cls false [CChar "*"]) -:- plus space -:- Grp 2 (plus Dot) -:- Eol.

(** [^\.{3,}\s*[A-Z]-\d+] *)
Definition index_leader_re : regex :=
  Bol -:- at_least 3 (Chr ".") -:- star space -:- page_ref.

(** [^[A-Z]-\d+(?:,\s*[A-Z]-\d+)*\s*$] *)
Definition page_refs_re : regex :=
  Bol -:- page_ref -:- star (Chr "," -:- star space -:- page_ref) -:- star space -:- Eol.

Definition _is_tariff_code (self : HierarchyDetector) (text : str) : bool :=
  let text := strip text in
  if found (re_match (d_code_with_fee self) text) then true
  else if found (re_match (Pattern standalone_code_re false) text) then true
  else
    match re_match (Pattern code_description_re false) text with
    | Some m =>
        let remaining := strip (default [] (group m 2)) in
        if found (re_match (Pattern index_leader_re false) remaining) then false
        else if found (re_match (Pattern page_refs_re false) remaining) then false
        else if 10 <? length remaining then true
        else false
    | None => false
    end.

(** [^[A-Z][A-Z\s\-/]+\s*\(\d{2}(?:-\d+)?\)\s*$] *)
Definition specialty_heading_re : regex :=
  Bol -:- Cls false [upper_AZ]
      -:- plus (Cls false [upper_AZ; CSpace; CChar "-"; CChar "/"])
      -:- star space -:- Chr "(" -:- exactly 2 digit
      -:- opt (Chr "-" -:- plus digit) -:- Chr ")" -:- star space -:- Eol.

Definition major_sections : list regex := [
  Bol -:- Str "VISITS/EXAMINATIONS";
  Bol -:- Str "GENERAL" -:- plus space -:- Str "SCHEDULE";
  Bol -:- Str "ANESTHESIA";
  Bol -:- Str "INTEGUMENTARY" -:- plus space -:- Str "SYSTEM";
  Bol -:- Str "MUSCULOSKELETAL" -:- plus space -:- Str "SYSTEM";
  Bol -:- Str "RESPIRATORY" -:- plus space -:- Str "SYSTEM";
  Bol -:- Str "CARDIOVASCULAR" -:- plus space -:- Str "SYSTEM";
  Bol -:- Str "DIGESTIVE" -:- plus space -:- Str "SYSTEM";
  Bol -:- Str "URINARY" -:- plus space -:- Str "SYSTEM";
  Bol -:- Str "NERVOUS" -:- plus space -:- Str "SYSTEM";
  Bol -:- Str "ENDOCRINE" -:- plus space -:- Str "SYSTEM";
  Bol -:- Str "MATERNITY";
  Bol -:- Str "LABORATORY";
  Bol -:- Str "DIAGNOSTIC" -:- plus space -:- Str "RADIOLOGICAL";
  Bol -:- Str "NUCLEAR" -:- plus space -:- Str "MEDICINE";
  Bol -:- Str "THERAPEUTIC" -:- plus space -:- Str "RADIOLOGICAL";
  Bol -:- Str "RULES" -:- plus space -:- Str "OF" -:- plus space -:- Str "APPLICATION"
].

Definition _matches_l1 (self : HierarchyDetector) (line : TextLine) : bool :=
  let text := strip (text line) in
  if 80 <? length text then false
  else if found (re_search (d_fee_pattern self) text) then false
  else if found (re_match (d_code_pattern self) text) then false
  else if found (re_search (Pattern specialty_heading_re false) text) then true
  else if existsb (fun pattern => found (re_search (Pattern pattern true) text))
                  major_sections then true
  else if Qle_bool (l1_min_font_size (d_config self)) (font_size line)
          && (isupper text && (15 <? length text) && (length text <? 60))
          && (let words := split text in (2 <=? length words) && (length words <=? 6))
       then true
  else false.

Definition l2_specific : list regex := [
  (* ^Office,?\s*Home\s*Visits? *)
  Bol -:- Str "Office" -:- opt (Chr ",") -:- star space -:- Str "Home" -:- star space
      -:- Str "Visit" -:- opt (Chr "s");
  Bol -:- Str "Hospital" -:- plus space -:- Str "Care";
  Bol -:- Str "Virtual" -:- plus space -:- Str "Visit" -:- opt (Chr "s");
  Bol -:- Str "Chronic" -:- plus space -:- Str "Care";
  Bol -:- Str "Concomitant" -:- plus space -:- Str "Care";
  Bol -:- Str "Cutaneous" -:- plus space -:- Str "Procedure" -:- opt (Chr "s");
  Bol -:- Str "Upper" -:- plus space -:- Str "Extremity";
  Bol -:- Str "Lower" -:- plus space -:- Str "Extremity";
  Bol -:- Str "Spine";
  Bol -:- Str "Head" -:- plus space -:- Str "and" -:- plus space -:- Str "Neck";
  Bol -:- Str "Pelvis";
  Bol -:- Str "Thorax";
  Bol -:- Str "Abdomen"
].

(** A word counts as title case when its first letter is upper-case and the
    word is not upper-case throughout. *)
Definition title_word (w : str) : bool :=
  match w with
  | c :: _ => is_upper_char c && negb (isupper w)
  | [] => false
  end.

Definition _matches_l2 (self : HierarchyDetector) (line : TextLine) : bool :=
  let text := strip (text line) in
  if (60 <? length text) || found (re_search (d_fee_pattern self) text) then false
  else if found (re_match (d_code_pattern self) text) then false
  else if existsb (fun pattern => found (re_search (Pattern pattern true) text))
                  l2_specific then true
  else if is_bold line && Qle_bool (l2_min_font_size (d_config self)) (font_size line)
          && (let words := split text in
              (2 <=? length words) && (length words <=? 5)
              && (length words <=? 2 * length (filter (fun w => title_word w = true) words)))
       then true
  else false.

Definition l3_specific : list regex := [
  Bol -:- Str "Investigation" -:- Eol;
  Bol -:- Str "Incision" -:- Eol;
  Bol -:- Str "Excision" -:- Eol;
  Bol -:- Str "Repair" -:- Eol;
  Bol -:- Str "Revision" -:- plus space -:- Str "and" -:- plus space -:- Str "Repair" -:- Eol;
  Bol -:- Str "Reconstruction" -:- Eol;
  Bol -:- Str "Amputation" -:- Eol;
  Bol -:- Str "Fracture" -:- opt (Chr "s") -:- Eol;
  Bol -:- Str "Dislocation" -:- opt (Chr "s") -:- Eol;
  Bol -:- Str "Joint" -:- plus space -:- Str "Procedure" -:- opt (Chr "s") -:- Eol
].

Definition _matches_l3 (self : HierarchyDetector) (line : TextLine) : bool :=
  let text := strip (text line) in
  if (40 <? length text) || found (re_search (d_fee_pattern self) text) then false
  else if found (re_match (d_code_pattern self) text) then false
  else if existsb (fun pattern => found (re_search (Pattern pattern true) text))
                  l3_specific then true
  else false.

Definition detect_level (self : HierarchyDetector) (line : TextLine)
    (prev_line : option TextLine) : option level :=
  let text := strip (text line) in
  if _is_tariff_code self text then Some CODE
  else if _matches_l1 self line then Some L1
  else if _matches_l2 self line then Some L2
  else if _matches_l3 self line then Some L3
  else None.

Record CodeInfo := {
  code : str;
  is_provisional : bool;
  is_asterisked : bool;
  full_match : str
}.

Definition code_info_of (m : mobj) : CodeInfo := {|
  code := default [] (group m 2);
  is_provisional := bool_decide (group m 1 = Some (lit "~"));
  is_asterisked := bool_decide (group m 3 = Some (lit "*"));
  full_match := group0 m
|}.

(** [^(~)?(\d{4})([*])?\s*$], the third group being the escaped asterisk. *)
Definition code_alone_re : regex :=
  Bol -:- opt (Grp 1 (Chr "~")) -:- Grp 2 (exactly 4 digit) -:- opt (Grp 3 (Chr "*"))
      -:- star space -:- Eol.

(** [^(~)?(\d{4})([*])?\s+], likewise. *)
Definition code_prefix_re : regex :=
  Bol -:- opt (Grp 1 (Chr "~")) -:- Grp 2 (exactly 4 digit) -:- opt (Grp 3 (Chr "*"))
      -:- plus space.

Definition extract_code_info (self : HierarchyDetector) (text : str) : option CodeInfo :=
  let text := strip text in
  match re_match (Pattern code_alone_re false) text with
  | Some m => Some (code_info_of m)
  | None =>
      match re_match (Pattern code_prefix_re false) text with
      | Some m => Some (code_info_of m)
      | None => None
      end
  end.

(** ** Marker insertion *)

Record TextMarker := {
  tm_config : MarkerConfig;
  tm_detector : HierarchyDetector
}.

Definition TextMarker_init (config : MarkerConfig) : TextMarker :=
  {| tm_config := config; tm_detector := HierarchyDetector_init config |}.

Definition _format_marker (self : TextMarker) (lv : level) (text : str) : str :=
  (* \s+ *)
  let clean_text := re_delete (Pattern (plus space) false) (upper text) in
  (* [^A-Z0-9] *)
  let clean_text :=
    re_delete (Pattern (Cls true [upper_AZ; CRange "0" "9"]) false) clean_text in
  format (marker_format (tm_config self))
         (fun f => match f with f_type => level_name lv | f_value => clean_text end).

Definition _format_code_marker (self : TextMarker) (code : str)
    (is_provisional is_asterisked : bool) : str :=
  let prefix := if is_provisional then lit "~" else [] in
  let suffix := if is_asterisked then lit "*" else [] in
  format (code_marker_format (tm_config self))
         (fun f => match f with f_prefix => prefix | f_code => code | f_suffix => suffix end).

Definition _clean_header_text (self : TextMarker) (text : str) : str :=
  (* \.{2,}.*$ *)
  let text := re_delete (Pattern (at_least 2 (Chr ".") -:- star Dot -:- Eol) false) text in
  (* \s+[A-Z]-\d+$ *)
  let text := re_delete (Pattern (plus space -:- page_ref -:- Eol) false) text in
  strip text.

(** [int(level[1])] *)
Definition level_num (lv : level) : nat :=
  match lv with
  | L1 => 1 | L2 => 2 | L3 => 3 | L4 => 4
  | CODE => 0
  end.

(** The key ['L' + str(l)]; [l] is one digit wherever the program builds it. *)
Definition tier_key (l : nat) : str := lit "L" ++ [chr (48 + l)].

(** The locals of [mark_text] that change while it runs. *)
Record mark_state := {
  content_started : bool;
  current_hierarchy : gmap str str;
  output : list str
}.

Definition append (s : str) (st : mark_state) : mark_state :=
  {| content_started := content_started st;
     current_hierarchy := current_hierarchy st;
     output := output st ++ [s] |}.

Definition initial_hierarchy : gmap str str :=
  <[lit "L4" := []]> (<[lit "L3" := []]> (<[lit "L2" := []]> (<[lit "L1" := []]> ∅))).

Definition initial_state : mark_state :=
  {| content_started := false; current_hierarchy := initial_hierarchy; output := [] |}.

(** Lines 667-670: the header is bound to its level and the lower levels
    are reset. *)
Definition update_hierarchy (lv : level) (header_text : str)
    (h : gmap str str) : gmap str str :=
  foldl (fun h l => <[tier_key l := []]> h)
        (<[level_name lv := header_text]> h)
        (seq (level_num lv + 1) (5 - (level_num lv + 1))).

(** The inner loop over the content-start patterns: whether one of them is
    found in the text. *)
Definition starts_content (content_start : list pattern) (text : str) : bool :=
  existsb (fun pattern => found (re_search pattern text)) content_start.

(** One turn of the loop of [mark_text]. *)
Definition mark_line (self : TextMarker) (content_start : list pattern)
    (prev_line : option TextLine) (line : TextLine) (st : mark_state) : mark_state :=
  let text := text line in
  if negb (content_started st) then
    if starts_content content_start text then
      let st := {| content_started := true;
                   current_hierarchy := current_hierarchy st;
                   output := output st |} in
      let marker := _format_marker self L1 (lit "RULESOFAPPLICATION") in
      append text (append marker st)
    else append text st
  else if should_skip (tm_detector self) line then append text st
  else
    let st :=
      match detect_level (tm_detector self) line prev_line with
      | Some CODE =>
          match extract_code_info (tm_detector self) text with
          | Some code_info =>
              append (_format_code_marker self (code code_info)
                        (is_provisional code_info) (is_asterisked code_info)) st
          | None => st
          end
      | Some lv =>
          let header_text := _clean_header_text self text in
          let st := append (_format_marker self lv header_text) st in
          {| content_started := content_started st;
             current_hierarchy := update_hierarchy lv header_text (current_hierarchy st);
             output := output st |}
      | None => st
      end in
    append text st.

(** The loop over [enumerate(lines)]; [prev_line] is [lines[i - 1]], absent
    at the first line. *)
Fixpoint mark_loop (self : TextMarker) (content_start : list pattern)
    (prev_line : option TextLine) (lines : list TextLine) (st : mark_state) : mark_state :=
  match lines with
  | [] => st
  | line :: lines' =>
      mark_loop self content_start (Some line) lines'
                (mark_line self content_start prev_line line st)
  end.

(** The content-start patterns as [mark_text] compiles them, without flags. *)
Definition compile_content_start (config : MarkerConfig) : list pattern :=
  (fun p => Pattern p false) <$> content_start_patterns config.

(** The state in which [mark_text] leaves its locals. *)
Definition mark_run (self : TextMarker) (lines : list TextLine) : mark_state :=
  mark_loop self (compile_content_start (tm_config self)) None lines initial_state.

Definition mark_text (self : TextMarker) (lines : list TextLine) : list str :=
  output (mark_run self lines).

(** [mark_text] with every statement on [current_hierarchy] taken out. *)
Definition mark_line_no_hierarchy (self : TextMarker) (content_start : list pattern)
    (prev_line : option TextLine) (line : TextLine)
    (st : bool * list str) : bool * list str :=
  let text := text line in
  let '(started, out) := st in
  if negb started then
    if starts_content content_start text then
      (true, out ++ [_format_marker self L1 (lit "RULESOFAPPLICATION")] ++ [text])
    else (started, out ++ [text])
  else if should_skip (tm_detector self) line then (started, out ++ [text])
  else
    let out :=
      match detect_level (tm_detector self) line prev_line with
      | Some CODE =>
          match extract_code_info (tm_detector self) text with
          | Some code_info =>
              out ++ [_format_code_marker self (code code_info)
                        (is_provisional code_info) (is_asterisked code_info)]
          | None => out
          end
      | Some lv => out ++ [_format_marker self lv (_clean_header_text self text)]
      | None => out
      end in
    (started, out ++ [text]).

Fixpoint mark_loop_no_hierarchy (self : TextMarker) (content_start : list pattern)
    (prev_line : option TextLine) (lines : list TextLine)
    (st : bool * list str) : bool * list str :=
  match lines with
  | [] => st
  | line :: lines' =>
      mark_loop_no_hierarchy self content_start (Some line) lines'
        (mark_line_no_hierarchy self content_start prev_line line st)
  end.

Definition mark_text_no_hierarchy (self : TextMarker) (lines : list TextLine) : list str :=
  snd (mark_loop_no_hierarchy self (compile_content_start (tm_config self))
         None lines (false, [])).

(** ** Statistics *)

Definition initial_stats : gmap str nat :=
  <[lit "asterisked" := 0]> (<[lit "provisional" := 0]> (<[lit "CODE" := 0]>
  (<[lit "L4" := 0]> (<[lit "L3" := 0]> (<[lit "L2" := 0]> (<[lit "L1" := 0]> ∅)))))).

(** [stats[key] += 1] *)
Definition incr (key : str) (stats : gmap str nat) : gmap str nat :=
  alter S key stats.

(** The body of the loop of [_calculate_stats]. *)
Definition count_line (stats : gmap str nat) (line : str) : gmap str nat :=
  if contains (laquo :: lit "L1:") line then incr (lit "L1") stats
  else if contains (laquo :: lit "L2:") line then incr (lit "L2") stats
  else if contains (laquo :: lit "L3:") line then incr (lit "L3") stats
  else if contains (laquo :: lit "L4:") line then incr (lit "L4") stats
  else if contains (laquo :: lit "CODE:") line then
    let stats := incr (lit "CODE") stats in
    let stats :=
      if contains (laquo :: lit "CODE:~") line then incr (lit "provisional") stats
      else stats in
    if contains (lit "*" ++ [raquo]) line then incr (lit "asterisked") stats
    else stats
  else stats.

Definition _calculate_stats (lines : list str) (config : MarkerConfig) : gmap str nat :=
  foldl count_line initial_stats lines.

(** ** Loading the configuration *)

Inductive exn := OSError | JSONDecodeError | TypeError.

(** What the file system and the libraries answer for a path: whether
    [Path.exists()] holds, whether [open] succeeds, whether [json.load]
    decodes the content, and whether the dataclass constructor accepts the
    decoded value as keyword arguments (an object whose keys are all fields;
    the configuration it then builds is the last case). *)
Inductive file_state :=
| Absent
| Unreadable
| NotJson
| BadFields
| Holds (config : MarkerConfig).

Definition load_config (fs : str -> file_state) (config_path : option str)
  : exn + MarkerConfig :=
  match config_path with
  | Some (c :: path) =>
      match fs (c :: path) with
      | Absent => inr default_config
      | Unreadable => inl OSError
      | NotJson => inl JSONDecodeError
      | BadFields => inl TypeError
      | Holds config => inr config
      end
  | _ => inr default_config
  end.

(** How [main] ends once its arguments are read: with an exit status, or
    with an exception nobody caught. *)
Inductive main_result :=
| Exit (status : Z)
| Uncaught (e : exn).

(** Lines 880-893 of [main]: the configuration is loaded outside the [try]
    block, the document is processed inside it. *)
Definition main_run (fs : str -> file_state) (config_arg : option str)
    (process_pdf : MarkerConfig -> exn + unit) : main_result :=
  match load_config fs config_arg with
  | inl e => Uncaught e
  | inr config =>
      match process_pdf config with
      | inr _ => Exit 0
      | inl _ => Exit 1
      end
  end.

(** ** Extraction with PyMuPDF *)

(** [str.lower] *)
Definition lower (s : str) : str := lower_char <$> s.

(** What [page.get_text("dict")] hands over, as far as the program reads
    it: the spans of a line with their text, size and font, the lines of a
    block with their bounding box, the blocks of a page with their type.  An
    entry that the program reads with [get] may be missing. *)
Record Span := {
  span_text : option str;
  span_size : option Q;
  span_font : option str
}.

Record LineData := {
  ld_spans : option (list Span);
  ld_bbox : option (Q * Q * Q * Q)
}.

Record Block := {
  block_type : Z;
  block_lines : option (list LineData)
}.

(** The blocks of a page, and the pages of a document. *)
Definition Page : Type := list Block.
Definition Doc : Type := list Page.

(** [enumerate(xs, start)] *)
Fixpoint enumerate {A : Type} (start : Z) (xs : list A) : list (Z * A) :=
  match xs with
  | [] => []
  | x :: xs' => (start, x) :: enumerate (start + 1)%Z xs'
  end.

(** The loop over the spans of a line: the parts of the text, the font
    sizes and whether a font is bold. *)
Definition span_step (acc : list str * list Q * bool) (span : Span)
  : list str * list Q * bool :=
  let '(text_parts, font_sizes, is_bold) := acc in
  let font_name := lower (default [] (span_font span)) in
  (text_parts ++ [default [] (span_text span)],
   font_sizes ++ [default 10%Q (span_size span)],
   if contains (lit "bold") font_name then true else is_bold).

(** The body of the loop over the lines of a block; the state is the list
    [lines] and the counter [line_num].  [mean] stands for
    [sum(font_sizes) / len(font_sizes)], a floating-point computation that
    is left open. *)
Definition line_step (mean : list Q -> Q) (page_num : Z)
    (st : list TextLine * Z) (line_data : LineData) : list TextLine * Z :=
  match default [] (ld_spans line_data) with
  | [] => st
  | spans =>
      let '(text_parts, font_sizes, is_bold) := foldl span_step ([], [], false) spans in
      let line_text := mjoin text_parts in
      match strip line_text with
      | [] => st
      | _ =>
          let avg_font_size :=
            match font_sizes with [] => 10%Q | _ => mean font_sizes end in
          let '(x0, y0, _, _) := default (0%Q, 0%Q, 0%Q, 0%Q) (ld_bbox line_data) in
          let '(lines, line_num) := st in
          let line_num := (line_num + 1)%Z in
          (lines ++ [{| text := line_text; page_num := page_num; top := y0; left := x0;
                        font_size := avg_font_size; is_bold := is_bold;
                        line_num := line_num |}],
           line_num)
      end
  end.

Definition block_step (mean : list Q -> Q) (page_num : Z)
    (st : list TextLine * Z) (block : Block) : list TextLine * Z :=
  if negb (block_type block =? 0)%Z then st
  else foldl (line_step mean page_num) st (default [] (block_lines block)).

Definition page_step (mean : list Q -> Q) (st : list TextLine * Z)
    (numbered : Z * Page) : list TextLine * Z :=
  foldl (block_step mean (fst numbered)) st (snd numbered).

Definition _extract_with_pymupdf (mean : list Q -> Q) (doc : Doc) : list TextLine :=
  fst (foldl (page_step mean) ([], 0%Z) (enumerate 1 doc)).

(** ** Processing a document *)

(** What the loop [f.write(line + '\n')] leaves in the output file. *)
Definition written (marked_lines : list str) : str :=
  mjoin ((fun line => line ++ ["010"%char]) <$> marked_lines).

(** [process_pdf] after the extraction: [lines] is what
    [extract_text_with_layout] returned for the input path.  The result is
    the text of the output file and the statistics that are printed. *)
Definition process_pdf (lines : list TextLine) (config : option MarkerConfig)
  : str * gmap str nat :=
  let config := default default_config config in
  let marker := TextMarker_init config in
  let marked_lines := mark_text marker lines in
  (written marked_lines, _calculate_stats marked_lines config).

(** ** Vocabulary of the statements *)

(** What one line contributes to the output: its marker, if it has one,
    and then the line. *)
Definition emitted (marker : option str) (line : TextLine) : list str :=
  option_list marker ++ [text line].

(** The two locals that [mark_text_no_hierarchy] keeps. *)
Definition forget_hierarchy (st : mark_state) : bool * list str :=
  (content_started st, output st).

(** The built-in configuration with one content-start pattern, [^RULES],
    in place of its two. *)
Definition anchored_config : MarkerConfig := {|
  l1_min_font_size := l1_min_font_size default_config;
  l2_min_font_size := l2_min_font_size default_config;
  l3_min_font_size := l3_min_font_size default_config;
  l1_patterns := l1_patterns default_config;
  l2_patterns := l2_patterns default_config;
  l3_patterns := l3_patterns default_config;
  code_pattern := code_pattern default_config;
  code_with_fee_pattern := code_with_fee_pattern default_config;
  provisional_marker := provisional_marker default_config;
  asterisk_marker := asterisk_marker default_config;
  fee_pattern := fee_pattern default_config;
  skip_patterns := skip_patterns default_config;
  content_start_patterns := [Bol -:- Str "RULES"];
  min_line_length := min_line_length default_config;
  marker_format := marker_format default_config;
  code_marker_format := code_marker_format default_config
|}.

(** The line before the lines that follow [lines]. *)
Definition last_line (prev_line : option TextLine) (lines : list TextLine)
  : option TextLine :=
  match last lines with
  | Some line => Some line
  | None => prev_line
  end.

(** The substring tests of [_calculate_stats] on an output line. *)
Definition has_L1 (line : str) : bool := contains (laquo :: lit "L1:") line.
Definition has_L2 (line : str) : bool := contains (laquo :: lit "L2:") line.
Definition has_L3 (line : str) : bool := contains (laquo :: lit "L3:") line.
Definition has_L4 (line : str) : bool := contains (laquo :: lit "L4:") line.
Definition has_CODE (line : str) : bool := contains (laquo :: lit "CODE:") line.
Definition has_provisional (line : str) : bool := contains (laquo :: lit "CODE:~") line.
Definition has_asterisk (line : str) : bool := contains (lit "*" ++ [raquo]) line.

(** A line that reaches the CODE branch: none of the four level prefixes
    and the code prefix. *)
Definition counted_CODE (line : str) : bool :=
  negb (has_L1 line) && negb (has_L2 line) && negb (has_L3 line)
  && negb (has_L4 line) && has_CODE line.

(** How many lines pass a test. *)
Definition count_if (test : str -> bool) (lines : list str) : nat :=
  length (List.filter test lines).

(** Whether a line adds one to the counter [key]. *)
Definition counts_toward (key line : str) : bool :=
  if has_L1 line then bool_decide (key = lit "L1")
  else if has_L2 line then bool_decide (key = lit "L2")
  else if has_L3 line then bool_decide (key = lit "L3")
  else if has_L4 line then bool_decide (key = lit "L4")
  else if has_CODE line then
    bool_decide (key = lit "CODE")
    || (bool_decide (key = lit "provisional") && has_provisional line)
    || (bool_decide (key = lit "asterisked") && has_asterisk line)
  else false.

(** The matches of an expression as a relation: [reaches ic r st st'] when
    [r] can take the engine from [st] to [st'].  It says which matches
    there are, not in which order they are tried. *)
Inductive reaches (ic : bool) : regex -> mstate -> mstate -> Prop :=
| R_eps st : reaches ic Eps st st
| R_chr p c rest pos g :
    chr_match ic p c = true ->
    reaches ic (Chr p) (MState pos (c :: rest) g) (MState (S pos) rest g)
| R_dot c rest pos g :
    negb (Ascii.eqb c "010") = true ->
    reaches ic Dot (MState pos (c :: rest) g) (MState (S pos) rest g)
| R_cls neg items c rest pos g :
    cls_match ic neg items c = true ->
    reaches ic (Cls neg items) (MState pos (c :: rest) g) (MState (S pos) rest g)
| R_bol st : m_pos st = 0 -> reaches ic Bol st st
| R_eol st : m_rest st = [] \/ m_rest st = ["010"%char] -> reaches ic Eol st st
| R_seq r1 r2 st mid st' :
    reaches ic r1 st mid -> reaches ic r2 mid st' -> reaches ic (Seq r1 r2) st st'
| R_alt_l r1 r2 st st' : reaches ic r1 st st' -> reaches ic (Alt r1 r2) st st'
| R_alt_r r1 r2 st st' : reaches ic r2 st st' -> reaches ic (Alt r1 r2) st st'
| R_rep_stop r hi greedy st : reaches ic (Rep r 0 hi greedy) st st
| R_rep_more r lo hi greedy st mid st' :
    hi <> Some 0 ->
    reaches ic r st mid ->
    m_pos st < m_pos mid ->
    reaches ic (Rep r (pred lo) (pred <$> hi) greedy) mid st' ->
    reaches ic (Rep r lo hi greedy) st st'
| R_grp n r st st' :
    reaches ic r st st' -> reaches ic (Grp n r) st (set_group n st st').

(** Expressions without [^]. *)
Fixpoint no_bol (r : regex) : bool :=
  match r with
  | Bol => false
  | Seq r1 r2 | Alt r1 r2 => no_bol r1 && no_bol r2
  | Rep r' _ _ _ | Grp _ r' => no_bol r'
  | _ => true
  end.

(** An expression that consumes exactly one character, the one passing
    [test]. *)
Definition eats (ic : bool) (r : regex) (test : char -> bool) : Prop :=
  forall s s',
    reaches ic r s s' <->
    exists c rest, m_rest s = c :: rest /\ test c = true /\
                   s' = MState (S (m_pos s)) rest (m_groups s).

(** [u] is a run of characters passing [test], of a length between [lo] and
    [hi], that takes the engine from [st] to [st']. *)
Definition run_of (test : char -> bool) (lo : nat) (hi : option nat)
    (u : str) (st st' : mstate) : Prop :=
  m_rest st = u ++ m_rest st' /\
  Forall (fun c => test c = true) u /\
  lo <= length u /\
  (forall h, hi = Some h -> length u <= h) /\
  m_pos st' = m_pos st + length u /\
  m_groups st' = m_groups st.

(** A text with no space at either end. *)
Definition tight (s : str) : Prop :=
  (forall c, head s = Some c -> is_space c = false) /\
  (forall c, last s = Some c -> is_space c = false).

Definition all_space (s : str) : Prop := Forall (fun c => is_space c = true) s.
Definition all_digits (s : str) : Prop := Forall (fun c => is_digit c = true) s.

(** The start of a code line: an optional tilde, four digits, an optional
    asterisk and at least one space. *)
Definition code_prefix (pre d ast ws : str) : Prop :=
  (pre = [] \/ pre = lit "~") /\
  length d = 4 /\ all_digits d /\
  (ast = [] \/ ast = lit "*") /\
  ws <> [] /\ all_space ws.

(** The line feed, the one character [.] does not match. *)
Definition line_feed : char := "010".

(** An index-only continuation in the words of the specification: nothing
    but a dotted leader followed by page references, or nothing but a list
    of page references separated by commas. *)
Definition index_only_as_specified (remaining : str) : bool :=
  found (re_match
           (Pattern (Bol -:- at_least 3 (Chr ".") -:- star space -:- page_ref
                         -:- star (Chr "," -:- star space -:- page_ref)
                         -:- star space -:- Eol) false)
           remaining)
  || found (re_match (Pattern page_refs_re false) remaining).

(** Expressions without [^] and [$]. *)
Fixpoint no_anchor (r : regex) : bool :=
  match r with
  | Bol | Eol => false
  | Seq r1 r2 | Alt r1 r2 => no_anchor r1 && no_anchor r2
  | Rep r' _ _ _ | Grp _ r' => no_anchor r'
  | _ => true
  end.

(** What lies between two states of a match. *)
Definition consumed (st st' : mstate) : str :=
  take (m_pos st' - m_pos st) (m_rest st).

(** Whether an expression may match without consuming anything, and
    whether it may match a text that begins with [c]; both err on the side
    of yes. *)
Fixpoint nullable (r : regex) : bool :=
  match r with
  | Eps | Bol | Eol => true
  | Chr _ | Dot | Cls _ _ => false
  | Seq r1 r2 => nullable r1 && nullable r2
  | Alt r1 r2 => nullable r1 || nullable r2
  | Rep r' lo _ _ => (lo =? 0) || nullable r'
  | Grp _ r' => nullable r'
  end.

Fixpoint first (ic : bool) (r : regex) (c : char) : bool :=
  match r with
  | Eps | Bol | Eol => false
  | Chr p => chr_match ic p c
  | Dot => negb (Ascii.eqb c "010")
  | Cls neg items => cls_match ic neg items c
  | Seq r1 r2 => first ic r1 c || (nullable r1 && first ic r2 c)
  | Alt r1 r2 => first ic r1 c || first ic r2 c
  | Rep r' _ _ _ | Grp _ r' => first ic r' c
  end.

(** An expression anchored at the start that has no match in a text
    beginning with [c]. *)
Definition cannot_begin (ic : bool) (c : char) (r : regex) : bool :=
  match r with
  | Seq Bol r' => negb (nullable r') && negb (first ic r' c)
  | _ => false
  end.

(** ** Vocabulary of the further properties *)

(** The characters that survive in a marker value: [A-Z0-9]. *)
Definition is_marker_char (c : char) : bool :=
  in_range 65 90 c || in_range 48 57 c.

(** The shape of a tariff code at the start of a trimmed line: a tilde when
    [provisional], the four digits [d], an asterisk when [asterisked], and
    then the end of the line or a whitespace character. *)
Definition code_shape (t : str) (provisional asterisked : bool) (d : str) : Prop :=
  exists rest,
    t = (if provisional then lit "~" else []) ++ d
        ++ (if asterisked then lit "*" else []) ++ rest /\
    length d = 4 /\ all_digits d /\
    (forall c, head rest = Some c -> is_space c = true).

(** What may follow the code in the two patterns of [extract_code_info]:
    an expression that sets no group and starts at a whitespace character or
    at the end. *)
Definition code_tail (K : regex) : Prop :=
  forall s e, reaches false K s e ->
    m_groups e = m_groups s /\
    forall c, head (m_rest s) = Some c -> is_space c = true.

(** The characters of a bare code: a digit, the tilde or the asterisk. *)
Definition is_code_char (c : char) : bool :=
  is_digit c || Ascii.eqb c "~" || Ascii.eqb c "*".

(** The two kinds of marker lines of the built-in templates: a header
    marker, one of the levels L1 to L3 with a value of capital letters and
    digits, and a code marker. *)
Definition header_marker (m : str) : Prop :=
  exists lv v,
    (lv = L1 \/ lv = L2 \/ lv = L3) /\
    Forall (fun c => is_marker_char c = true) v /\
    m = laquo :: level_name lv ++ lit ":" ++ v ++ [raquo].

Definition code_marker (m : str) : Prop :=
  exists (p a : bool) d,
    length d = 4 /\ all_digits d /\
    m = laquo :: lit "CODE:" ++ (if p then lit "~" else []) ++ d
              ++ (if a then lit "*" else []) ++ [raquo].

Definition well_formed (marker : option str) : Prop :=
  forall m, marker = Some m -> header_marker m \/ code_marker m.

(** The least number of characters a match of an expression consumes. *)
Fixpoint min_len (r : regex) : nat :=
  match r with
  | Eps | Bol | Eol => 0
  | Chr _ | Dot | Cls _ _ => 1
  | Seq r1 r2 => min_len r1 + min_len r2
  | Alt r1 r2 => min_len r1 `min` min_len r2
  | Rep r' lo _ _ => lo * min_len r'
  | Grp _ r' => min_len r'
  end.

(** What holds of [current_hierarchy] all along a pass over the lines
    [seen]: its keys are the four levels, L4 is bound to the empty text, and
    every other level is bound to the empty text or to the cleaned text of a
    line that was seen. *)
Definition hierarchy_invariant (self : TextMarker) (seen : list TextLine)
    (h : gmap str str) : Prop :=
  h !! lit "L4" = Some [] /\
  (forall k, is_Some (h !! k) <-> k ∈ [lit "L1"; lit "L2"; lit "L3"; lit "L4"]) /\
  (forall k v, h !! k = Some v ->
     v = [] \/ exists line, line ∈ seen /\ v = _clean_header_text self (text line)).

(** A configuration with other values in the six fields that the marking
    never reads: the three lists of level patterns, which the detector
    compiles and then leaves alone, the L3 font size and the two code
    markers. *)
Definition with_unread_fields (config : MarkerConfig) (l3_size : Q)
    (l1 l2 l3 : list regex) (provisional asterisk : str) : MarkerConfig := {|
  l1_min_font_size := l1_min_font_size config;
  l2_min_font_size := l2_min_font_size config;
  l3_min_font_size := l3_size;
  l1_patterns := l1;
  l2_patterns := l2;
  l3_patterns := l3;
  code_pattern := code_pattern config;
  code_with_fee_pattern := code_with_fee_pattern config;
  provisional_marker := provisional;
  asterisk_marker := asterisk;
  fee_pattern := fee_pattern config;
  skip_patterns := skip_patterns config;
  content_start_patterns := content_start_patterns config;
  min_line_length := min_line_length config;
  marker_format := marker_format config;
  code_marker_format := code_marker_format config
|}.

(** What the loops of the extraction keep true of [lines] and [line_num]
    while page [p] is read. *)
Definition extraction_invariant (p : Z) (st : list TextLine * Z) : Prop :=
  snd st = Z.of_nat (length (fst st)) /\
  line_num <$> fst st = (fun k => Z.of_nat k) <$> seq 1 (length (fst st)) /\
  Forall (fun l => strip (text l) <> [] /\ (1 <= page_num l <= p)%Z) (fst st) /\
  (forall i j li lj, i <= j -> fst st !! i = Some li -> fst st !! j = Some lj ->
                     (page_num li <= page_num lj)%Z).

(** The number of line feeds of a text. *)
Definition line_feeds (s : str) : nat :=
  length (List.filter (Ascii.eqb "010") s).

(** Two lines that agree on what the marking reads of a line: the text, the
    font size and the boldness. *)
Definition same_reading (l l' : TextLine) : Prop :=
  text l = text l' /\ font_size l = font_size l' /\ is_bold l = is_bold l'.

(** * Properties *)

(** ** The shape of the output *)

Lemma mark_line_emits self cs prev line st :
  exists marker,
    output (mark_line self cs prev line st) = output st ++ emitted marker line.
Proof.
  unfold mark_line, emitted.
  destruct (negb (content_started st)).
  - destruct (starts_content cs (text line)); simpl.
    + eexists (Some _). by rewrite <- app_assoc.
    + by exists None.
  - destruct (should_skip _ line); [by exists None|].
    destruct (detect_level _ line prev) as [[]|]; simpl;
      try (eexists (Some _); by rewrite <- app_assoc);
      try (by exists None).
    destruct (extract_code_info _ _); simpl.
    + eexists (Some _). by rewrite <- app_assoc.
    + by exists None.
Qed.

Lemma mark_loop_emits self cs lines : forall prev st,
  exists markers,
    length markers = length lines /\
    output (mark_loop self cs prev lines st)
    = output st ++ mjoin (zip_with emitted markers lines).
Proof.
  induction lines as [|line lines IH]; intros prev st; simpl.
  - exists []. by rewrite app_nil_r.
  - destruct (IH (Some line) (mark_line self cs prev line st)) as (ms & Hlen & Hout).
    destruct (mark_line_emits self cs prev line st) as [m Hm].
    exists (m :: ms). split; [simpl; by rewrite Hlen|].
    rewrite Hout, Hm. simpl. by rewrite <- app_assoc.
Qed.

Lemma length_emitted_join markers lines :
  length markers = length lines ->
  length lines <= length (mjoin (zip_with emitted markers lines)).
Proof.
  revert lines. induction markers as [|m ms IH]; intros [|l ls] Hlen;
    simpl in *; try lia.
  rewrite length_app. unfold emitted at 1. rewrite length_app. simpl.
  specialize (IH ls). lia.
Qed.

(** C1.  Whatever the configuration and the lines, the output of
    [mark_text] is the lines' texts, each once, unchanged and in order,
    each preceded by at most one marker line; so the output is at least as
    long as the input. *)
Theorem mark_text_only_inserts (config : MarkerConfig) (lines : list TextLine) :
  exists markers : list (option str),
    length markers = length lines /\
    mark_text (TextMarker_init config) lines = mjoin (zip_with emitted markers lines) /\
    length lines <= length (mark_text (TextMarker_init config) lines).
Proof.
  unfold mark_text, mark_run.
  destruct (mark_loop_emits (TextMarker_init config)
              (compile_content_start (tm_config (TextMarker_init config)))
              lines None initial_state) as (ms & Hlen & Hout).
  exists ms. rewrite Hout. simpl. split; [done|]. split; [done|].
  by apply length_emitted_join.
Qed.

(** ** The hierarchy is never read *)

Lemma mark_line_forget self cs prev line st :
  forget_hierarchy (mark_line self cs prev line st)
  = mark_line_no_hierarchy self cs prev line (forget_hierarchy st).
Proof.
  unfold mark_line, mark_line_no_hierarchy, forget_hierarchy. simpl.
  destruct (negb (content_started st)).
  - destruct (starts_content cs (text line)); simpl; [|done].
    by rewrite <- app_assoc.
  - destruct (should_skip _ line); [done|].
    destruct (detect_level _ line prev) as [[]|]; simpl; try done.
    by destruct (extract_code_info _ _).
Qed.

Lemma mark_loop_forget self cs lines : forall prev st,
  forget_hierarchy (mark_loop self cs prev lines st)
  = mark_loop_no_hierarchy self cs prev lines (forget_hierarchy st).
Proof.
  induction lines as [|line lines IH]; intros prev st; simpl; [done|].
  by rewrite IH, mark_line_forget.
Qed.

(** C10.  No output line depends on [current_hierarchy]: [mark_text] and
    its variant without the dictionary give the same list, for every
    configuration and every sequence of lines. *)
Theorem mark_text_ignores_hierarchy (config : MarkerConfig) (lines : list TextLine) :
  mark_text (TextMarker_init config) lines
  = mark_text_no_hierarchy (TextMarker_init config) lines.
Proof.
  unfold mark_text, mark_text_no_hierarchy, mark_run.
  change (false, []) with (forget_hierarchy initial_state).
  by rewrite <- mark_loop_forget.
Qed.

(** ** The content-start gate *)

Lemma mark_loop_app self cs l1 : forall l2 prev st,
  mark_loop self cs prev (l1 ++ l2) st
  = mark_loop self cs (last_line prev l1) l2 (mark_loop self cs prev l1 st).
Proof.
  induction l1 as [|line l1 IH]; intros l2 prev st; simpl; [done|].
  rewrite IH. f_equal. unfold last_line.
  destruct l1 as [|line' l1]; [done|].
  rewrite last_cons_cons.
  destruct (last (line' :: l1)) eqn:E; [done|].
  by apply last_None in E.
Qed.

Lemma mark_loop_preamble self cs pre : forall prev st,
  content_started st = false ->
  Forall (fun l => starts_content cs (text l) = false) pre ->
  mark_loop self cs prev pre st
  = {| content_started := false;
       current_hierarchy := current_hierarchy st;
       output := output st ++ (text <$> pre) |}.
Proof.
  induction pre as [|line pre IH]; intros prev st Hst Hpre; simpl.
  - rewrite app_nil_r. by destruct st; simpl in *; subst.
  - inversion Hpre as [|? ? Hline Hpre']; subst.
    rewrite IH; [| |done].
    + unfold mark_line. rewrite Hst, Hline. simpl. by rewrite <- app_assoc.
    + unfold mark_line. by rewrite Hst, Hline.
Qed.

Lemma mark_line_stays_active self cs prev line st :
  content_started st = true ->
  content_started (mark_line self cs prev line st) = true.
Proof.
  intros Hst. unfold mark_line. rewrite Hst. simpl.
  destruct (should_skip _ line); [done|].
  destruct (detect_level _ line prev) as [[]|]; simpl; try done.
  by destruct (extract_code_info _ _).
Qed.

Lemma mark_loop_stays_active self cs lines : forall prev st,
  content_started st = true ->
  content_started (mark_loop self cs prev lines st) = true.
Proof.
  induction lines as [|line lines IH]; intros prev st Hst; simpl; [done|].
  by apply IH, mark_line_stays_active.
Qed.

(** ** The hierarchy state *)

Lemma level_name_tier_key lv : lv <> CODE -> level_name lv = tier_key (level_num lv).
Proof. by destruct lv. Qed.

Lemma tier_key_inj l l' :
  1 <= l <= 4 -> 1 <= l' <= 4 -> tier_key l = tier_key l' -> l = l'.
Proof.
  intros Hl Hl' H.
  assert (l = 1 \/ l = 2 \/ l = 3 \/ l = 4) as Hc by lia.
  assert (l' = 1 \/ l' = 2 \/ l' = 3 \/ l' = 4) as Hc' by lia.
  destruct Hc as [->|[->|[->| ->]]]; destruct Hc' as [->|[->|[->| ->]]];
    done || discriminate.
Qed.

(** The keys and the loop over the deeper levels, evaluated. *)
Ltac eval_hierarchy :=
  unfold update_hierarchy; simpl;
  repeat match goal with
         | |- context [tier_key ?n] =>
             let k := eval vm_compute in (tier_key n) in
             change (tier_key n) with k
         end.

Lemma update_hierarchy_bound lv header h :
  lv <> CODE -> update_hierarchy lv header h !! level_name lv = Some header.
Proof. destruct lv; intros ?; try done; eval_hierarchy; by simplify_map_eq. Qed.

Lemma update_hierarchy_deeper lv header h l :
  lv <> CODE -> level_num lv < l <= 4 ->
  update_hierarchy lv header h !! tier_key l = Some [].
Proof.
  intros Hlv Hl.
  assert (l = 2 \/ l = 3 \/ l = 4) as Hc by (destruct lv; [done|..]; simpl in Hl; lia).
  destruct lv; try done; simpl in Hl;
    destruct Hc as [->|[->| ->]]; try lia; eval_hierarchy; by simplify_map_eq.
Qed.

Lemma update_hierarchy_above lv header h l :
  lv <> CODE -> 1 <= l < level_num lv ->
  update_hierarchy lv header h !! tier_key l = h !! tier_key l.
Proof.
  intros Hlv Hl.
  assert (l = 1 \/ l = 2 \/ l = 3) as Hc by (destruct lv; [done|..]; simpl in Hl; lia).
  destruct lv; try done; simpl in Hl;
    destruct Hc as [->|[->| ->]]; try lia; eval_hierarchy; by simplify_map_eq.
Qed.

Lemma mark_line_binds self cs prev line st lv :
  content_started st = true ->
  should_skip (tm_detector self) line = false ->
  detect_level (tm_detector self) line prev = Some lv ->
  lv <> CODE ->
  current_hierarchy (mark_line self cs prev line st)
  = update_hierarchy lv (_clean_header_text self (text line)) (current_hierarchy st).
Proof.
  intros Hst Hskip Hlv Hcode. unfold mark_line. rewrite Hst, Hskip, Hlv. simpl.
  by destruct lv.
Qed.

(** C5.  In an active pass, a line that is not skipped and is classified
    into one of the levels L1..L4 gets its cleaned header bound to that
    level, every deeper level is reset to the empty string, and the levels
    above keep their values.  So after L1 and then L2 are bound both hold
    their headers, and binding L1 again resets L2, L3 and L4. *)
Theorem hierarchy_binding_resets_deeper (config : MarkerConfig)
    (prev : option TextLine) (line : TextLine) (st : mark_state) (lv : level) :
  let self := TextMarker_init config in
  let cs := compile_content_start config in
  content_started st = true ->
  should_skip (tm_detector self) line = false ->
  detect_level (tm_detector self) line prev = Some lv ->
  lv <> CODE ->
  let header := _clean_header_text self (text line) in
  let h' := current_hierarchy (mark_line self cs prev line st) in
  h' = update_hierarchy lv header (current_hierarchy st) /\
  h' !! level_name lv = Some header /\
  (forall l, level_num lv < l <= 4 -> h' !! tier_key l = Some []) /\
  (forall l, 1 <= l < level_num lv -> h' !! tier_key l = current_hierarchy st !! tier_key l) /\
  (forall h v1 v2 v3,
     let h2 := update_hierarchy L2 v2 (update_hierarchy L1 v1 h) in
     let h3 := update_hierarchy L1 v3 h2 in
     h2 !! lit "L1" = Some v1 /\ h2 !! lit "L2" = Some v2 /\
     h3 !! lit "L1" = Some v3 /\ h3 !! lit "L2" = Some [] /\
     h3 !! lit "L3" = Some [] /\ h3 !! lit "L4" = Some []).
Proof.
  intros self cs Hst Hskip Hlv Hcode header h'.
  assert (h' = update_hierarchy lv header (current_hierarchy st)) as Hh'
    by (by apply mark_line_binds).
  split; [done|]. rewrite Hh'.
  split; [by apply update_hierarchy_bound|].
  split; [intros l Hl; by apply update_hierarchy_deeper|].
  split; [intros l Hl; by apply update_hierarchy_above|].
  intros h v1 v2 v3 h2 h3. subst h2 h3.
  repeat split; eval_hierarchy; by simplify_map_eq.
Qed.

(** Three headers in a row under the built-in configuration: L1, L2, L1. *)
Lemma hierarchy_binding_witness :
  let self := TextMarker_init default_config in
  let lines := [line_of (lit "RULES OF APPLICATION"); line_of (lit "ANESTHESIA");
                line_of (lit "Hospital Care")] in
  let st := mark_run self lines in
  let h' := current_hierarchy
              (mark_line self (compile_content_start default_config)
                 (Some (line_of (lit "Hospital Care"))) (line_of (lit "MATERNITY")) st) in
  (current_hierarchy st !! lit "L1" = Some (lit "ANESTHESIA") /\
   current_hierarchy st !! lit "L2" = Some (lit "Hospital Care")) /\
  (h' !! lit "L1" = Some (lit "MATERNITY") /\ h' !! lit "L2" = Some []).
Proof.
  intros self lines st h'. split; [split; reflexivity|].
  destruct (hierarchy_binding_resets_deeper default_config
              (Some (line_of (lit "Hospital Care"))) (line_of (lit "MATERNITY")) st L1)
    as (_ & Hb & Hd & _); try reflexivity; [discriminate|].
  split; [exact Hb|]. apply (Hd 2). simpl. lia.
Defined.

(** ** The order of the tests in [detect_level] *)

(** C2.  [detect_level] tries the tariff-code test, then L1, then L2, then
    L3, and answers with the first that succeeds; a line that passes the
    tariff-code test is CODE whatever the L1 test says, and L4 is never the
    answer.  This holds for every configuration, the built-in one
    included. *)
Theorem detect_level_priority (config : MarkerConfig) (line : TextLine)
    (prev : option TextLine) :
  let self := HierarchyDetector_init config in
  let code := _is_tariff_code self (strip (text line)) in
  let l1 := _matches_l1 self line in
  let l2 := _matches_l2 self line in
  let l3 := _matches_l3 self line in
  (code = true -> detect_level self line prev = Some CODE) /\
  (code = false -> l1 = true -> detect_level self line prev = Some L1) /\
  (code = false -> l1 = false -> l2 = true -> detect_level self line prev = Some L2) /\
  (code = false -> l1 = false -> l2 = false -> l3 = true ->
   detect_level self line prev = Some L3) /\
  (code = false -> l1 = false -> l2 = false -> l3 = false ->
   detect_level self line prev = None) /\
  detect_level self line prev <> Some L4.
Proof.
  intros self code l1 l2 l3. unfold detect_level.
  fold code l1 l2 l3.
  destruct code, l1, l2, l3; repeat split; intros; congruence.
Qed.

(** One line for each answer under the built-in configuration. *)
Lemma detect_level_priority_witness :
  let self := HierarchyDetector_init default_config in
  detect_level self (line_of (lit "8540 Complete History and Physical Examination")) None
  = Some CODE /\
  detect_level self (line_of (lit "NEUROLOGY (01-1)")) None = Some L1 /\
  detect_level self (line_of (lit "Hospital Care")) None = Some L2 /\
  detect_level self (line_of (lit "Fractures")) None = Some L3 /\
  detect_level self (line_of (lit "plain text here")) None = None.
Proof.
  intros self.
  split; [|split; [|split; [|split]]].
  - by apply (detect_level_priority default_config).
  - by apply (detect_level_priority default_config).
  - by apply (detect_level_priority default_config).
  - by apply (detect_level_priority default_config).
  - by apply (detect_level_priority default_config).
Defined.

(** ** Statistics *)

Lemma count_line_lookup stats line key :
  count_line stats line !! key
  = (if counts_toward key line then S else id) <$> stats !! key.
Proof.
  assert (forall (k : str) (m : gmap str nat),
            incr k m !! key = (if bool_decide (key = k) then S else id) <$> m !! key)
    as Hincr.
  { intros k m. unfold incr. rewrite lookup_alter.
    case_decide; case_bool_decide; subst; try done.
    by destruct (m !! key). }
  unfold count_line, counts_toward.
  fold (has_L1 line) (has_L2 line) (has_L3 line) (has_L4 line) (has_CODE line)
       (has_provisional line) (has_asterisk line).
  destruct (has_L1 line); [apply Hincr|].
  destruct (has_L2 line); [apply Hincr|].
  destruct (has_L3 line); [apply Hincr|].
  destruct (has_L4 line); [apply Hincr|].
  destruct (has_CODE line); [|by destruct (stats !! key)].
  destruct (has_asterisk line), (has_provisional line);
    rewrite ?Hincr; destruct (stats !! key); simpl;
    repeat case_bool_decide; subst; try discriminate; done.
Qed.

Lemma count_lines_lookup lines : forall stats key,
  foldl count_line stats lines !! key
  = (fun n => n + count_if (counts_toward key) lines) <$> stats !! key.
Proof.
  induction lines as [|line lines IH]; intros stats key; simpl.
  - destruct (stats !! key); simpl; [|done]. f_equal. unfold count_if. simpl. lia.
  - rewrite IH, count_line_lookup. unfold count_if. simpl.
    destruct (stats !! key), (counts_toward key line); simpl; try done;
      f_equal; lia.
Qed.

Lemma count_if_ext (f g : str -> bool) lines :
  (forall line, f line = g line) -> count_if f lines = count_if g lines.
Proof.
  intros H. unfold count_if. f_equal. apply List.filter_ext. exact H.
Qed.

Lemma counted_once lines :
  count_if has_L1 lines
  + count_if (fun line => negb (has_L1 line) && has_L2 line) lines
  + count_if (fun line => negb (has_L1 line) && negb (has_L2 line) && has_L3 line) lines
  + count_if (fun line => negb (has_L1 line) && negb (has_L2 line)
                          && negb (has_L3 line) && has_L4 line) lines
  + count_if counted_CODE lines
  <= length lines.
Proof.
  unfold count_if, counted_CODE. induction lines as [|line lines IH]; simpl; [lia|].
  destruct (has_L1 line), (has_L2 line), (has_L3 line), (has_L4 line),
    (has_CODE line); simpl; lia.
Qed.

(** C9.  Each output line adds to at most one of the counters L1, L2, L3,
    L4 and CODE, the first whose prefix it contains in that order; a line
    counted as CODE adds to [provisional] when it contains the provisional
    code prefix, and to [asterisked] when it contains an asterisk before the
    closing guillemet, the one test not excluding the other: the marker of
    a provisional, asterisked code counts once in each. *)
Theorem calculate_stats_counts (lines : list str) (config : MarkerConfig) :
  let stats := _calculate_stats lines config in
  stats !! lit "L1" = Some (count_if has_L1 lines) /\
  stats !! lit "L2"
  = Some (count_if (fun line => negb (has_L1 line) && has_L2 line) lines) /\
  stats !! lit "L3"
  = Some (count_if (fun line => negb (has_L1 line) && negb (has_L2 line)
                                && has_L3 line) lines) /\
  stats !! lit "L4"
  = Some (count_if (fun line => negb (has_L1 line) && negb (has_L2 line)
                                && negb (has_L3 line) && has_L4 line) lines) /\
  stats !! lit "CODE" = Some (count_if counted_CODE lines) /\
  stats !! lit "provisional"
  = Some (count_if (fun line => counted_CODE line && has_provisional line) lines) /\
  stats !! lit "asterisked"
  = Some (count_if (fun line => counted_CODE line && has_asterisk line) lines) /\
  (exists n1 n2 n3 n4 nc,
     stats !! lit "L1" = Some n1 /\ stats !! lit "L2" = Some n2 /\
     stats !! lit "L3" = Some n3 /\ stats !! lit "L4" = Some n4 /\
     stats !! lit "CODE" = Some nc /\ n1 + n2 + n3 + n4 + nc <= length lines) /\
  (let both := _calculate_stats [laquo :: lit "CODE:~0171*" ++ [raquo]] config in
   both !! lit "CODE" = Some 1 /\ both !! lit "provisional" = Some 1 /\
   both !! lit "asterisked" = Some 1).
Proof.
  intros stats.
  assert (forall key f,
            initial_stats !! key = Some 0 ->
            (forall line, counts_toward key line = f line) ->
            stats !! key = Some (count_if f lines)) as Hkey.
  { intros key f H0 Hf. unfold stats, _calculate_stats.
    rewrite count_lines_lookup, H0. simpl. f_equal. by apply count_if_ext. }
  assert (stats !! lit "L1" = Some (count_if has_L1 lines)) as H1.
  { apply Hkey; [done|]. intros line. unfold counts_toward.
    by destruct (has_L1 line), (has_L2 line), (has_L3 line), (has_L4 line),
         (has_CODE line). }
  assert (stats !! lit "L2"
          = Some (count_if (fun line => negb (has_L1 line) && has_L2 line) lines)) as H2.
  { apply Hkey; [done|]. intros line. unfold counts_toward.
    by destruct (has_L1 line), (has_L2 line), (has_L3 line), (has_L4 line),
         (has_CODE line). }
  assert (stats !! lit "L3"
          = Some (count_if (fun line => negb (has_L1 line) && negb (has_L2 line)
                                        && has_L3 line) lines)) as H3.
  { apply Hkey; [done|]. intros line. unfold counts_toward.
    by destruct (has_L1 line), (has_L2 line), (has_L3 line), (has_L4 line),
         (has_CODE line). }
  assert (stats !! lit "L4"
          = Some (count_if (fun line => negb (has_L1 line) && negb (has_L2 line)
                                        && negb (has_L3 line) && has_L4 line) lines))
    as H4.
  { apply Hkey; [done|]. intros line. unfold counts_toward.
    by destruct (has_L1 line), (has_L2 line), (has_L3 line), (has_L4 line),
         (has_CODE line). }
  assert (stats !! lit "CODE" = Some (count_if counted_CODE lines)) as Hc.
  { apply Hkey; [done|]. intros line. unfold counts_toward, counted_CODE.
    by destruct (has_L1 line), (has_L2 line), (has_L3 line), (has_L4 line),
         (has_CODE line). }
  split; [done|]. split; [done|]. split; [done|]. split; [done|]. split; [done|].
  split; [|split; [|split]].
  - apply Hkey; [done|]. intros line. unfold counts_toward, counted_CODE.
    by destruct (has_L1 line), (has_L2 line), (has_L3 line), (has_L4 line),
         (has_CODE line), (has_provisional line).
  - apply Hkey; [done|]. intros line. unfold counts_toward, counted_CODE.
    by destruct (has_L1 line), (has_L2 line), (has_L3 line), (has_L4 line),
         (has_CODE line), (has_asterisk line).
  - eexists _, _, _, _, _. repeat (split; [eassumption|]). apply counted_once.
  - by vm_compute.
Qed.

(** ** Codes and their markers *)

(** C8.  Under the built-in configuration, the line
    [8540 Complete History and Physical Examination] gives the code 8540
    with both flags off and the marker «CODE:8540»; the line [~0171*] gives
    the code 0171 with both flags on and the marker «CODE:~0171*»; and these
    are the markers an active pass puts before the two lines. *)
Theorem code_round_trip :
  let self := TextMarker_init default_config in
  let plain := lit "8540 Complete History and Physical Examination" in
  let flagged := lit "~0171*" in
  (exists info,
     extract_code_info (tm_detector self) plain = Some info /\
     code info = lit "8540" /\ is_provisional info = false /\
     is_asterisked info = false /\
     _format_code_marker self (code info) (is_provisional info) (is_asterisked info)
     = laquo :: lit "CODE:8540" ++ [raquo]) /\
  (exists info,
     extract_code_info (tm_detector self) flagged = Some info /\
     code info = lit "0171" /\ is_provisional info = true /\
     is_asterisked info = true /\
     _format_code_marker self (code info) (is_provisional info) (is_asterisked info)
     = laquo :: lit "CODE:~0171*" ++ [raquo]) /\
  mark_text self [line_of (lit "RULES OF APPLICATION"); line_of plain; line_of flagged]
  = [laquo :: lit "L1:RULESOFAPPLICATION" ++ [raquo]; lit "RULES OF APPLICATION";
     laquo :: lit "CODE:8540" ++ [raquo]; plain;
     laquo :: lit "CODE:~0171*" ++ [raquo]; flagged].
Proof.
  intros self plain flagged. split; [|split].
  - eexists. split; [by vm_compute|]. by vm_compute.
  - eexists. split; [by vm_compute|]. by vm_compute.
  - by vm_compute.
Qed.

(** ** Loading the configuration *)

(** C4, as the program has it: the built-in configuration is what
    [load_config] returns when no path is given or no file is there.  A
    file that is there and cannot be opened, is not JSON, or does not fit
    the fields makes [load_config] raise; [main] calls it outside its [try]
    block, so the exception ends the run.  A file that fits is used. *)
Theorem load_config_default_when_absent (fs : str -> file_state) (path : str)
    (process_pdf : MarkerConfig -> exn + unit) :
  load_config fs None = inr default_config /\
  load_config fs (Some []) = inr default_config /\
  (fs path = Absent -> load_config fs (Some path) = inr default_config) /\
  (path <> [] -> fs path = Unreadable ->
   load_config fs (Some path) = inl OSError /\
   main_run fs (Some path) process_pdf = Uncaught OSError) /\
  (path <> [] -> fs path = NotJson ->
   load_config fs (Some path) = inl JSONDecodeError /\
   main_run fs (Some path) process_pdf = Uncaught JSONDecodeError) /\
  (path <> [] -> fs path = BadFields ->
   load_config fs (Some path) = inl TypeError /\
   main_run fs (Some path) process_pdf = Uncaught TypeError) /\
  (forall config, path <> [] -> fs path = Holds config ->
   load_config fs (Some path) = inr config).
Proof.
  unfold main_run, load_config.
  destruct path as [|c path]; [by repeat split|].
  split; [done|]. split; [done|].
  split; [by intros ->|].
  split; [by intros _ ->|]. split; [by intros _ ->|]. split; [by intros _ ->|].
  by intros config _ ->.
Qed.

(** A missing file and a file that is not JSON. *)
Lemma load_config_default_when_absent_witness :
  load_config (fun _ => Absent) (Some (lit "marker.json")) = inr default_config /\
  main_run (fun _ => NotJson) (Some (lit "marker.json")) (fun _ => inr tt)
  = Uncaught JSONDecodeError.
Proof.
  split.
  - destruct (load_config_default_when_absent (fun _ => Absent) (lit "marker.json")
                (fun _ => inr tt)) as (_ & _ & H & _).
    by apply H.
  - destruct (load_config_default_when_absent (fun _ => NotJson) (lit "marker.json")
                (fun _ => inr tt)) as (_ & _ & _ & _ & H & _).
    by apply H.
Defined.

(** C4, as stated, fails: for a configuration file that is not JSON,
    [load_config] does not return the built-in configuration, it raises,
    and the run ends with the exception. *)
Lemma load_config_invalid_raises :
  let fs := fun _ : str => NotJson in
  load_config fs (Some (lit "marker.json")) <> inr default_config /\
  load_config fs (Some (lit "marker.json")) = inl JSONDecodeError /\
  main_run fs (Some (lit "marker.json")) (fun _ => inr tt) = Uncaught JSONDecodeError.
Proof. by split. Qed.

(** ** The engine and its matches *)

Lemma reaches_consumes ic r st st' :
  reaches ic r st st' ->
  exists u, m_rest st = u ++ m_rest st' /\ m_pos st' = m_pos st + length u.
Proof.
  induction 1 as [st|p c rest pos g _|c rest pos g _|neg items c rest pos g _
                  |st _|st _|r1 r2 st mid st' _ IH1 _ IH2
                  |r1 r2 st st' _ IH|r1 r2 st st' _ IH
                  |r hi greedy st|r lo hi greedy st mid st' _ _ IH1 _ _ IH2
                  |n r st st' _ IH]; simpl;
    try (exists []; split; [done|simpl; lia]);
    try (eexists [_]; split; [done|simpl; lia]);
    try done.
  - destruct IH1 as (u1 & E1 & P1), IH2 as (u2 & E2 & P2).
    exists (u1 ++ u2). rewrite length_app, <- app_assoc, E1, E2. split; [done|lia].
  - destruct IH1 as (u1 & E1 & P1), IH2 as (u2 & E2 & P2).
    exists (u1 ++ u2). rewrite length_app, <- app_assoc, E1, E2. split; [done|lia].
Qed.

Lemma elem_of_eat test st st' :
  st' ∈ eat test st <->
  exists c rest, m_rest st = c :: rest /\ test c = true /\
                 st' = MState (S (m_pos st)) rest (m_groups st).
Proof.
  unfold eat. destruct (m_rest st) as [|c rest].
  - split; [by intros ?%elem_of_nil|by intros (? & ? & ? & _)].
  - destruct (test c) eqn:E.
    + rewrite list_elem_of_singleton. split; [intros ->; by eauto|].
      by intros (? & ? & [= <- <-] & _ & ->).
    + split; [by intros ?%elem_of_nil|]. intros (? & ? & [= <- <-] & ? & _). congruence.
Qed.

Lemma rep_loop_sound ic r greedy (step : mstate -> list mstate) :
  (forall s s', s' ∈ step s -> reaches ic r s s') ->
  forall fuel lo hi st st',
    st' ∈ rep_loop step greedy fuel lo hi st -> reaches ic (Rep r lo hi greedy) st st'.
Proof.
  intros Hstep. induction fuel as [|fuel IH]; intros lo hi st st' Hin; simpl in Hin.
  - by apply elem_of_nil in Hin.
  - assert (st' ∈ match lo with 0 => [st] | S _ => [] end \/
            st' ∈ match hi with
                  | Some 0 => []
                  | _ => s ← step st;
                         if m_pos st <? m_pos s
                         then rep_loop step greedy fuel (pred lo) (pred <$> hi) s
                         else []
                  end) as [Hstop|Hmore].
    { destruct greedy; apply elem_of_app in Hin; tauto. }
    + destruct lo; [|by apply elem_of_nil in Hstop].
      apply list_elem_of_singleton in Hstop as ->. constructor.
    + assert (hi <> Some 0) as Hhi.
      { intros ->. by apply elem_of_nil in Hmore. }
      assert (st' ∈ (s ← step st;
                     if m_pos st <? m_pos s
                     then rep_loop step greedy fuel (pred lo) (pred <$> hi) s
                     else [])) as Hbind.
      { by destruct hi as [[|h]|]. }
      apply list_elem_of_bind in Hbind as (mid & Hrest & Hmid).
      destruct (Nat.ltb_spec (m_pos st) (m_pos mid)) as [Hlt|];
        [|by apply elem_of_nil in Hrest].
      eapply R_rep_more; eauto.
Qed.

Lemma matches_sound ic r : forall st st',
  st' ∈ matches ic r st -> reaches ic r st st'.
Proof.
  induction r as [|p| |neg items| | |r1 IH1 r2 IH2|r1 IH1 r2 IH2
                  |r IH lo hi greedy|n r IH]; intros st st' Hin;
    [simpl in Hin..|idtac|simpl in Hin].
  - apply list_elem_of_singleton in Hin as ->. constructor.
  - apply elem_of_eat in Hin as (c & rest & Hr & Ht & ->).
    destruct st as [pos rest0 g]; simpl in *; subst. by constructor.
  - apply elem_of_eat in Hin as (c & rest & Hr & Ht & ->).
    destruct st as [pos rest0 g]; simpl in *; subst. by constructor.
  - apply elem_of_eat in Hin as (c & rest & Hr & Ht & ->).
    destruct st as [pos rest0 g]; simpl in *; subst. by constructor.
  - destruct (Nat.eqb_spec (m_pos st) 0); [|by apply elem_of_nil in Hin].
    apply list_elem_of_singleton in Hin as ->. by constructor.
  - destruct (m_rest st) as [|c [|c' rest]] eqn:E.
    + apply list_elem_of_singleton in Hin as ->. constructor. by left.
    + destruct (Ascii.eqb_spec c "010"); [|by apply elem_of_nil in Hin].
      apply list_elem_of_singleton in Hin as ->. constructor. right. by subst.
    + by apply elem_of_nil in Hin.
  - apply list_elem_of_bind in Hin as (mid & H2 & H1). econstructor; eauto.
  - apply elem_of_app in Hin as [H|H]; [apply R_alt_l|apply R_alt_r]; eauto.
  - eapply rep_loop_sound; eauto.
  - apply list_elem_of_fmap in Hin as (s & -> & Hs). constructor. eauto.
Qed.

Lemma rep_loop_mono (step : mstate -> list mstate) greedy : forall fuel fuel' lo hi st st',
  fuel <= fuel' ->
  st' ∈ rep_loop step greedy fuel lo hi st ->
  st' ∈ rep_loop step greedy fuel' lo hi st.
Proof.
  induction fuel as [|fuel IH]; intros fuel' lo hi st st' Hle Hin; simpl in Hin.
  - by apply elem_of_nil in Hin.
  - destruct fuel' as [|fuel']; [lia|]. simpl.
    assert (forall s, st' ∈ (if m_pos st <? m_pos s
                             then rep_loop step greedy fuel (pred lo) (pred <$> hi) s
                             else []) ->
                      st' ∈ (if m_pos st <? m_pos s
                             then rep_loop step greedy fuel' (pred lo) (pred <$> hi) s
                             else [])) as Hs.
    { intros s. destruct (m_pos st <? m_pos s); [|done]. apply IH. lia. }
    assert (st' ∈ (s ← step st;
                   if m_pos st <? m_pos s
                   then rep_loop step greedy fuel (pred lo) (pred <$> hi) s
                   else []) ->
            st' ∈ (s ← step st;
                   if m_pos st <? m_pos s
                   then rep_loop step greedy fuel' (pred lo) (pred <$> hi) s
                   else [])) as Hbind.
    { rewrite !list_elem_of_bind. intros (s & ? & ?). exists s. split; [by apply Hs|done]. }
    destruct greedy; apply elem_of_app in Hin; apply elem_of_app;
      destruct hi as [[|h]|]; tauto.
Qed.

Lemma matches_rep_unfold ic r lo hi greedy st :
  matches ic (Rep r lo hi greedy) st
  = let stop := match lo with 0 => [st] | S _ => [] end in
    let more :=
      match hi with
      | Some 0 => []
      | _ => s ← matches ic r st;
             if m_pos st <? m_pos s
             then rep_loop (matches ic r) greedy (length (m_rest st))
                    (pred lo) (pred <$> hi) s
             else []
      end in
    if greedy then more ++ stop else stop ++ more.
Proof. reflexivity. Qed.

Lemma matches_complete ic r st st' :
  reaches ic r st st' -> st' ∈ matches ic r st.
Proof.
  induction 1 as [st|p c rest pos g Ht|c rest pos g Ht|neg items c rest pos g Ht
                  |st Hp|st He|r1 r2 st mid st' _ IH1 _ IH2
                  |r1 r2 st st' _ IH|r1 r2 st st' _ IH
                  |r hi greedy st|r lo hi greedy st mid st' Hhi Hr IH1 Hlt _ IH2
                  |n r st st' _ IH];
    [simpl..|rewrite matches_rep_unfold|rewrite matches_rep_unfold|simpl].
  - by apply list_elem_of_singleton.
  - apply elem_of_eat. by eauto.
  - apply elem_of_eat. by eauto.
  - apply elem_of_eat. by eauto.
  - rewrite Hp. by apply list_elem_of_singleton.
  - destruct He as [-> | ->]; by apply list_elem_of_singleton.
  - apply list_elem_of_bind. eauto.
  - apply elem_of_app. by left.
  - apply elem_of_app. by right.
  - cbv zeta. destruct greedy; apply elem_of_app; [right|left];
      by apply list_elem_of_singleton.
  - change (st' ∈ rep_loop (matches ic r) greedy (S (length (m_rest mid)))
                    (pred lo) (pred <$> hi) mid) in IH2.
    assert (st' ∈ (s ← matches ic r st;
                   if m_pos st <? m_pos s
                   then rep_loop (matches ic r) greedy (length (m_rest st))
                          (pred lo) (pred <$> hi) s
                   else [])) as Hbind.
    { apply list_elem_of_bind. exists mid. split; [|done].
      destruct (Nat.ltb_spec (m_pos st) (m_pos mid)); [|lia].
      eapply rep_loop_mono; [|exact IH2].
      destruct (reaches_consumes _ _ _ _ Hr) as (u & -> & Hu).
      rewrite length_app. lia. }
    cbv zeta. destruct greedy; apply elem_of_app; destruct hi as [[|h]|]; try done; tauto.
  - apply list_elem_of_fmap. eauto.
Qed.

(** The engine finds exactly the matches of the relation: its fuel never
    runs out. *)
Lemma matches_reaches ic r st st' :
  st' ∈ matches ic r st <-> reaches ic r st st'.
Proof. split; [apply matches_sound|apply matches_complete]. Qed.

(** *** Single characters and their repetitions *)

Lemma eats_chr ic p : eats ic (Chr p) (chr_match ic p).
Proof.
  intros s s'. split.
  - inversion 1; subst; simpl. eauto.
  - intros (c & rest & Hr & Ht & ->). destruct s as [pos rest0 g]; simpl in *; subst.
    by constructor.
Qed.

Lemma eats_dot ic : eats ic Dot (fun c => negb (Ascii.eqb c "010")).
Proof.
  intros s s'. split.
  - inversion 1; subst; simpl. eauto.
  - intros (c & rest & Hr & Ht & ->). destruct s as [pos rest0 g]; simpl in *; subst.
    by constructor.
Qed.

Lemma eats_cls ic neg items : eats ic (Cls neg items) (cls_match ic neg items).
Proof.
  intros s s'. split.
  - inversion 1; subst; simpl. eauto.
  - intros (c & rest & Hr & Ht & ->). destruct s as [pos rest0 g]; simpl in *; subst.
    by constructor.
Qed.

Lemma reaches_rep_run ic r test lo hi greedy st st' :
  eats ic r test ->
  reaches ic (Rep r lo hi greedy) st st' ->
  exists u, run_of test lo hi u st st'.
Proof.
  intros Heats H. remember (Rep r lo hi greedy) as R eqn:ER.
  revert lo hi ER.
  induction H as [| | | | | | | |
                  |r0 hi0 g0 st|r0 lo0 hi0 g0 st mid st' Hhi Hr _ Hlt _ IH|];
    intros lo hi ER; simplify_eq.
  - exists []. unfold run_of; repeat split; simpl; try done; try lia.
  - destruct (IH (pred lo) (pred <$> hi) eq_refl) as (u & E & Hu & Hlo & Hhi' & Hp & Hg).
    apply Heats in Hr as (c & rest & Ec & Hc & ->). simpl in *.
    exists (c :: u). unfold run_of. repeat split; simpl.
    + by rewrite Ec, E.
    + by constructor.
    + lia.
    + intros h ->. destruct h as [|h]; [done|]. specialize (Hhi' h eq_refl). lia.
    + lia.
    + done.
Qed.

Lemma run_reaches_rep ic r test greedy u : forall lo hi st st',
  eats ic r test ->
  run_of test lo hi u st st' ->
  reaches ic (Rep r lo hi greedy) st st'.
Proof.
  induction u as [|c u IH]; intros lo hi st st' Heats (E & Hu & Hlo & Hhi & Hp & Hg).
  - destruct st as [pos rest g], st' as [pos' rest' g']; simpl in *; subst.
    assert (lo = 0) as -> by lia. replace (pos + 0) with pos by lia. constructor.
  - inversion Hu as [|? ? Hc Hu']; subst.
    destruct st as [pos rest g]; simpl in *.
    apply (R_rep_more ic r lo hi greedy _ (MState (S pos) (u ++ m_rest st') g)).
    + intros ->. specialize (Hhi 0 eq_refl). lia.
    + apply Heats. simpl. eauto.
    + simpl. lia.
    + apply IH; [done|]. unfold run_of. simpl. repeat split; try done; try lia.
      intros h Eh. destruct hi as [h'|]; [|done]. simpl in Eh. injection Eh as <-.
      specialize (Hhi h' eq_refl). lia.
Qed.

(** The first match is one of the matches. *)
Lemma re_match_reaches p text m :
  re_match p text = Some m ->
  mo_start m = 0 /\ mo_text m = text /\
  reaches (p_ic p) (p_re p) (MState 0 text []) (mo_end m).
Proof.
  unfold re_match. intros H.
  destruct (matches (p_ic p) (p_re p) (MState 0 text [])) as [|e l] eqn:E; [done|].
  simpl in H. injection H as <-. simpl. repeat split.
  apply matches_sound. rewrite E. by left.
Qed.

Lemma reaches_re_match p text e :
  reaches (p_ic p) (p_re p) (MState 0 text []) e ->
  found (re_match p text) = true.
Proof.
  intros H%matches_complete. unfold re_match.
  destruct (matches (p_ic p) (p_re p) (MState 0 text [])); [|done].
  by apply elem_of_nil in H.
Qed.

Lemma no_reach_re_match p text :
  (forall e, ~ reaches (p_ic p) (p_re p) (MState 0 text []) e) ->
  found (re_match p text) = false.
Proof.
  intros H. unfold re_match.
  destruct (matches (p_ic p) (p_re p) (MState 0 text [])) as [|e l] eqn:E; [done|].
  exfalso. apply (H e), matches_sound. rewrite E. by left.
Qed.

(** A match somewhere in the text is found by [search]. *)
Lemma search_from_found p rest : forall pos k e,
  k <= length rest ->
  reaches (p_ic p) (p_re p) (MState (pos + k) (drop k rest) []) e ->
  found (search_from p pos rest) = true.
Proof.
  induction rest as [|c rest IH]; intros pos k e Hk H; simpl.
  - assert (k = 0) as -> by (simpl in Hk; lia).
    replace (pos + 0) with pos in H by lia. simpl in H.
    apply matches_complete in H.
    destruct (matches _ _ _); [by apply elem_of_nil in H|done].
  - destruct (matches (p_ic p) (p_re p) (MState pos (c :: rest) [])) eqn:E; [|done].
    destruct k as [|k].
    + replace (pos + 0) with pos in H by lia. simpl in H.
      apply matches_complete in H. rewrite E in H. by apply elem_of_nil in H.
    + apply (IH (S pos) k e); [simpl in Hk; lia|].
      by replace (S pos + k) with (pos + S k) by lia.
Qed.

(** ** Trimming *)

Lemma lstrip_spaces lead s : all_space lead -> lstrip (lead ++ s) = lstrip s.
Proof. induction 1 as [|c lead Hc _ IH]; simpl; [done|]. by rewrite Hc. Qed.

Lemma lstrip_all_space s : all_space s -> lstrip s = [].
Proof. intros H. rewrite <- (app_nil_r s). by rewrite lstrip_spaces. Qed.

Lemma lstrip_head s :
  (forall c, head s = Some c -> is_space c = false) -> lstrip s = s.
Proof. destruct s as [|c s]; simpl; [done|]. intros H. by rewrite (H c). Qed.

Lemma lstrip_decompose s :
  exists lead, s = lead ++ lstrip s /\ all_space lead /\
               (forall c, head (lstrip s) = Some c -> is_space c = false).
Proof.
  induction s as [|c s (lead & E & Hl & Hh)]; simpl.
  - exists []. repeat split; [constructor|done].
  - destruct (is_space c) eqn:Ec.
    + exists (c :: lead). simpl. rewrite <- E. repeat split; [by constructor|done].
    + exists []. repeat split; [constructor|]. simpl. by intros ? [= <-].
Qed.

Lemma all_space_reverse s : all_space s -> all_space (reverse s).
Proof.
  unfold all_space. rewrite !Forall_forall. intros H c Hc. apply H.
  exact (proj1 (elem_of_reverse c s) Hc).
Qed.

Lemma strip_unique lead core trail :
  all_space lead -> all_space trail -> tight core ->
  strip (lead ++ core ++ trail) = core.
Proof.
  intros Hl Ht [Hh Hla]. unfold strip, rstrip. rewrite lstrip_spaces by done.
  destruct core as [|c core].
  - simpl. rewrite (lstrip_all_space trail) by done. reflexivity.
  - rewrite (lstrip_head ((c :: core) ++ trail)) by (simpl; exact Hh).
    rewrite reverse_app, lstrip_spaces by (by apply all_space_reverse).
    rewrite lstrip_head; [apply reverse_involutive|].
    intros c'. rewrite head_reverse. apply Hla.
Qed.

Lemma strip_tight s : tight s -> strip s = s.
Proof.
  intros H. rewrite <- (strip_unique [] s []) at 2; try done; try constructor.
  simpl. by rewrite app_nil_r.
Qed.

Lemma strip_decompose s :
  exists lead trail,
    s = lead ++ strip s ++ trail /\ all_space lead /\ all_space trail /\ tight (strip s).
Proof.
  destruct (lstrip_decompose s) as (lead & E & Hl & Hh).
  destruct (lstrip_decompose (reverse (lstrip s))) as (trail & E' & Ht & Hh').
  assert (lstrip s = strip s ++ reverse trail) as Es.
  { unfold strip, rstrip. rewrite <- reverse_app, <- E'. by rewrite reverse_involutive. }
  exists lead, (reverse trail). repeat split.
  - by rewrite <- Es.
  - done.
  - by apply all_space_reverse.
  - intros c Hc. apply Hh. rewrite Es. by destruct (strip s).
  - intros c. unfold strip, rstrip. rewrite last_reverse. apply Hh'.
Qed.

(** ** Character classes on digits and spaces *)

Ltac all_chars c :=
  destruct c as [[] [] [] [] [] [] [] []]; vm_compute; try done; try congruence.

Lemma digit_not_space c : is_digit c = true -> is_space c = false.
Proof. all_chars c. Qed.

Lemma digit_cls ic c : is_digit c = true -> cls_match ic false [CDigit] c = true.
Proof. intros H. unfold cls_match, item_match. simpl. by rewrite H. Qed.

Lemma all_digits_tight s : all_digits s -> tight s.
Proof.
  unfold all_digits. rewrite Forall_forall. intros H.
  split; intros c Hc; apply digit_not_space, H.
  - by apply head_Some_elem_of.
  - by apply last_Some_elem_of.
Qed.

(** ** Skipped lines *)

Lemma should_skip_iff config line :
  should_skip (HierarchyDetector_init config) line = true <->
  (Z.of_nat (length (strip (text line))) < min_line_length config)%Z \/
  exists r, r ∈ skip_patterns config /\
            found (re_search (Pattern r true) (strip (text line))) = true.
Proof.
  unfold should_skip. simpl.
  destruct (Z.ltb_spec (Z.of_nat (length (strip (text line)))) (min_line_length config))
    as [Hlt|Hge].
  - split; [by left|done].
  - rewrite existsb_exists. split.
    + intros (p & Hin & Hp). right.
      apply list_elem_of_In, list_elem_of_fmap in Hin as (r & -> & Hr). eauto.
    + intros [Hlt|(r & Hr & Hp)]; [lia|].
      exists (Pattern r true). split; [|done].
      apply list_elem_of_In, list_elem_of_fmap. eauto.
Qed.

Lemma page_number_found ds :
  all_digits ds -> 1 <= length ds <= 3 ->
  found (re_search (Pattern (Bol -:- between 1 3 digit -:- Eol) true) ds) = true.
Proof.
  intros Hd Hlen.
  apply (search_from_found _ ds 0 0 (MState (length ds) [] [])); [lia|].
  simpl. apply R_seq with (MState 0 ds []); [by constructor|].
  apply R_seq with (MState (length ds) [] []); [|constructor; by left].
  apply (run_reaches_rep true _ (cls_match true false [CDigit]) true ds);
    [apply eats_cls|].
  unfold run_of. simpl. rewrite app_nil_r. repeat split; try done; try lia.
  - eapply Forall_impl; [exact Hd|]. intros c. apply digit_cls.
  - intros h [= <-]. lia.
Qed.

(** ** Matches do not depend on where the text starts *)

Lemma reaches_transport ic r st st' :
  reaches ic r st st' ->
  no_bol r = true ->
  forall p g, exists g',
    reaches ic r (MState p (m_rest st) g)
                 (MState (p + (m_pos st' - m_pos st)) (m_rest st') g').
Proof.
  induction 1 as [st|q c rest pos g0 Ht|c rest pos g0 Ht|neg items c rest pos g0 Ht
                  |st Hp|st He|r1 r2 st mid st' H1 IH1 H2 IH2
                  |r1 r2 st st' _ IH|r1 r2 st st' _ IH
                  |r hi greedy st|r lo hi greedy st mid st' Hhi H1 IH1 Hlt H2 IH2
                  |n r st st' _ IH]; intros Hb p g; simpl in *.
  - exists g. replace (p + (m_pos st - m_pos st)) with p by lia. constructor.
  - exists g. replace (p + (S pos - pos)) with (S p) by lia. by constructor.
  - exists g. replace (p + (S pos - pos)) with (S p) by lia. by constructor.
  - exists g. replace (p + (S pos - pos)) with (S p) by lia. by constructor.
  - done.
  - exists g. replace (p + (m_pos st - m_pos st)) with p by lia. by constructor.
  - apply andb_true_iff in Hb as [Hb1 Hb2].
    destruct (reaches_consumes _ _ _ _ H1) as (u1 & _ & P1).
    destruct (reaches_consumes _ _ _ _ H2) as (u2 & _ & P2).
    destruct (IH1 Hb1 p g) as [g1 R1].
    destruct (IH2 Hb2 (p + (m_pos mid - m_pos st)) g1) as [g2 R2].
    exists g2. econstructor; [exact R1|].
    by replace (p + (m_pos st' - m_pos st))
      with (p + (m_pos mid - m_pos st) + (m_pos st' - m_pos mid)) by lia.
  - apply andb_true_iff in Hb as [Hb1 Hb2].
    destruct (IH Hb1 p g) as [g' R']. exists g'. by apply R_alt_l.
  - apply andb_true_iff in Hb as [Hb1 Hb2].
    destruct (IH Hb2 p g) as [g' R']. exists g'. by apply R_alt_r.
  - exists g. replace (p + (m_pos st - m_pos st)) with p by lia. constructor.
  - destruct (reaches_consumes _ _ _ _ H2) as (u2 & _ & P2).
    destruct (IH1 Hb p g) as [g1 R1].
    destruct (IH2 Hb (p + (m_pos mid - m_pos st)) g1) as [g2 R2].
    exists g2. eapply R_rep_more; [done|exact R1|simpl; lia|].
    by replace (p + (m_pos st' - m_pos st))
      with (p + (m_pos mid - m_pos st) + (m_pos st' - m_pos mid)) by lia.
  - destruct (IH Hb p g) as [g' R'].
    eexists. apply (R_grp ic n r _ _ R').
Qed.

(** ** Single-character facts *)

Lemma cls_tilde c : cls_match false false [CChar "~"] c = true -> c = "~"%char.
Proof. all_chars c. Qed.

Lemma cls_asterisk c : cls_match false false [CChar "*"] c = true -> c = "*"%char.
Proof. all_chars c. Qed.

Lemma cls_digit c : cls_match false false [CDigit] c = true <-> is_digit c = true.
Proof. unfold cls_match, item_match. simpl. by rewrite !orb_false_r. Qed.

Lemma cls_space c : cls_match false false [CSpace] c = true <-> is_space c = true.
Proof. unfold cls_match, item_match. simpl. by rewrite !orb_false_r. Qed.

Lemma chr_dot c : chr_match false "." c = true -> c = "."%char.
Proof. all_chars c. Qed.

(** ** Splitting a text in two ways *)

Lemma space_prefix (u w r x : str) :
  all_space u -> u ++ x = w ++ r ->
  (forall c, head r = Some c -> is_space c = false) -> r <> [] ->
  exists w2, w = u ++ w2 /\ x = w2 ++ r.
Proof.
  intros Hu. revert w. induction Hu as [|c u Hc _ IH]; intros w E Hr Hne; simpl in *.
  - by exists w.
  - destruct w as [|c' w]; simpl in *.
    + destruct r as [|c' r]; [done|]. injection E as <- _.
      rewrite (Hr c) in Hc by done. done.
    + injection E as <- E. destruct (IH w E Hr Hne) as (w2 & -> & ->). by exists w2.
Qed.

Lemma suffix_cases (v x w r : str) :
  v ++ x = w ++ r ->
  (exists r1, r = r1 ++ x) \/ (exists c w3, x = c :: w3 ++ r /\ c ∈ w).
Proof.
  revert v. induction w as [|c w IH]; intros v E; simpl in *.
  - left. by exists v.
  - destruct v as [|c' v]; simpl in *.
    + right. exists c, w. split; [done|by left].
    + injection E as <- E. destruct (IH v E) as [?|(c0 & w3 & -> & Hin)]; [by left|].
      right. exists c0, w3. split; [done|by right].
Qed.

(** ** The three tariff-code patterns on a code line *)

Ltac inv_seq H mid H1 H2 :=
  inversion H as [| | | | | |? ? ? mid ? H1 H2| | | | |]; subst; clear H.

Lemma four_digits_plain s s' :
  reaches false (exactly 4 digit) s s' ->
  exists u, m_rest s = u ++ m_rest s' /\ length u = 4 /\ all_digits u.
Proof.
  intros H. apply (reaches_rep_run _ _ _ _ _ _ _ _ (eats_cls _ _ _)) in H
    as (u & E & Hu & Hlo & Hhi & _).
  exists u. split; [done|]. split; [specialize (Hhi 4 eq_refl); lia|].
  eapply Forall_impl; [exact Hu|]. intros c. apply cls_digit.
Qed.

Lemma four_digits_group n s s' :
  reaches false (Grp n (exactly 4 digit)) s s' ->
  exists u, m_rest s = u ++ m_rest s' /\ length u = 4 /\ all_digits u.
Proof.
  inversion 1 as [| | | | | | | | | | |? ? ? s0 H0]; subst.
  by apply four_digits_plain in H0.
Qed.

(** The head shared by the three patterns takes the tilde, the digits and
    the asterisk of the line, or stops before the asterisk. *)
Lemma code_head_inv X K pre d ast rest0 e :
  (forall s s', reaches false X s s' ->
     exists u, m_rest s = u ++ m_rest s' /\ length u = 4 /\ all_digits u) ->
  (pre = [] \/ pre = lit "~") -> length d = 4 -> all_digits d ->
  (ast = [] \/ ast = lit "*") ->
  (exists w rest1, rest0 = w :: rest1 /\ is_space w = true) ->
  reaches false (Bol -:- opt (Cls false [CChar "~"]) -:- X
                     -:- opt (Cls false [CChar "*"]) -:- K)
          (MState 0 (pre ++ d ++ ast ++ rest0) []) e ->
  exists s, reaches false K s e /\
            (m_rest s = rest0 \/ (ast = lit "*" /\ m_rest s = "*"%char :: rest0)).
Proof.
  intros HX Hpre Hlen Hd Hast (w & rest1 & -> & Hw) H.
  inv_seq H m1 Hbol Ha. inversion Hbol; subst; clear Hbol.
  inv_seq Ha m2 Hopt Hb. inv_seq Hb m3 Hx Hc. inv_seq Hc m4 Hopt' Hk.
  exists m4. split; [done|].
  apply (reaches_rep_run _ _ _ _ _ _ _ _ (eats_cls _ _ _)) in Hopt
    as (u2 & E2 & F2 & _ & Hhi2 & _).
  apply HX in Hx as (u3 & E3 & L3 & D3).
  apply (reaches_rep_run _ _ _ _ _ _ _ _ (eats_cls _ _ _)) in Hopt'
    as (u4 & E4 & F4 & _ & Hhi4 & _).
  simpl in E2. rewrite E3, E4 in E2. clear E3 E4.
  specialize (Hhi2 1 eq_refl). specialize (Hhi4 1 eq_refl).
  destruct d as [|d1 [|d2 [|d3 [|d4 [|]]]]]; try discriminate.
  destruct u3 as [|c1 [|c2 [|c3 [|c4 [|]]]]]; try discriminate.
  assert (is_digit d1 = true) as Hd1 by (by inversion Hd).
  assert (is_digit c1 = true) as Hc1 by (by inversion D3).
  assert (is_digit "~" = false) as Ht by done.
  assert (is_space "*" = false) as Hs by done.
  destruct u2 as [|t [|? ?]]; [| |simpl in Hhi2; lia];
    destruct u4 as [|a [|? ?]]; try (simpl in Hhi4; lia);
    repeat match goal with
           | F : Forall _ [_] |- _ => inversion F as [|? ? ?%cls_tilde _]; subst; clear F
           end;
    repeat match goal with
           | F : Forall _ [_] |- _ => inversion F as [|? ? ?%cls_asterisk _]; subst; clear F
           end;
    destruct Hpre as [-> | ->], Hast as [-> | ->]; simpl in E2;
    simplify_eq; try congruence; auto.
Qed.

Lemma reaches_rep_prefix ic r test greedy lo hi u rest pos g :
  eats ic r test ->
  Forall (fun c => test c = true) u ->
  lo <= length u -> (forall h, hi = Some h -> length u <= h) ->
  reaches ic (Rep r lo hi greedy) (MState pos (u ++ rest) g)
             (MState (pos + length u) rest g).
Proof.
  intros Heats Hu Hlo Hhi. apply (run_reaches_rep ic r test greedy u); [done|].
  by unfold run_of.
Qed.

(** The fee leader with and without its group. *)
Lemma fee_leader_group s e :
  reaches false (at_least 3 (Chr ".") -:- star space
                 -:- plus (Cls false [CDigit; CChar ","]) -:- Chr "." -:- exactly 2 digit)
          s e ->
  (exists rest, m_rest s = "."%char :: rest) /\
  exists e', reaches false default_fee_pattern s e'.
Proof.
  intros H. inv_seq H a Hdots Hb. inv_seq Hb b Hsp Hx. split.
  - apply (reaches_rep_run _ _ _ _ _ _ _ _ (eats_chr _ _)) in Hdots
      as (u & E & Hu & Hlo & _).
    destruct u as [|c u]; [simpl in Hlo; lia|].
    inversion Hu as [|? ? ->%chr_dot _]; subst. rewrite E. by eexists.
  - eexists. unfold default_fee_pattern.
    eapply R_seq; [exact Hdots|]. eapply R_seq; [exact Hsp|].
    apply R_grp. exact Hx.
Qed.

Section code_line.

Variables (pre d ast W R : str).
Hypothesis Hpre : pre = [] \/ pre = lit "~".
Hypothesis Hlen : length d = 4.
Hypothesis Hd : all_digits d.
Hypothesis Hast : ast = [] \/ ast = lit "*".
Hypothesis HW : W <> [].
Hypothesis HWs : all_space W.
Hypothesis HR : R <> [].
Hypothesis HRt : tight R.

Lemma spaces_first : exists w rest1, W ++ R = w :: rest1 /\ is_space w = true.
Proof using HW HWs.
  destruct W as [|w W']; [done|]. exists w, (W' ++ R). split; [done|].
  by inversion HWs.
Qed.

Lemma remainder_head c : head R = Some c -> is_space c = false.
Proof using HRt. apply HRt. Qed.

(** A code line with a remainder is not a code alone. *)
Lemma code_alone_no_match :
  found (re_match (Pattern standalone_code_re false) (pre ++ d ++ ast ++ W ++ R)) = false.
Proof using All.
  apply no_reach_re_match. intros e H. simpl in H. unfold standalone_code_re in H.
  apply (code_head_inv (exactly 4 digit)) in H as (s & HK & Hs);
    [|apply four_digits_plain|done..|apply spaces_first].
  inv_seq HK m5 Hsp Heol.
  apply (reaches_rep_run _ _ _ _ _ _ _ _ (eats_cls _ _ _)) in Hsp
    as (u5 & E5 & F5 & _).
  assert (all_space u5) as Hu5.
  { eapply Forall_impl; [exact F5|]. intros c. apply cls_space. }
  assert (m_rest m5 = [] \/ m_rest m5 = [line_feed]) as Hend by (by inversion Heol).
  destruct Hs as [Hs|[_ Hs]]; rewrite Hs in E5.
  - symmetry in E5. apply space_prefix in E5 as (w2 & _ & E);
      [|done|apply remainder_head|done].
    destruct Hend as [Hend|Hend]; rewrite Hend in E.
    + by destruct w2, R.
    + destruct w2 as [|c w2]; simpl in E.
      * assert (is_space line_feed = false) as Hlf
          by (apply remainder_head; by rewrite <- E).
        done.
      * injection E as _ E. by destruct w2, R.
  - destruct u5 as [|c u5]; simpl in E5.
    + destruct Hend as [Hend|Hend]; rewrite Hend in E5; discriminate.
    + injection E5 as <- _. by inversion Hu5.
Qed.

(** Without a fee leader in the remainder the fee pattern fails. *)
Lemma code_with_fee_no_match :
  found (re_search (Pattern default_fee_pattern false) R) = false ->
  found (re_match (Pattern default_code_with_fee_pattern false)
           (pre ++ d ++ ast ++ W ++ R)) = false.
Proof using All.
  intros Hfee. apply no_reach_re_match. intros e H. simpl in H.
  unfold default_code_with_fee_pattern in H.
  apply (code_head_inv (Grp 1 (exactly 4 digit))) in H as (s & HK & Hs);
    [|apply four_digits_group|done..|apply spaces_first].
  inv_seq HK m5 Hsp Hk. inv_seq Hk m6 Hlazy Hlead.
  apply (reaches_rep_run _ _ _ _ _ _ _ _ (eats_cls _ _ _)) in Hsp
    as (u5 & E5 & F5 & Hlo5 & _).
  destruct (reaches_consumes _ _ _ _ Hlazy) as (u6 & E6 & _).
  apply fee_leader_group in Hlead as [[rest Edot] [e' He']].
  destruct Hs as [Hs|[_ Hs]]; rewrite Hs in E5.
  - rewrite E6, app_assoc in E5. symmetry in E5.
    apply suffix_cases in E5 as [[r1 Er]|(c & w3 & Ec & Hc)].
    + destruct (reaches_transport _ _ _ _ He' eq_refl (length r1) []) as [g' He''].
      assert (found (re_search (Pattern default_fee_pattern false) R) = true) as Hyes.
      { eapply (search_from_found _ R 0 (length r1)).
        - rewrite Er, length_app. lia.
        - simpl. rewrite Er at 1. rewrite drop_app_length. exact He''. }
      congruence.
    + rewrite Edot in Ec. injection Ec as <- _.
      pose proof (proj1 (Forall_forall _ _) HWs _ Hc) as Hsp. done.
  - destruct u5 as [|c u5]; [simpl in Hlo5; lia|].
    simpl in E5. injection E5 as <- _.
    inversion F5 as [|? ? Hc%cls_space _]. done.
Qed.

(** The description pattern matches, and its second group is the
    remainder, after spaces at most. *)
Lemma code_description_match :
  Forall (fun c => c <> line_feed) R ->
  exists m W2,
    re_match (Pattern code_description_re false) (pre ++ d ++ ast ++ W ++ R) = Some m /\
    all_space W2 /\ group m 2 = Some (W2 ++ R).
Proof using All.
  intros Hlf.
  assert (exists e, reaches false code_description_re
                      (MState 0 (pre ++ d ++ ast ++ W ++ R) []) e) as [e0 He0].
  { eexists. unfold code_description_re.
    eapply R_seq; [by apply R_bol|].
    eapply R_seq.
    { apply reaches_rep_prefix with (test := cls_match false false [CChar "~"]);
        [apply eats_cls| |lia|].
      - by destruct Hpre as [-> | ->]; repeat constructor.
      - intros h [= <-]. destruct Hpre as [-> | ->]; simpl; lia. }
    eapply R_seq.
    { apply R_grp.
      apply reaches_rep_prefix with (test := cls_match false false [CDigit]);
        [apply eats_cls| |lia|].
      - eapply Forall_impl; [exact Hd|]. intros c. apply cls_digit.
      - intros h [= <-]. lia. }
    eapply R_seq.
    { unfold set_group. simpl.
      apply reaches_rep_prefix with (test := cls_match false false [CChar "*"]);
        [apply eats_cls| |lia|].
      - by destruct Hast as [-> | ->]; repeat constructor.
      - intros h [= <-]. destruct Hast as [-> | ->]; simpl; lia. }
    eapply R_seq.
    { apply reaches_rep_prefix with (test := cls_match false false [CSpace]);
        [apply eats_cls| | |done].
      - eapply Forall_impl; [exact HWs|]. intros c. apply cls_space.
      - destruct W; [done|simpl; lia]. }
    eapply R_seq.
    { apply R_grp. rewrite <- (app_nil_r R) at 1.
      apply reaches_rep_prefix with (test := fun c => negb (Ascii.eqb c "010"));
        [apply eats_dot| | |done].
      - eapply Forall_impl; [exact Hlf|]. intros c Hc. simpl in Hc.
        by destruct (Ascii.eqb_spec c "010").
      - destruct R; [done|simpl; lia]. }
    apply R_eol. by left. }
  destruct (re_match (Pattern code_description_re false) (pre ++ d ++ ast ++ W ++ R))
    as [m|] eqn:Em;
    [|by apply (reaches_re_match (Pattern code_description_re false)) in He0;
       rewrite Em in He0].
  apply re_match_reaches in Em as (_ & _ & H). simpl in H.
  unfold code_description_re in H.
  apply (code_head_inv (Grp 1 (exactly 4 digit))) in H as (s & HK & Hs);
    [|apply four_digits_group|done..|apply spaces_first].
  inv_seq HK m5 Hsp Hk. inv_seq Hk m6 Hgrp Heol.
  apply (reaches_rep_run _ _ _ _ _ _ _ _ (eats_cls _ _ _)) in Hsp
    as (u5 & E5 & F5 & Hlo5 & _).
  assert (all_space u5) as Hu5.
  { eapply Forall_impl; [exact F5|]. intros c. apply cls_space. }
  inversion Hgrp as [| | | | | | | | | | |? ? ? m6' Hdots]; subst; clear Hgrp.
  apply (reaches_rep_run _ _ _ _ _ _ _ _ (eats_dot _)) in Hdots
    as (u6 & E6 & _ & _ & _ & P6 & _).
  assert (m_rest m6' = [] \/ m_rest m6' = [line_feed]) as Hend by (by inversion Heol).
  assert (mo_end m = set_group 2 m5 m6') as Eend by (by inversion Heol).
  destruct Hs as [Hs|[_ Hs]]; rewrite Hs in E5.
  - symmetry in E5. apply space_prefix in E5 as (w2 & EW & E);
      [|done|apply remainder_head|done].
    exists m, w2. split; [done|]. split.
    { rewrite EW in HWs. by apply Forall_app in HWs as [_ ?]. }
    assert (u6 = w2 ++ R) as <-.
    { rewrite E6 in E. destruct Hend as [Hend|Hend]; rewrite Hend in E.
      - by rewrite app_nil_r in E.
      - exfalso. destruct HRt as [_ Hlast].
        assert (last (w2 ++ R) = Some line_feed) as Hl
          by (rewrite <- E; apply last_snoc).
        rewrite last_app in Hl. destruct (last R) as [c|] eqn:ER.
        + injection Hl as ->. by specialize (Hlast _ eq_refl).
        + by apply last_None in ER. }
    unfold group. rewrite Eend. unfold set_group. simpl. rewrite P6, E6.
    replace (m_pos m5 + length u6 - m_pos m5) with (length u6) by lia.
    by rewrite take_app_length.
  - destruct u5 as [|c u5]; [simpl in Hlo5; lia|].
    simpl in E5. injection E5 as <- _. by inversion Hu5.
Qed.

End code_line.

Lemma code_line_strip pre d ast ws rem :
  code_prefix pre d ast ws -> strip rem <> [] ->
  exists W, W <> [] /\ all_space W /\
            strip (pre ++ d ++ ast ++ ws ++ rem) = pre ++ d ++ ast ++ W ++ strip rem.
Proof.
  intros (Hpre & Hlen & Hd & Hast & Hws & Hsp) HR.
  destruct (strip_decompose rem) as (lead & trail & Erem & Hl & Ht & Htight).
  exists (ws ++ lead). split; [by destruct ws|]. split; [by apply Forall_app|].
  rewrite Erem at 1.
  replace (pre ++ d ++ ast ++ ws ++ lead ++ strip rem ++ trail)
    with ([] ++ (pre ++ d ++ ast ++ (ws ++ lead) ++ strip rem) ++ trail)
    by (simpl; by rewrite <- !app_assoc).
  apply strip_unique; [constructor|done|]. split.
  - intros c Hc. destruct d as [|d1 d']; [done|].
    assert (is_digit d1 = true) as Hd1 by (by inversion Hd).
    destruct Hpre as [-> | ->]; simpl in Hc; injection Hc as <-; [|done].
    by apply digit_not_space.
  - intros c. rewrite !last_app. destruct (last (strip rem)) as [c'|] eqn:E.
    + intros [= <-]. by apply Htight.
    + by apply last_None in E.
Qed.

(** C7, as the program has it.  Take a line that starts with an optional
    tilde, four digits, an optional asterisk and at least one space, and
    whose remainder, trimmed, is not empty, has no line feed, does not start
    with a dotted leader and a page reference, is not a list of page
    references, and holds no fee leader.  The tariff-code test succeeds on
    it exactly when the trimmed remainder is longer than 10 characters: 10
    are not enough, 11 are. *)
Theorem tariff_code_description_length (pre d ast ws rem : str) :
  code_prefix pre d ast ws ->
  strip rem <> [] ->
  Forall (fun c => c <> line_feed) (strip rem) ->
  found (re_match (Pattern index_leader_re false) (strip rem)) = false ->
  found (re_match (Pattern page_refs_re false) (strip rem)) = false ->
  found (re_search (Pattern default_fee_pattern false) (strip rem)) = false ->
  _is_tariff_code (HierarchyDetector_init default_config) (pre ++ d ++ ast ++ ws ++ rem)
  = (10 <? length (strip rem)).
Proof.
  intros Hprefix HR Hlf Hidx Hrefs Hfee.
  destruct (code_line_strip pre d ast ws rem Hprefix HR) as (W & HW & HWs & Estrip).
  destruct Hprefix as (Hpre & Hlen & Hd & Hast & _ & _).
  destruct (strip_decompose rem) as (_ & _ & _ & _ & _ & Htight).
  unfold _is_tariff_code. cbv zeta. rewrite Estrip.
  change (d_code_with_fee (HierarchyDetector_init default_config))
    with (Pattern default_code_with_fee_pattern false).
  rewrite code_with_fee_no_match, code_alone_no_match by done.
  destruct (code_description_match pre d ast W (strip rem)) as (m & W2 & -> & HW2 & ->);
    try done.
  simpl default.
  replace (strip (W2 ++ strip rem)) with (strip rem).
  - rewrite Hidx, Hrefs. by destruct (10 <? length (strip rem)).
  - symmetry. rewrite <- (app_nil_r (strip rem)) at 1.
    apply strip_unique; [done|constructor|done].
Qed.

(** Ten characters and eleven after the code 8540. *)
Lemma tariff_code_description_length_witness :
  _is_tariff_code (HierarchyDetector_init default_config) (lit "8540 abcdefghij") = false /\
  _is_tariff_code (HierarchyDetector_init default_config) (lit "8540 abcdefghijk") = true.
Proof.
  split.
  - apply (tariff_code_description_length [] (lit "8540") [] (lit " ") (lit "abcdefghij"));
      try reflexivity; try discriminate.
    + repeat split; try (by left); try discriminate; repeat constructor.
    + repeat constructor; discriminate.
  - apply (tariff_code_description_length [] (lit "8540") [] (lit " ") (lit "abcdefghijk"));
      try reflexivity; try discriminate.
    + repeat split; try (by left); try discriminate; repeat constructor.
    + repeat constructor; discriminate.
Defined.

(** C7, as stated, fails in three ways.  A blank remainder: [8540] and a
    space is a code alone, so the test succeeds with nothing left of the
    remainder.  A leader and a page reference followed by other text: the
    remainder is not an index-only continuation, is longer than 10
    characters, and the test fails, because the program looks for the
    leader and the reference at the start of the remainder only.  A line
    feed inside the remainder: the test fails whatever the length, since
    [.] stops at the line feed. *)
Lemma tariff_code_length_rule_fails :
  let self := HierarchyDetector_init default_config in
  let no_fee rem :=
    found (re_search (Pattern default_fee_pattern false) (strip rem)) = false in
  (code_prefix [] (lit "8540") [] (lit " ") /\
   index_only_as_specified (strip []) = false /\ no_fee [] /\
   _is_tariff_code self ([] ++ lit "8540" ++ [] ++ lit " " ++ []) = true /\
   (10 <? length (strip [])) = false) /\
  (let rem := lit "... C-19 see also this" in
   index_only_as_specified (strip rem) = false /\ no_fee rem /\
   _is_tariff_code self ([] ++ lit "8540" ++ [] ++ lit " " ++ rem) = false /\
   (10 <? length (strip rem)) = true) /\
  (let rem := lit "abcdefghijk" ++ [line_feed] ++ lit "l" in
   index_only_as_specified (strip rem) = false /\ no_fee rem /\
   _is_tariff_code self ([] ++ lit "8540" ++ [] ++ lit " " ++ rem) = false /\
   (10 <? length (strip rem)) = true).
Proof.
  intros self no_fee. unfold no_fee.
  split; [|split].
  - repeat split; try reflexivity; try (by left); try discriminate; repeat constructor.
  - repeat split; reflexivity.
  - repeat split; reflexivity.
Qed.

(** ** The content-start patterns of the built-in configuration

    The gate of [mark_text] searches the text of the line as it is.  For
    the two built-in patterns, which have no anchor and begin and end with a
    letter, the search has the same outcome on the trimmed text. *)

Lemma consumed_spec ic r st st' :
  reaches ic r st st' ->
  m_rest st = consumed st st' ++ m_rest st' /\
  m_pos st' = m_pos st + length (consumed st st').
Proof.
  intros (u & E & P)%reaches_consumes. unfold consumed.
  replace (m_pos st' - m_pos st) with (length u) by lia.
  rewrite E, take_app_length. split; [done|lia].
Qed.

Lemma consumed_seq ic r1 r2 st mid st' :
  reaches ic r1 st mid -> reaches ic r2 mid st' ->
  consumed st st' = consumed st mid ++ consumed mid st'.
Proof.
  intros [E1 P1]%consumed_spec [E2 P2]%consumed_spec.
  unfold consumed at 1.
  replace (m_pos st' - m_pos st)
    with (length (consumed st mid ++ consumed mid st')) by (rewrite length_app; lia).
  rewrite E1, E2, app_assoc. apply take_app_length.
Qed.

Lemma reaches_frame ic r st st' :
  reaches ic r st st' ->
  no_anchor r = true ->
  forall p rest g, exists g',
    reaches ic r (MState p (consumed st st' ++ rest) g)
                 (MState (p + length (consumed st st')) rest g').
Proof.
  induction 1 as [st|q c rest0 pos g0 Ht|c rest0 pos g0 Ht|neg items c rest0 pos g0 Ht
                  |st Hp|st He|r1 r2 st mid st' H1 IH1 H2 IH2
                  |r1 r2 st st' _ IH|r1 r2 st st' _ IH
                  |r hi greedy st|r lo hi greedy st mid st' Hhi H1 IH1 Hlt H2 IH2
                  |n r st st' H IH]; intros Hb p rest g.
  - exists g. unfold consumed. rewrite Nat.sub_diag. simpl.
    replace (p + 0) with p by lia. constructor.
  - exists g. unfold consumed. simpl. replace (S pos - pos) with 1 by lia. simpl.
    replace (p + 1) with (S p) by lia. by constructor.
  - exists g. unfold consumed. simpl. replace (S pos - pos) with 1 by lia. simpl.
    replace (p + 1) with (S p) by lia. by constructor.
  - exists g. unfold consumed. simpl. replace (S pos - pos) with 1 by lia. simpl.
    replace (p + 1) with (S p) by lia. by constructor.
  - done.
  - done.
  - simpl in Hb. apply andb_true_iff in Hb as [Hb1 Hb2].
    rewrite (consumed_seq _ _ _ _ _ _ H1 H2), length_app, <- app_assoc.
    destruct (IH1 Hb1 p (consumed mid st' ++ rest) g) as [g1 R1].
    destruct (IH2 Hb2 (p + length (consumed st mid)) rest g1) as [g2 R2].
    exists g2. rewrite Nat.add_assoc. by econstructor.
  - simpl in Hb. apply andb_true_iff in Hb as [Hb1 Hb2].
    destruct (IH Hb1 p rest g) as [g' R']. exists g'. by apply R_alt_l.
  - simpl in Hb. apply andb_true_iff in Hb as [Hb1 Hb2].
    destruct (IH Hb2 p rest g) as [g' R']. exists g'. by apply R_alt_r.
  - exists g. unfold consumed. rewrite Nat.sub_diag. simpl.
    replace (p + 0) with p by lia. constructor.
  - simpl in Hb.
    destruct (consumed_spec _ _ _ _ H1) as [_ P1].
    rewrite (consumed_seq _ _ _ _ _ _ H1 H2), length_app, <- app_assoc.
    destruct (IH1 Hb p (consumed mid st' ++ rest) g) as [g1 R1].
    destruct (IH2 Hb (p + length (consumed st mid)) rest g1) as [g2 R2].
    exists g2. rewrite Nat.add_assoc.
    eapply R_rep_more; [done|exact R1|simpl; lia|exact R2].
  - simpl in Hb. destruct (IH Hb p rest g) as [g' R'].
    eexists. apply (R_grp ic n r _ _ R').
Qed.

Lemma search_from_sound p rest : forall pos,
  found (search_from p pos rest) = true ->
  exists k e, k <= length rest /\
              reaches (p_ic p) (p_re p) (MState (pos + k) (drop k rest) []) e.
Proof.
  induction rest as [|c rest IH]; intros pos H; simpl in H.
  - destruct (matches (p_ic p) (p_re p) (MState pos [] [])) as [|e l] eqn:E; [done|].
    exists 0, e. split; [done|]. replace (pos + 0) with pos by lia.
    apply matches_sound. simpl. rewrite E. by left.
  - destruct (matches (p_ic p) (p_re p) (MState pos (c :: rest) [])) as [|e l] eqn:E.
    + destruct (IH _ H) as (k & e & Hk & He). exists (S k), e. split; [simpl; lia|].
      by replace (pos + S k) with (S pos + k) by lia.
    + exists 0, e. split; [simpl; lia|]. replace (pos + 0) with pos by lia.
      apply matches_sound. simpl. rewrite E. by left.
Qed.

(** A pattern without anchors whose matches begin and end with something
    else than a space is found in a text exactly when it is found in the
    trimmed text. *)
Lemma search_strip p text :
  no_anchor (p_re p) = true ->
  (forall st st', reaches (p_ic p) (p_re p) st st' -> tight (consumed st st') /\
                                                      consumed st st' <> []) ->
  found (re_search p (strip text)) = found (re_search p text).
Proof.
  intros Hna Htight.
  destruct (strip_decompose text) as (lead & trail & Etext & Hl & Ht & _).
  set (core := strip text) in *.
  apply eq_true_iff_eq. unfold re_search. split.
  - intros (k & e & Hk & He)%search_from_sound. simpl in He.
    destruct (consumed_spec _ _ _ _ He) as [E _]. simpl in E.
    destruct (reaches_frame _ _ _ _ He Hna (length lead + k) (m_rest e ++ trail) [])
      as [g' Hf].
    eapply (search_from_found p text 0 (length lead + k)).
    + rewrite Etext, !length_app. lia.
    + simpl. replace (drop (length lead + k) text)
        with (consumed (MState k (drop k core) []) e ++ m_rest e ++ trail); [exact Hf|].
      rewrite Etext, drop_app_add', drop_app_le by (done || lia).
      rewrite app_assoc. f_equal. exact (eq_sym E).
  - intros (k & e & Hk & He)%search_from_sound. simpl in He.
    destruct (consumed_spec _ _ _ _ He) as [E _]. simpl in E.
    destruct (Htight _ _ He) as [[Hh Hla] Hne].
    set (u := consumed (MState k (drop k text) []) e) in *.
    assert (text = take k text ++ u ++ m_rest e) as Esplit
      by (by rewrite <- E, take_drop).
    assert (exists c1, take k text = lead ++ c1 /\ core ++ trail = c1 ++ u ++ m_rest e)
      as (c1 & Ec1 & Ecore).
    { apply (space_prefix lead _ _ _ Hl).
      - by rewrite <- Etext.
      - intros c Hc. apply Hh. by destruct u.
      - by destruct u. }
    assert (exists c2, m_rest e = c2 ++ trail /\ core = c1 ++ u ++ c2) as (c2 & Ec2 & Ecore').
    { assert (reverse trail ++ reverse core
              = reverse (m_rest e) ++ reverse (c1 ++ u)) as Hrev.
      { rewrite <- !reverse_app, <- app_assoc. by rewrite Ecore. }
      apply space_prefix in Hrev as (w & Ew & Ex).
      - exists (reverse w). split.
        + apply (f_equal reverse) in Ew.
          by rewrite reverse_involutive, reverse_app, reverse_involutive in Ew.
        + apply (f_equal reverse) in Ex.
          by rewrite reverse_involutive, reverse_app, reverse_involutive,
            <- app_assoc in Ex.
      - by apply all_space_reverse.
      - intros c. rewrite head_reverse, last_app.
        destruct (last u) as [z|] eqn:Eu; [intros [= <-]; by apply Hla|].
        by apply last_None in Eu.
      - intros Hr%(f_equal reverse). rewrite reverse_involutive in Hr.
        by destruct c1, u. }
    destruct (reaches_frame _ _ _ _ He Hna (length c1) c2 []) as [g' Hf].
    eapply (search_from_found p core 0 (length c1)).
    + rewrite Ecore', length_app. lia.
    + simpl. by rewrite Ecore', drop_app_length.
Qed.

Lemma reaches_literal l : forall st st',
  reaches false (foldr (fun c r => Seq (Chr c) r) Eps l) st st' ->
  consumed st st' = l.
Proof.
  induction l as [|c l IH]; intros st st' H; simpl in H.
  - inversion H; subst. unfold consumed. by rewrite Nat.sub_diag.
  - inv_seq H mid Hc Hl. rewrite (consumed_seq _ _ _ _ _ _ Hc Hl), (IH _ _ Hl).
    inversion Hc as [|? c' ? ? ? Ht| | | | | | | | | |]; subst.
    unfold consumed. simpl. replace (S pos - pos) with 1 by lia. simpl.
    simpl in Ht. by apply Ascii.eqb_eq in Ht as ->.
Qed.

Lemma literal_tight s :
  lit s <> [] ->
  (forall c, head (lit s) = Some c -> is_space c = false) ->
  (forall c, last (lit s) = Some c -> is_space c = false) ->
  forall st st', reaches false (Str s) st st' ->
                 tight (consumed st st') /\ consumed st st' <> [].
Proof.
  intros Hne Hh Hl st st' H. unfold Str in H.
  by rewrite (reaches_literal _ _ _ H).
Qed.

Lemma rules_of_application_tight st st' :
  reaches false (Str "RULES" -:- plus space -:- Str "OF" -:- plus space
                 -:- Str "APPLICATION") st st' ->
  tight (consumed st st') /\ consumed st st' <> [].
Proof.
  intros H. inv_seq H m1 H1 Ha. inv_seq Ha m2 H2 Hb. inv_seq Hb m3 H3 Hc.
  inv_seq Hc m4 H4 H5.
  pose proof (R_seq _ _ _ _ _ _ H4 H5) as H45.
  pose proof (R_seq _ _ _ _ _ _ H3 H45) as H345.
  pose proof (R_seq _ _ _ _ _ _ H2 H345) as H2345.
  rewrite (consumed_seq _ _ _ _ _ _ H1 H2345), (consumed_seq _ _ _ _ _ _ H2 H345),
    (consumed_seq _ _ _ _ _ _ H3 H45), (consumed_seq _ _ _ _ _ _ H4 H5).
  unfold Str in H1, H5.
  rewrite (reaches_literal _ _ _ H1), (reaches_literal _ _ _ H5).
  split; [split|done].
  - by intros c [= <-].
  - intros c. rewrite !last_app. simpl. by intros [= <-].
Qed.

(** Under the built-in configuration the gate answers the same on a text
    and on the trimmed text. *)
Lemma content_start_default_trimmed text :
  starts_content (compile_content_start default_config) (strip text)
  = starts_content (compile_content_start default_config) text.
Proof.
  unfold starts_content. simpl.
  rewrite !search_strip; try done.
  - apply literal_tight; [done|..];
      intros c Hc; vm_compute in Hc; by injection Hc as <-.
  - apply rules_of_application_tight.
Qed.

(** ** Page numbers under any configuration *)

Lemma reaches_first ic r st st' :
  reaches ic r st st' ->
  (m_pos st' = m_pos st /\ nullable r = true) \/
  (exists c rest, m_rest st = c :: rest /\ first ic r c = true /\ m_pos st < m_pos st').
Proof.
  induction 1 as [st|q c rest pos g Ht|c rest pos g Ht|neg items c rest pos g Ht
                  |st Hp|st He|r1 r2 st mid st' H1 IH1 H2 IH2
                  |r1 r2 st st' _ IH|r1 r2 st st' _ IH
                  |r hi greedy st|r lo hi greedy st mid st' Hhi H1 IH1 Hlt H2 IH2
                  |n r st st' _ IH]; simpl.
  - by left.
  - right. exists c, rest. repeat split; [done|lia].
  - right. exists c, rest. repeat split; [done|lia].
  - right. exists c, rest. repeat split; [done|lia].
  - by left.
  - by left.
  - destruct (consumed_spec _ _ _ _ H1) as [E1 P1].
    destruct (consumed_spec _ _ _ _ H2) as [E2 P2].
    destruct IH1 as [[Q1 N1]|(c & rest & Ec & F1 & L1)].
    + destruct IH2 as [[Q2 N2]|(c & rest & Ec & F2 & L2)].
      * left. rewrite N1, N2. split; [lia|done].
      * right. exists c, rest. rewrite N1, F2, orb_true_r. repeat split; [|lia].
        rewrite E1. unfold consumed. by rewrite Q1, Nat.sub_diag.
    + right. exists c, rest. rewrite F1. repeat split; [done|lia].
  - destruct IH as [[Q N]|(c & rest & Ec & F & L)].
    + left. by rewrite N.
    + right. exists c, rest. by rewrite F.
  - destruct IH as [[Q N]|(c & rest & Ec & F & L)].
    + left. by rewrite N, orb_true_r.
    + right. exists c, rest. by rewrite F, orb_true_r.
  - by left.
  - destruct (consumed_spec _ _ _ _ H2) as [_ P2].
    destruct IH1 as [[Q1 _]|(c & rest & Ec & F1 & _)]; [lia|].
    right. exists c, rest. repeat split; [done..|lia].
  - done.
Qed.

Lemma cannot_begin_search ic c r text :
  cannot_begin ic c r = true -> head text = Some c ->
  found (re_search (Pattern r ic) text) = false.
Proof.
  intros Hr Hc. destruct (found (re_search (Pattern r ic) text)) eqn:Hf; [|done].
  exfalso. apply search_from_sound in Hf as (k & e & _ & He). simpl in He.
  destruct r as [| | | | | |r1 r2| | |]; try done. destruct r1; try done.
  simpl in Hr. apply andb_true_iff in Hr as [Hn Hfirst].
  inv_seq He m Hbol Hr'. inversion Hbol as [| | | |? Hp| | | | | | |]; subst.
  simpl in Hp. subst k. simpl in Hr'.
  apply reaches_first in Hr' as [[_ N]|(c' & rest & Ec & F & _)].
  - by rewrite N in Hn.
  - simpl in Ec. rewrite drop_0 in Ec. rewrite Ec in Hc. injection Hc as ->.
    by rewrite F in Hfirst.
Qed.

Lemma cannot_begin_any ic c rs text :
  forallb (cannot_begin ic c) rs = true -> head text = Some c ->
  existsb (fun pattern => found (re_search (Pattern pattern ic) text)) rs = false.
Proof.
  intros Hall Hc. induction rs as [|r rs IH]; simpl in *; [done|].
  apply andb_true_iff in Hall as [Hr Hrs].
  by rewrite (cannot_begin_search _ _ _ _ Hr Hc), IH.
Qed.

(** No heading pattern of the program begins with a digit. *)
Lemma digit_begins_no_heading c :
  is_digit c = true ->
  cannot_begin false c specialty_heading_re = true /\
  forallb (cannot_begin true c) major_sections = true /\
  forallb (cannot_begin true c) l2_specific = true /\
  forallb (cannot_begin true c) l3_specific = true /\
  is_upper_char c = false.
Proof. all_chars c. Qed.

Lemma digits_not_upper ds : all_digits ds -> isupper ds = false.
Proof.
  intros H. unfold isupper.
  assert (existsb is_upper_char ds = false) as ->; [|done].
  induction H as [|c ds Hc _ IH]; simpl; [done|].
  by rewrite (proj2 (proj2 (proj2 (proj2 (digit_begins_no_heading c Hc))))).
Qed.

Lemma digits_one_word ds : all_digits ds -> ds <> [] -> length (split ds) = 1.
Proof.
  intros H Hne. unfold split.
  assert (forall cur, length (split_ws cur ds) = match cur ++ ds with [] => 0 | _ => 1 end)
    as Hgen.
  { clear Hne. induction H as [|c ds Hc _ IH]; intros cur; simpl.
    - rewrite app_nil_r. by destruct cur.
    - rewrite (digit_not_space c Hc), IH. by destruct cur. }
  rewrite Hgen. by destruct ds.
Qed.

Lemma page_number_no_level self line :
  all_digits (text line) -> text line <> [] ->
  _matches_l1 self line = false /\ _matches_l2 self line = false /\
  _matches_l3 self line = false.
Proof.
  intros Hd Hne.
  assert (strip (text line) = text line) as Es
    by (by apply strip_tight, all_digits_tight).
  destruct (text line) as [|c ds] eqn:Et; [done|].
  assert (is_digit c = true) as Hc by (by inversion Hd).
  destruct (digit_begins_no_heading c Hc) as (Hs & H1 & H2 & H3 & _).
  unfold _matches_l1, _matches_l2, _matches_l3. rewrite Et, Es.
  rewrite (cannot_begin_search _ _ _ (c :: ds) Hs eq_refl).
  rewrite (cannot_begin_any _ _ _ (c :: ds) H1 eq_refl).
  rewrite (cannot_begin_any _ _ _ (c :: ds) H2 eq_refl).
  rewrite (cannot_begin_any _ _ _ (c :: ds) H3 eq_refl).
  rewrite (digits_not_upper (c :: ds) Hd), (digits_one_word (c :: ds) Hd) by done.
  simpl. rewrite !andb_false_r.
  repeat split; repeat match goal with |- context [if ?b then _ else _] => destruct b end;
    done.
Qed.

Lemma code_needs_four_digits K text e :
  reaches false (Bol -:- opt (Grp 1 (Chr "~")) -:- Grp 2 (exactly 4 digit) -:- K)
          (MState 0 text []) e ->
  4 <= length text.
Proof.
  intros H. inv_seq H m1 Hbol Ha. inv_seq Ha m2 Hopt Hb. inv_seq Hb m3 Hd Hk.
  inversion Hbol; subst.
  destruct (reaches_consumes _ _ _ _ Hopt) as (u1 & E1 & _).
  apply four_digits_group in Hd as (u & E & Hlen & _).
  simpl in E1. rewrite E1, E, !length_app. lia.
Qed.

Lemma page_number_no_code_info self ds :
  length ds <= 3 -> all_digits ds -> extract_code_info self ds = None.
Proof.
  intros Hlen Hd. unfold extract_code_info.
  rewrite strip_tight by (by apply all_digits_tight).
  assert (forall r, (forall e, reaches false r (MState 0 ds []) e -> 4 <= length ds) ->
                    re_match (Pattern r false) ds = None) as Hnone.
  { intros r Hr.
    pose proof (no_reach_re_match (Pattern r false) ds) as Hf.
    destruct (re_match (Pattern r false) ds); [|done].
    discriminate Hf. intros e He%Hr. lia. }
  rewrite !Hnone; [done|..]; intros e; apply code_needs_four_digits.
Qed.

(** Whatever the configuration, an active pass hands a line of one to three
    digits on alone and leaves the hierarchy as it is. *)
Lemma page_number_passes config line prev st :
  let self := TextMarker_init config in
  content_started st = true ->
  1 <= length (text line) <= 3 ->
  all_digits (text line) ->
  mark_line self (compile_content_start config) prev line st = append (text line) st.
Proof.
  intros self Hst Hlen Hd. unfold mark_line. rewrite Hst. simpl.
  destruct (should_skip _ line); [done|].
  destruct (page_number_no_level (HierarchyDetector_init config) line Hd)
    as (H1 & H2 & H3); [by destruct (text line); simpl in Hlen; [lia|]|].
  unfold detect_level. rewrite H1, H2, H3.
  destruct (_is_tariff_code _ _); [|done].
  rewrite page_number_no_code_info; [done|lia|done].
Qed.

(** ** Skipped lines, in full *)

(** C6.  [should_skip] is true exactly when the trimmed text is shorter
    than the configured minimum or one of the skip patterns is found in it;
    it is a function of the detector and the line and changes nothing.
    Under the built-in configuration a line of one to three digits is
    skipped.  Such a line is handed on alone by an active pass, with no
    marker, and the hierarchy is left as it is, whatever came before and
    whatever the configuration. *)
Theorem should_skip_page_numbers :
  (forall config line,
     should_skip (HierarchyDetector_init config) line = true <->
     (Z.of_nat (length (strip (text line))) < min_line_length config)%Z \/
     exists r, r ∈ skip_patterns config /\
               found (re_search (Pattern r true) (strip (text line))) = true) /\
  (forall line,
     1 <= length (text line) <= 3 ->
     all_digits (text line) ->
     should_skip (HierarchyDetector_init default_config) line = true) /\
  (forall config line prev st,
     content_started st = true ->
     1 <= length (text line) <= 3 ->
     all_digits (text line) ->
     mark_line (TextMarker_init config) (compile_content_start config) prev line st
     = append (text line) st).
Proof.
  split; [apply should_skip_iff|]. split.
  - intros line Hlen Hd. apply should_skip_iff. right.
    exists (Bol -:- between 1 3 digit -:- Eol). split.
    + apply list_elem_of_In. simpl. tauto.
    + rewrite strip_tight by (by apply all_digits_tight).
      by apply page_number_found.
  - intros config line prev st. apply page_number_passes.
Qed.

(** The page number 12 in an active pass. *)
Lemma should_skip_page_numbers_witness :
  let self := TextMarker_init default_config in
  let st := mark_run self [line_of (lit "RULES OF APPLICATION"); line_of (lit "ANESTHESIA")] in
  should_skip (tm_detector self) (line_of (lit "12")) = true /\
  mark_line self (compile_content_start default_config) None (line_of (lit "12")) st
  = append (lit "12") st.
Proof.
  intros self st.
  destruct should_skip_page_numbers as (_ & Hskip & Hpass). split.
  - apply Hskip; [simpl; lia|repeat constructor].
  - apply (Hpass default_config (line_of (lit "12")) None st);
      [reflexivity|simpl; lia|repeat constructor].
Defined.

(** ** The gate, in full *)

(** C3, as the program has it: the gate looks at the text of the line as
    it is, not trimmed.  Up to the first line in whose text a content-start
    pattern is found the lines are passed on alone and the hierarchy is
    untouched; that line is preceded by the L1 marker of the value
    RULESOFAPPLICATION and passed on unchanged; from there on the pass is
    active and stays so.  When no line has a match, all lines are passed on
    alone.  For the two patterns of the built-in configuration a match in
    the text and a match in the trimmed text come to the same. *)
Theorem content_start_gate (config : MarkerConfig) (pre post : list TextLine)
    (t : TextLine) :
  let self := TextMarker_init config in
  let cs := compile_content_start config in
  Forall (fun l => starts_content cs (text l) = false) pre ->
  (mark_run self pre
   = {| content_started := false; current_hierarchy := initial_hierarchy;
        output := text <$> pre |}) /\
  (starts_content cs (text t) = true ->
   mark_run self (pre ++ t :: post)
   = mark_loop self cs (Some t) post
       {| content_started := true; current_hierarchy := initial_hierarchy;
          output := (text <$> pre)
                    ++ [_format_marker self L1 (lit "RULESOFAPPLICATION"); text t] |}) /\
  (_format_marker self L1 (lit "RULESOFAPPLICATION")
   = format (marker_format config)
       (fun f => match f with
                 | f_type => lit "L1"
                 | f_value => lit "RULESOFAPPLICATION"
                 end)) /\
  (forall prev lines st,
     content_started st = true ->
     content_started (mark_loop self cs prev lines st) = true) /\
  (forall s,
     starts_content (compile_content_start default_config) (strip s)
     = starts_content (compile_content_start default_config) s).
Proof.
  intros self cs Hpre. unfold mark_run.
  change (compile_content_start (tm_config self)) with cs.
  split; [|split; [|split; [|split; [|apply content_start_default_trimmed]]]].
  - by rewrite (mark_loop_preamble self cs pre None initial_state).
  - intros Ht. rewrite mark_loop_app.
    rewrite (mark_loop_preamble self cs pre None initial_state) by done.
    simpl. f_equal. unfold mark_line. simpl. rewrite Ht. unfold append. simpl.
    by rewrite <- app_assoc.
  - reflexivity.
  - intros prev lines st. apply mark_loop_stays_active.
Qed.

(** The gate at work on the built-in configuration. *)
Lemma content_start_gate_witness :
  let self := TextMarker_init default_config in
  let pre := [line_of (lit "Table of Contents"); line_of (lit "ANESTHESIA")] in
  let t := line_of (lit "  RULES OF APPLICATION") in
  let post := [line_of (lit "MATERNITY")] in
  mark_text self (pre ++ t :: post)
  = [lit "Table of Contents"; lit "ANESTHESIA";
     laquo :: lit "L1:RULESOFAPPLICATION" ++ [raquo]; lit "  RULES OF APPLICATION";
     laquo :: lit "L1:MATERNITY" ++ [raquo]; lit "MATERNITY"].
Proof.
  intros self pre t post. unfold mark_text.
  destruct (content_start_gate default_config pre post t) as (_ & H & _).
  { repeat constructor. }
  fold self in H. rewrite H by reflexivity. reflexivity.
Defined.

(** C3, as stated, fails: with the content-start pattern [^RULES], the
    trimmed text of the line below matches, and the line is passed on as
    preamble, without a marker. *)
Lemma content_start_gate_trimmed_fails :
  let line := line_of (lit " RULES OF APPLICATION") in
  starts_content (compile_content_start anchored_config) (strip (text line)) = true /\
  mark_text (TextMarker_init anchored_config) [line] = [text line].
Proof. split; reflexivity. Qed.
(** * Further properties *)

(** ** Deleting matches *)

Lemma matches_head_reaches ic r st e l :
  matches ic r st = e :: l -> reaches ic r st e.
Proof. intros E. apply matches_sound. rewrite E. by left. Qed.

(** [re.sub(pattern, '', text)] only takes characters away. *)
Lemma delete_from_sublist p fuel : forall pos rest,
  delete_from p fuel pos rest `sublist_of` rest.
Proof.
  induction fuel as [|fuel IH]; intros pos rest; simpl; [done|].
  assert (match rest with
          | [] => []
          | c :: rest' => c :: delete_from p fuel (S pos) rest'
          end `sublist_of` rest) as Hskip.
  { destruct rest as [|c rest']; [done|]. by apply sublist_skip. }
  destruct (matches (p_ic p) (p_re p) (MState pos rest [])) as [|e l] eqn:E; [done|].
  destruct (pos <? m_pos e); [|done].
  apply matches_head_reaches, reaches_consumes in E as (u & Eu & _). simpl in Eu.
  rewrite Eu. by apply sublist_inserts_l.
Qed.

Lemma re_delete_sublist p text : re_delete p text `sublist_of` text.
Proof. apply delete_from_sublist. Qed.

(** A pattern that matches exactly the non-empty runs of characters passing
    [test], wherever one begins, is deleted by dropping those characters. *)
Lemma delete_from_filter p test :
  (forall st e, reaches (p_ic p) (p_re p) st e ->
     exists u, u <> [] /\ Forall (fun c => test c = true) u /\
               m_rest st = u ++ m_rest e /\ m_pos e = m_pos st + length u) ->
  (forall pos c rest, test c = true ->
     exists e, reaches (p_ic p) (p_re p) (MState pos (c :: rest) []) e) ->
  forall fuel pos rest,
    length rest < fuel ->
    delete_from p fuel pos rest = List.filter (fun c => negb (test c)) rest.
Proof.
  intros Hrun Hstart.
  assert (forall u rest, Forall (fun c => test c = true) u ->
            List.filter (fun c => negb (test c)) (u ++ rest)
            = List.filter (fun c => negb (test c)) rest) as Hdrop.
  { intros u rest Hu. induction Hu as [|c u Hc _ IH]; simpl; [done|]. by rewrite Hc. }
  induction fuel as [|fuel IH]; intros pos rest Hlen; [lia|]. simpl.
  destruct (matches (p_ic p) (p_re p) (MState pos rest [])) as [|e l] eqn:E.
  - destruct rest as [|c rest']; [done|]. simpl.
    destruct (test c) eqn:Hc.
    + destruct (Hstart pos c rest' Hc) as [e He].
      apply matches_complete in He. rewrite E in He. by apply elem_of_nil in He.
    + simpl. f_equal. apply IH. simpl in Hlen. lia.
  - apply matches_head_reaches, Hrun in E as (u & Hne & Hu & Eu & Pu).
    simpl in Eu, Pu.
    destruct (Nat.ltb_spec pos (m_pos e)) as [_|Hge].
    + rewrite Eu, Hdrop by done. apply IH.
      rewrite Eu, length_app in Hlen. destruct u; [done|]. simpl in Hlen. lia.
    + destruct u; [done|]. simpl in Pu. lia.
Qed.

Lemma delete_spaces text :
  re_delete (Pattern (plus space) false) text
  = List.filter (fun c => negb (is_space c)) text.
Proof.
  unfold re_delete.
  rewrite (delete_from_filter _ (cls_match false false [CSpace])).
  - apply List.filter_ext. intros c. f_equal.
    apply eq_true_iff_eq, cls_space.
  - intros st e H. simpl in H.
    apply (reaches_rep_run _ _ _ _ _ _ _ _ (eats_cls _ _ _)) in H
      as (u & Eu & Hu & Hlo & _ & Pu & _).
    exists u. repeat split; try done. destruct u; [simpl in Hlo; lia|done].
  - intros pos c rest Hc. eexists. simpl.
    apply (reaches_rep_prefix false _ (cls_match false false [CSpace]) true 1 None [c]
             rest pos []); [apply eats_cls|by constructor|simpl; lia|done].
  - lia.
Qed.

Lemma marker_char_cls c :
  negb (cls_match false true [upper_AZ; CRange "0" "9"] c) = is_marker_char c.
Proof. all_chars c. Qed.

Lemma delete_non_marker_chars text :
  re_delete (Pattern (Cls true [upper_AZ; CRange "0" "9"]) false) text
  = List.filter is_marker_char text.
Proof.
  unfold re_delete.
  rewrite (delete_from_filter _ (cls_match false true [upper_AZ; CRange "0" "9"])).
  - apply List.filter_ext. intros c. apply marker_char_cls.
  - intros st e H. simpl in H.
    inversion H as [| | |? ? c rest pos g Ht| | | | | | | |]; subst. simpl.
    exists [c]. split; [done|]. split; [by constructor|]. split; [done|simpl; lia].
  - intros pos c rest Hc. eexists. simpl. by constructor.
  - lia.
Qed.

Lemma marker_char_not_space c : is_marker_char c = true -> is_space c = false.
Proof. all_chars c. Qed.

Lemma format_ext {F : Type} (template : list (piece F)) (f g : F -> str) :
  (forall x, f x = g x) -> format template f = format template g.
Proof.
  intros H. unfold format. induction template as [|[s|x] t IH]; csimpl; [done|..].
  - by rewrite IH.
  - by rewrite H, IH.
Qed.

(** The value of a marker, for every text: the upper-cased text with
    everything but capital letters and digits dropped. *)
Lemma marker_value text :
  re_delete (Pattern (Cls true [upper_AZ; CRange "0" "9"]) false)
    (re_delete (Pattern (plus space) false) (upper text))
  = List.filter is_marker_char (upper text).
Proof.
  rewrite delete_non_marker_chars, delete_spaces.
  induction (upper text) as [|c s IH]; simpl; [done|].
  destruct (is_space c) eqn:Hs; simpl.
  - destruct (is_marker_char c) eqn:Hm; [|done].
    by rewrite (marker_char_not_space c Hm) in Hs.
  - by rewrite IH.
Qed.

(** ** Marker values *)

Lemma format_marker_eq config lv text :
  _format_marker (TextMarker_init config) lv text
  = format (marker_format config)
      (fun f => match f with
                | f_type => level_name lv
                | f_value => List.filter is_marker_char (upper text)
                end).
Proof.
  unfold _format_marker. apply format_ext. intros [|]; [done|]. apply marker_value.
Qed.

Lemma format_marker_default lv text :
  _format_marker (TextMarker_init default_config) lv text
  = laquo :: level_name lv ++ lit ":" ++ List.filter is_marker_char (upper text) ++ [raquo].
Proof. unfold _format_marker. rewrite marker_value. unfold format. simpl. done. Qed.

Lemma marker_value_chars text :
  Forall (fun c => is_marker_char c = true) (List.filter is_marker_char (upper text)).
Proof.
  apply Forall_forall. intros c Hc. apply list_elem_of_In in Hc.
  by apply List.filter_In in Hc as [_ ?].
Qed.

(** The marker of a header, whatever the configuration, the level and the
    text: the template filled with the level and with the upper-cased text
    from which everything but capital letters and digits is dropped.  Under
    the built-in template this is the level, a colon and that value between
    guillemets. *)
Theorem format_marker_value (config : MarkerConfig) (lv : level) (text : str) :
  let value := List.filter is_marker_char (upper text) in
  _format_marker (TextMarker_init config) lv text
  = format (marker_format config)
      (fun f => match f with f_type => level_name lv | f_value => value end) /\
  Forall (fun c => is_marker_char c = true) value /\
  _format_marker (TextMarker_init default_config) lv text
  = laquo :: level_name lv ++ lit ":" ++ value ++ [raquo].
Proof.
  intros value. split; [apply format_marker_eq|].
  split; [apply marker_value_chars|apply format_marker_default].
Qed.

Lemma upper_app s t : upper (s ++ t) = upper s ++ upper t.
Proof. apply bind_app. Qed.

Lemma upper_marker_chars s :
  Forall (fun c => is_marker_char c = true) s -> upper s = s.
Proof.
  assert (forall c, is_marker_char c = true -> upper [c] = [c]) as Hc
    by (intros c; all_chars c).
  induction 1 as [|c s H _ IH]; [done|].
  change (c :: s) with ([c] ++ s) at 1. by rewrite upper_app, (Hc c H), IH.
Qed.

Lemma filter_marker_chars_id s :
  Forall (fun c => is_marker_char c = true) s -> List.filter is_marker_char s = s.
Proof. induction 1 as [|c s H _ IH]; simpl; [done|]. by rewrite H, IH. Qed.

(** Normalising twice changes nothing: the value of a marker is its own
    marker value, so a header and the value of its marker get the same
    marker. *)
Theorem format_marker_idempotent (config : MarkerConfig) (lv : level) (text : str) :
  _format_marker (TextMarker_init config) lv (List.filter is_marker_char (upper text))
  = _format_marker (TextMarker_init config) lv text.
Proof.
  rewrite !format_marker_eq. apply format_ext. intros [|]; [done|].
  pose proof (marker_value_chars text) as Hv.
  by rewrite (upper_marker_chars _ Hv), (filter_marker_chars_id _ Hv).
Qed.

(** ** The code of a line *)

Lemma opt_group_inv n p st st' :
  reaches false (opt (Grp n (Chr p))) st st' ->
  st' = st \/
  exists rest, m_rest st = p :: rest /\
               st' = MState (S (m_pos st)) rest ((n, [p]) :: m_groups st).
Proof.
  unfold opt. inversion 1 as [| | | | | | | | |? ? ? ?|? ? ? ? ? mid ? _ Hg _ Hrest|];
    subst; [by left|right].
  assert (st' = mid) as ->.
  { inversion Hrest; subst; [done|]. simpl in *. congruence. }
  inversion Hg as [| | | | | | | | | | |? ? ? s0 Hc]; subst.
  inversion Hc as [|? c rest pos g Hm| | | | | | | | | |]; subst.
  assert (c = p) as -> by (by apply Ascii.eqb_eq in Hm).
  exists rest. split; [done|]. unfold set_group. simpl.
  by replace (S pos - pos) with 1 by lia.
Qed.

Lemma group2_digits_inv st st' :
  reaches false (Grp 2 (exactly 4 digit)) st st' ->
  exists u rest, m_rest st = u ++ rest /\ length u = 4 /\ all_digits u /\
                 st' = MState (m_pos st + 4) rest ((2, u) :: m_groups st).
Proof.
  inversion 1 as [| | | | | | | | | | |? ? ? s0 H0]; subst.
  apply (reaches_rep_run _ _ _ _ _ _ _ _ (eats_cls _ _ _)) in H0
    as (u & E & Hu & Hlo & Hhi & Hpos & Hg).
  specialize (Hhi 4 eq_refl). assert (length u = 4) as Hlen by lia.
  exists u, (m_rest s0). split; [done|]. split; [done|]. split.
  { eapply Forall_impl; [exact Hu|]. intros c. apply cls_digit. }
  unfold set_group. rewrite Hpos, Hg, E, Hlen.
  replace (m_pos st + 4 - m_pos st) with (length u) by lia.
  by rewrite take_app_length.
Qed.

Lemma code_tail_alone : code_tail (star space -:- Eol).
Proof.
  intros s e H. inv_seq H mid Hsp Heol.
  apply (reaches_rep_run _ _ _ _ _ _ _ _ (eats_cls _ _ _)) in Hsp
    as (u & E & Hu & _ & _ & _ & Hg).
  inversion Heol as [| | | | |? Hend| | | | | |]; subst. split; [done|].
  intros c. rewrite E. destruct u as [|c' u]; simpl.
  - destruct Hend as [-> | ->]; [done|]. by intros [= <-].
  - intros [= <-]. inversion Hu as [|? ? Hc _]; subst. by apply cls_space.
Qed.

Lemma code_tail_prefix : code_tail (plus space).
Proof.
  intros s e H.
  apply (reaches_rep_run _ _ _ _ _ _ _ _ (eats_cls _ _ _)) in H
    as (u & E & Hu & Hlo & _ & _ & Hg).
  split; [done|]. intros c. rewrite E.
  destruct u as [|c' u]; [simpl in Hlo; lia|]. simpl.
  intros [= <-]. inversion Hu as [|? ? Hc _]; subst. by apply cls_space.
Qed.

Lemma code_info_shape K t m :
  code_tail K ->
  re_match (Pattern (Bol -:- opt (Grp 1 (Chr "~")) -:- Grp 2 (exactly 4 digit)
                         -:- opt (Grp 3 (Chr "*")) -:- K) false) t = Some m ->
  code_shape t (is_provisional (code_info_of m)) (is_asterisked (code_info_of m))
             (code (code_info_of m)).
Proof.
  intros HK Hm. apply re_match_reaches in Hm as (_ & _ & H). simpl in H.
  destruct m as [start text e]. simpl in H.
  inv_seq H m1 Hbol Ha. inversion Hbol; subst; clear Hbol.
  inv_seq Ha m2 Hopt Hb. inv_seq Hb m3 Hx Hc. inv_seq Hc m4 Hopt' Hk.
  apply HK in Hk as [Hg Hsp].
  apply group2_digits_inv in Hx as (u & rest3 & E3 & Hlen & Hd & ->).
  unfold code_info_of, group. simpl. rewrite Hg. clear Hg.
  apply opt_group_inv in Hopt as [-> | (rest2 & E2 & ->)];
    apply opt_group_inv in Hopt' as [-> | (rest4 & E4 & ->)];
    simpl in *; subst; simpl.
  - exists rest3. by repeat split.
  - exists rest4. by repeat split.
  - exists rest3. by repeat split.
  - exists rest4. by repeat split.
Qed.

Lemma code_shape_unique t p a d p' a' d' :
  code_shape t p a d -> code_shape t p' a' d' -> p = p' /\ a = a' /\ d = d'.
Proof.
  intros (rest & -> & Hlen & Hd & Hsp) (rest' & E & Hlen' & Hd' & Hsp').
  destruct d as [|d1 [|d2 [|d3 [|d4 [|]]]]]; try discriminate.
  destruct d' as [|e1 [|e2 [|e3 [|e4 [|]]]]]; try discriminate.
  assert (is_digit d1 = true) as Hd1 by (by inversion Hd).
  assert (is_digit e1 = true) as He1 by (by inversion Hd').
  assert (is_digit "~" = false) as Ht by done.
  assert (is_space "*" = false) as Hs by done.
  destruct p, p', a, a'; simpl in E; simplify_eq; try congruence; try done.
  - specialize (Hsp' _ eq_refl). congruence.
  - specialize (Hsp _ eq_refl). congruence.
  - specialize (Hsp' _ eq_refl). congruence.
  - specialize (Hsp _ eq_refl). congruence.
Qed.

Lemma code_shape_head K t (p a : bool) d rest :
  t = (if p then lit "~" else []) ++ d ++ (if a then lit "*" else []) ++ rest ->
  length d = 4 -> all_digits d ->
  (forall pos g, exists e, reaches false K (MState pos rest g) e) ->
  exists e, reaches false (Bol -:- opt (Grp 1 (Chr "~")) -:- Grp 2 (exactly 4 digit)
                               -:- opt (Grp 3 (Chr "*")) -:- K) (MState 0 t []) e.
Proof.
  intros -> Hlen Hd HK.
  destruct d as [|d1 [|d2 [|d3 [|d4 [|]]]]]; try discriminate.
  assert (Forall (fun c => cls_match false false [CDigit] c = true) [d1; d2; d3; d4])
    as Hd' by (eapply Forall_impl; [exact Hd|]; intros c; apply cls_digit).
  destruct (HK ((if p then 1 else 0) + 4 + (if a then 1 else 0))
               ((if a then [(3, lit "*")] else [])
                ++ (2, [d1; d2; d3; d4]) :: (if p then [(1, lit "~")] else [])))
    as [e He].
  exists e.
  destruct p, a; simpl;
    (eapply R_seq; [by apply R_bol|]);
    (eapply R_seq;
      [first [eapply R_rep_more;
                [done|apply R_grp; by apply R_chr|simpl; lia|apply R_rep_stop]
             |apply R_rep_stop]|]);
    (eapply R_seq;
      [apply R_grp;
       apply (reaches_rep_prefix false digit (cls_match false false [CDigit]) true
                4 (Some 4) [d1; d2; d3; d4]);
         [apply eats_cls|exact Hd'|simpl; lia|intros h [= <-]; simpl; lia]|]);
    (eapply R_seq;
      [first [eapply R_rep_more;
                [done|apply R_grp; by apply R_chr|simpl; lia|apply R_rep_stop]
             |apply R_rep_stop]|]);
    exact He.
Qed.

Lemma code_shape_found self text p a d :
  code_shape (strip text) p a d -> is_Some (extract_code_info self text).
Proof.
  intros (rest & E & Hlen & Hd & Hsp). unfold extract_code_info.
  destruct (re_match (Pattern code_alone_re false) (strip text)) eqn:E1; [done|].
  destruct (re_match (Pattern code_prefix_re false) (strip text)) eqn:E2; [done|].
  exfalso. destruct rest as [|c rest].
  - assert (found (re_match (Pattern code_alone_re false) (strip text)) = true) as F;
      [|by rewrite E1 in F].
    destruct (code_shape_head (star space -:- Eol) _ _ _ _ _ E Hlen Hd) as [e He].
    { intros pos g. eexists. eapply R_seq; [apply R_rep_stop|]. apply R_eol. by left. }
    by apply (reaches_re_match (Pattern code_alone_re false) _ e).
  - assert (found (re_match (Pattern code_prefix_re false) (strip text)) = true) as F;
      [|by rewrite E2 in F].
    destruct (code_shape_head (plus space) _ _ _ _ _ E Hlen Hd) as [e He].
    { intros pos g. eexists.
      apply (reaches_rep_prefix false space (cls_match false false [CSpace]) true
               1 None [c] rest pos g);
        [apply eats_cls| |simpl; lia|done].
      constructor; [|done]. apply cls_space. by apply Hsp. }
    by apply (reaches_re_match (Pattern code_prefix_re false) _ e).
Qed.

Lemma extract_code_info_sound self text info :
  extract_code_info self text = Some info ->
  code_shape (strip text) (is_provisional info) (is_asterisked info) (code info).
Proof.
  unfold extract_code_info.
  destruct (re_match (Pattern code_alone_re false) (strip text)) as [m|] eqn:E1.
  { intros [= <-]. by apply (code_info_shape _ _ _ code_tail_alone). }
  destruct (re_match (Pattern code_prefix_re false) (strip text)) as [m|] eqn:E2; [|done].
  intros [= <-]. by apply (code_info_shape _ _ _ code_tail_prefix).
Qed.

(** [extract_code_info] finds a code exactly on the lines whose trimmed text
    starts with an optional tilde, four digits and an optional asterisk,
    followed by the end of the text or by whitespace; the code it reports is
    those four digits and the two flags tell whether the tilde and the
    asterisk are there. *)
Theorem extract_code_info_shape (self : HierarchyDetector) (text : str) :
  (forall info, extract_code_info self text = Some info ->
     code_shape (strip text) (is_provisional info) (is_asterisked info) (code info)) /\
  (forall p a d, code_shape (strip text) p a d ->
     exists info, extract_code_info self text = Some info /\
                  is_provisional info = p /\ is_asterisked info = a /\ code info = d).
Proof.
  split; [apply extract_code_info_sound|].
  intros p a d H. destruct (code_shape_found self _ _ _ _ H) as [info E].
  exists info. split; [done|].
  apply extract_code_info_sound in E.
  destruct (code_shape_unique _ _ _ _ _ _ _ E H) as (? & ? & ?). done.
Qed.

Lemma extract_code_info_shape_witness :
  exists info,
    extract_code_info (HierarchyDetector_init default_config) (lit " ~0171* Visit")
    = Some info /\
    is_provisional info = true /\ is_asterisked info = true /\ code info = lit "0171".
Proof.
  apply (proj2 (extract_code_info_shape (HierarchyDetector_init default_config)
                  (lit " ~0171* Visit")) true true (lit "0171")).
  exists (lit " Visit"). split; [reflexivity|]. split; [reflexivity|].
  split; [repeat constructor|]. by intros c [= <-].
Defined.

(** ** Tariff codes under the built-in configuration *)

Lemma found_re_match_reaches p t :
  found (re_match p t) = true ->
  exists e, reaches (p_ic p) (p_re p) (MState 0 t []) e.
Proof.
  destruct (re_match p t) as [m|] eqn:E; [|done]. intros _.
  apply re_match_reaches in E as (_ & _ & H). by eexists.
Qed.

Lemma plus_space_head K s e c :
  reaches false (plus space -:- K) s e ->
  head (m_rest s) = Some c -> is_space c = true.
Proof.
  intros H. inv_seq H mid Hsp Hk.
  apply (reaches_rep_run _ _ _ _ _ _ _ _ (eats_cls _ _ _)) in Hsp
    as (u & E & Hu & Hlo & _).
  rewrite E. destruct u as [|c' u]; [simpl in Hlo; lia|]. simpl.
  intros [= <-]. inversion Hu as [|? ? Hc _]; subst. by apply cls_space.
Qed.

(** The head shared by the three tariff-code patterns leaves a text of the
    shape of a code. *)
Lemma code_head_shape X K t e :
  (forall s s', reaches false X s s' ->
     exists u, m_rest s = u ++ m_rest s' /\ length u = 4 /\ all_digits u) ->
  (forall s e c, reaches false K s e -> head (m_rest s) = Some c -> is_space c = true) ->
  reaches false (Bol -:- opt (Cls false [CChar "~"]) -:- X
                     -:- opt (Cls false [CChar "*"]) -:- K) (MState 0 t []) e ->
  exists p a d, code_shape t p a d.
Proof.
  intros HX HK H.
  inv_seq H m1 Hbol Ha. inversion Hbol; subst; clear Hbol.
  inv_seq Ha m2 Hopt Hb. inv_seq Hb m3 Hx Hc. inv_seq Hc m4 Hopt' Hk.
  apply (reaches_rep_run _ _ _ _ _ _ _ _ (eats_cls _ _ _)) in Hopt
    as (u2 & E2 & F2 & _ & Hhi2 & _).
  apply HX in Hx as (u3 & E3 & L3 & D3).
  apply (reaches_rep_run _ _ _ _ _ _ _ _ (eats_cls _ _ _)) in Hopt'
    as (u4 & E4 & F4 & _ & Hhi4 & _).
  pose proof (fun c => HK _ _ c Hk) as Hsp.
  simpl in E2. rewrite E3, E4 in E2. clear E3 E4.
  specialize (Hhi2 1 eq_refl). specialize (Hhi4 1 eq_refl).
  destruct u2 as [|c2 [|? ?]]; [| |simpl in Hhi2; lia];
    (destruct u4 as [|c4 [|? ?]]; [| |simpl in Hhi4; lia]).
  - exists false, false, u3, (m_rest m4). by repeat split.
  - inversion F4 as [|? ? ->%cls_asterisk _]; subst.
    exists false, true, u3, (m_rest m4). by repeat split.
  - inversion F2 as [|? ? ->%cls_tilde _]; subst.
    exists true, false, u3, (m_rest m4). by repeat split.
  - inversion F2 as [|? ? ->%cls_tilde _]; subst.
    inversion F4 as [|? ? ->%cls_asterisk _]; subst.
    exists true, true, u3, (m_rest m4). by repeat split.
Qed.

Lemma tariff_code_shape text :
  _is_tariff_code (HierarchyDetector_init default_config) text = true ->
  exists p a d, code_shape (strip text) p a d.
Proof.
  unfold _is_tariff_code. simpl.
  destruct (found (re_match (Pattern default_code_with_fee_pattern false) (strip text)))
    eqn:E1.
  { intros _. apply found_re_match_reaches in E1 as [e He]. simpl in He.
    apply (code_head_shape _ _ _ _ (four_digits_group 1)) in He; [done|].
    intros s e' c. apply plus_space_head. }
  destruct (found (re_match (Pattern standalone_code_re false) (strip text))) eqn:E2.
  { intros _. apply found_re_match_reaches in E2 as [e He]. simpl in He.
    apply (code_head_shape _ _ _ _ four_digits_plain) in He; [done|].
    intros s e' c Hr. apply code_tail_alone in Hr as [_ Hr]. apply Hr. }
  destruct (re_match (Pattern code_description_re false) (strip text)) as [m|] eqn:E3;
    [|done].
  intros _. apply re_match_reaches in E3 as (_ & _ & He). simpl in He.
  apply (code_head_shape _ _ _ _ (four_digits_group 1)) in He; [done|].
  intros s e' c. apply plus_space_head.
Qed.

Lemma strip_strip s : strip (strip s) = strip s.
Proof. destruct (strip_decompose s) as (? & ? & _ & _ & _ & H). by apply strip_tight. Qed.

Lemma detect_level_code self line prev :
  detect_level self line prev = Some CODE ->
  _is_tariff_code self (strip (text line)) = true.
Proof.
  unfold detect_level. destruct (_is_tariff_code _ _); [done|].
  by repeat match goal with |- context [if ?b then _ else _] => destruct b end.
Qed.

(** Under the built-in configuration a line that an active pass takes for a
    tariff code always gets its marker: the code is found, and the marker is
    [CODE:], the tilde if the line has one, the four digits and the asterisk
    if the line has one, between guillemets. *)
Theorem code_line_gets_marker (line : TextLine) (prev : option TextLine)
    (st : mark_state) :
  let self := TextMarker_init default_config in
  content_started st = true ->
  should_skip (tm_detector self) line = false ->
  detect_level (tm_detector self) line prev = Some CODE ->
  exists p a d,
    code_shape (strip (text line)) p a d /\
    mark_line self (compile_content_start default_config) prev line st
    = append (text line)
        (append (laquo :: lit "CODE:" ++ (if p then lit "~" else []) ++ d
                       ++ (if a then lit "*" else []) ++ [raquo]) st).
Proof.
  intros self Hst Hskip Hlv.
  pose proof (detect_level_code _ _ _ Hlv) as Ht.
  apply tariff_code_shape in Ht as (p & a & d & Hs). rewrite strip_strip in Hs.
  destruct (code_shape_found (tm_detector self) _ _ _ _ Hs) as [info Hi].
  pose proof (extract_code_info_sound _ _ _ Hi) as Hs'.
  destruct (code_shape_unique _ _ _ _ _ _ _ Hs' Hs) as (Ep & Ea & Ed).
  exists p, a, d. split; [done|].
  unfold mark_line. rewrite Hst. unfold self in *. simpl in Hskip, Hlv, Hi. simpl.
  rewrite Hskip, Hlv, Hi.
  rewrite Ep, Ea, Ed. unfold _format_code_marker, format. simpl.
  done.
Qed.

Lemma code_line_gets_marker_witness :
  let self := TextMarker_init default_config in
  let line := line_of (lit "~0171* Provisional benefit, by report") in
  let st := mark_run self [line_of (lit "RULES OF APPLICATION")] in
  exists p a d,
    code_shape (strip (text line)) p a d /\
    mark_line self (compile_content_start default_config) None line st
    = append (text line)
        (append (laquo :: lit "CODE:" ++ (if p then lit "~" else []) ++ d
                       ++ (if a then lit "*" else []) ++ [raquo]) st).
Proof.
  intros self line st.
  apply (code_line_gets_marker line None st); vm_compute; reflexivity.
Defined.

Lemma code_char_begins_no_heading c :
  is_digit c || Ascii.eqb c "~" = true ->
  cannot_begin false c specialty_heading_re = true /\
  forallb (cannot_begin true c) major_sections = true /\
  forallb (cannot_begin true c) l2_specific = true /\
  forallb (cannot_begin true c) l3_specific = true.
Proof. all_chars c. Qed.

Lemma code_char_plain c :
  is_code_char c = true -> is_upper_char c = false /\ is_space c = false.
Proof. all_chars c. Qed.

Lemma digit_code_char c : is_digit c = true -> is_code_char c = true.
Proof. all_chars c. Qed.

Lemma code_chars_not_upper s :
  Forall (fun c => is_code_char c = true) s -> isupper s = false.
Proof.
  intros H. unfold isupper.
  assert (existsb is_upper_char s = false) as ->; [|done].
  induction H as [|c s Hc _ IH]; simpl; [done|].
  by rewrite (proj1 (code_char_plain c Hc)).
Qed.

Lemma code_chars_one_word s :
  Forall (fun c => is_code_char c = true) s -> length (split s) <= 1.
Proof.
  intros H. unfold split.
  assert (forall cur, length (split_ws cur s) = match cur ++ s with [] => 0 | _ => 1 end)
    as Hgen.
  { induction H as [|c s Hc _ IH]; intros cur; simpl.
    - rewrite app_nil_r. by destruct cur.
    - rewrite (proj2 (code_char_plain c Hc)), IH. by destruct cur. }
  rewrite Hgen. destruct ([] ++ s); lia.
Qed.

(** The built-in code pattern matches a code that whitespace follows. *)
Lemma code_shape_code_pattern t (p a : bool) d c rest :
  t = (if p then lit "~" else []) ++ d ++ (if a then lit "*" else []) ++ c :: rest ->
  length d = 4 -> all_digits d -> is_space c = true ->
  found (re_match (Pattern default_code_pattern false) t) = true.
Proof.
  intros -> Hlen Hd Hc.
  destruct d as [|d1 [|d2 [|d3 [|d4 [|]]]]]; try discriminate.
  assert (Forall (fun c => cls_match false false [CDigit] c = true) [d1; d2; d3; d4])
    as Hd' by (eapply Forall_impl; [exact Hd|]; intros ?; apply cls_digit).
  apply cls_space in Hc.
  destruct p, a; simpl;
    eapply (reaches_re_match (Pattern default_code_pattern false));
    (eapply R_seq; [by apply R_bol|]);
    (eapply R_seq;
      [first [eapply R_rep_more; [done|apply R_cls; reflexivity|simpl; lia|apply R_rep_stop]
             |apply R_rep_stop]|]);
    (eapply R_seq;
      [apply R_grp;
       apply (reaches_rep_prefix false digit (cls_match false false [CDigit]) true
                4 (Some 4) [d1; d2; d3; d4]);
         [apply eats_cls|exact Hd'|simpl; lia|intros h [= <-]; simpl; lia]|]);
    (eapply R_seq;
      [first [eapply R_rep_more; [done|apply R_cls; reflexivity|simpl; lia|apply R_rep_stop]
             |apply R_rep_stop]|]);
    (apply (reaches_rep_prefix false space (cls_match false false [CSpace]) true
              1 None [c] rest);
       [apply eats_cls|by constructor|simpl; lia|done]).
Qed.

(** Under the built-in configuration the order in which [detect_level] puts
    its tests never decides between a tariff code and a header: a line the
    tariff-code test accepts passes none of the three header tests. *)
Theorem tariff_code_excludes_headers (line : TextLine) :
  let self := HierarchyDetector_init default_config in
  _is_tariff_code self (strip (text line)) = true ->
  _matches_l1 self line = false /\ _matches_l2 self line = false /\
  _matches_l3 self line = false.
Proof.
  intros self Ht. apply tariff_code_shape in Ht as (p & a & d & Hs).
  rewrite strip_strip in Hs. destruct Hs as (rest & E & Hlen & Hd & Hsp).
  unfold _matches_l1, _matches_l2, _matches_l3.
  change (d_code_pattern self) with (Pattern default_code_pattern false).
  destruct rest as [|c rest].
  - assert (exists c0, head (strip (text line)) = Some c0 /\
                       is_digit c0 || Ascii.eqb c0 "~" = true) as (c0 & Hh & Hc0).
    { rewrite E. destruct d as [|d1 d]; [done|].
      assert (is_digit d1 = true) as Hd1 by (by inversion Hd).
      destruct p; simpl; eexists; (split; [done|]); [done|by rewrite Hd1]. }
    destruct (code_char_begins_no_heading c0 Hc0) as (Hs & H1 & H2 & H3).
    assert (Forall (fun c => is_code_char c = true) (strip (text line))) as Hcc.
    { rewrite E. apply Forall_app. split; [by destruct p; repeat constructor|].
      apply Forall_app. split.
      - eapply Forall_impl; [exact Hd|]. apply digit_code_char.
      - by destruct a; repeat constructor. }
    rewrite (cannot_begin_search _ _ _ _ Hs Hh).
    rewrite (cannot_begin_any _ _ _ _ H1 Hh), (cannot_begin_any _ _ _ _ H2 Hh),
      (cannot_begin_any _ _ _ _ H3 Hh).
    rewrite (code_chars_not_upper _ Hcc).
    pose proof (code_chars_one_word _ Hcc) as Hw.
    assert ((2 <=? length (split (strip (text line)))) = false) as ->
      by (apply Nat.leb_gt; lia).
    simpl. rewrite !andb_false_r.
    repeat split;
      repeat match goal with |- context [if ?b then _ else _] => destruct b end; done.
  - rewrite (code_shape_code_pattern _ p a d c rest E Hlen Hd (Hsp c eq_refl)).
    repeat split;
      repeat match goal with |- context [if ?b then _ else _] => destruct b end; done.
Qed.

Lemma tariff_code_excludes_headers_witness :
  let self := HierarchyDetector_init default_config in
  let line := line_of (lit "8540 Complete History and Physical Examination") in
  _matches_l1 self line = false /\ _matches_l2 self line = false /\
  _matches_l3 self line = false.
Proof.
  intros self line. apply (tariff_code_excludes_headers line). vm_compute. reflexivity.
Defined.

(** ** The markers of a pass *)

Lemma detect_level_header self line prev lv :
  detect_level self line prev = Some lv ->
  lv = CODE \/ lv = L1 \/ lv = L2 \/ lv = L3.
Proof.
  unfold detect_level.
  repeat match goal with |- context [if ?b then _ else _] => destruct b end;
    intros [= <-]; auto.
Qed.

Lemma mark_line_grammar prev line st :
  let self := TextMarker_init default_config in
  exists marker,
    well_formed marker /\
    output (mark_line self (compile_content_start default_config) prev line st)
    = output st ++ emitted marker line.
Proof.
  intros self. unfold mark_line, emitted.
  assert (forall lv text, lv = L1 \/ lv = L2 \/ lv = L3 ->
            well_formed (Some (_format_marker self lv text))) as Hhead.
  { intros lv text Hlv m [= <-]. left. exists lv, (List.filter is_marker_char (upper text)).
    split; [done|]. split; [apply marker_value_chars|apply format_marker_default]. }
  assert (well_formed None) as Hnone by (by intros m).
  destruct (negb (content_started st)).
  - destruct (starts_content _ (text line)); simpl.
    + eexists (Some _). split; [apply Hhead; by left|]. by rewrite <- app_assoc.
    + by exists None.
  - destruct (should_skip _ line); [by exists None|].
    destruct (detect_level _ line prev) as [lv|] eqn:Elv; [|by exists None].
    apply detect_level_header in Elv as [-> | Hlv].
    + destruct (extract_code_info _ _) as [info|] eqn:Ei; simpl; [|by exists None].
      eexists (Some _). split; [|by rewrite <- app_assoc].
      intros m [= <-]. right.
      apply extract_code_info_sound in Ei as (rest & _ & Hlen & Hd & _).
      exists (is_provisional info), (is_asterisked info), (code info).
      split; [done|]. split; [done|].
      unfold _format_code_marker, format. simpl. done.
    + exists (Some (_format_marker self lv (_clean_header_text self (text line)))).
      split; [by apply Hhead|].
      destruct Hlv as [-> | [-> | ->]]; simpl; by rewrite <- app_assoc.
Qed.

Lemma mark_loop_grammar lines : forall prev st,
  let self := TextMarker_init default_config in
  exists markers,
    length markers = length lines /\
    Forall well_formed markers /\
    output (mark_loop self (compile_content_start default_config) prev lines st)
    = output st ++ mjoin (zip_with emitted markers lines).
Proof.
  induction lines as [|line lines IH]; intros prev st self; simpl.
  - exists []. by rewrite app_nil_r.
  - destruct (IH (Some line)
                (mark_line self (compile_content_start default_config) prev line st))
      as (ms & Hlen & Hwf & Hout).
    destruct (mark_line_grammar prev line st) as (m & Hm & Hline).
    exists (m :: ms). split; [simpl; by rewrite Hlen|].
    split; [by constructor|].
    unfold self in *. simpl in Hout. rewrite Hout, Hline. simpl.
    by rewrite <- app_assoc.
Qed.

(** Under the built-in configuration every line that [mark_text] inserts is
    a header marker of level L1, L2 or L3 whose value is made of capital
    letters and digits, or a code marker with four digits, the tilde and the
    asterisk being the only other characters it may hold. *)
Theorem mark_text_marker_grammar (lines : list TextLine) :
  exists markers : list (option str),
    length markers = length lines /\
    Forall well_formed markers /\
    mark_text (TextMarker_init default_config) lines
    = mjoin (zip_with emitted markers lines).
Proof.
  unfold mark_text, mark_run.
  destruct (mark_loop_grammar lines None initial_state) as (ms & Hlen & Hwf & Hout).
  exists ms. split; [done|]. split; [done|]. simpl in *. by rewrite Hout.
Qed.

(** ** The statistics of a pass *)

Lemma contains_cons_absent c p s :
  contains [c] s = false -> contains (c :: p) s = false.
Proof.
  induction s as [|x s IH]; simpl; [done|].
  destruct (Ascii.eqb c x); simpl; [done|]. exact IH.
Qed.

Lemma contains_absent c s :
  Forall (fun x => Ascii.eqb c x = false) s -> contains [c] s = false.
Proof. induction 1 as [|x s Hx _ IH]; simpl; [done|]. by rewrite Hx. Qed.

Lemma marker_char_not_laquo c :
  is_marker_char c = true -> Ascii.eqb laquo c = false.
Proof. all_chars c. Qed.

Lemma digit_not_laquo c : is_digit c = true -> Ascii.eqb laquo c = false.
Proof. all_chars c. Qed.

(** A line without an opening guillemet counts nowhere. *)
Lemma text_line_not_counted key t :
  contains [laquo] t = false -> counts_toward key t = false.
Proof.
  intros H. unfold counts_toward, has_L1, has_L2, has_L3, has_L4, has_CODE.
  by rewrite !(contains_cons_absent _ _ _ H).
Qed.

Lemma header_marker_counted m :
  header_marker m ->
  counts_toward (lit "L4") m = false /\
  Nat.b2n (counts_toward (lit "L1") m) + Nat.b2n (counts_toward (lit "L2") m)
  + Nat.b2n (counts_toward (lit "L3") m) + Nat.b2n (counts_toward (lit "CODE") m) = 1.
Proof.
  intros (lv & v & Hlv & Hv & ->).
  assert (contains [laquo] (level_name lv ++ lit ":" ++ v ++ [raquo]) = false) as Hno.
  { apply contains_absent. apply Forall_app. split; [by destruct lv; repeat constructor|].
    apply Forall_app. split; [by repeat constructor|].
    apply Forall_app. split; [|by repeat constructor].
    eapply Forall_impl; [exact Hv|]. apply marker_char_not_laquo. }
  unfold counts_toward, has_L1, has_L2, has_L3, has_L4, has_CODE.
  unfold contains at 1 2 3 4 5 6 7 8 9 10 11 12 13 14 15 16 17 18 19 20 21 22 23 24 25.
  fold contains. rewrite !(contains_cons_absent _ _ _ Hno), !orb_false_r.
  destruct Hlv as [-> | [-> | ->]]; done.
Qed.

Lemma code_marker_counted m :
  code_marker m ->
  counts_toward (lit "L4") m = false /\
  Nat.b2n (counts_toward (lit "L1") m) + Nat.b2n (counts_toward (lit "L2") m)
  + Nat.b2n (counts_toward (lit "L3") m) + Nat.b2n (counts_toward (lit "CODE") m) = 1.
Proof.
  intros (p & a & d & Hlen & Hd & ->).
  assert (contains [laquo] (lit "CODE:" ++ (if p then lit "~" else []) ++ d
                              ++ (if a then lit "*" else []) ++ [raquo]) = false) as Hno.
  { apply contains_absent. apply Forall_app. split; [by repeat constructor|].
    apply Forall_app. split; [by destruct p; repeat constructor|].
    apply Forall_app. split; [|by destruct a; repeat constructor].
    eapply Forall_impl; [exact Hd|]. apply digit_not_laquo. }
  unfold counts_toward, has_L1, has_L2, has_L3, has_L4, has_CODE.
  unfold contains at 1 2 3 4 5 6 7 8 9 10 11 12 13 14 15 16 17 18 19 20 21 22 23 24 25.
  fold contains. rewrite !(contains_cons_absent _ _ _ Hno), !orb_false_r.
  done.
Qed.

Lemma count_if_app f l1 l2 : count_if f (l1 ++ l2) = count_if f l1 + count_if f l2.
Proof. unfold count_if. by rewrite List.filter_app, length_app. Qed.

Lemma count_if_b2n f line : count_if f [line] = Nat.b2n (f line).
Proof. unfold count_if. simpl. by destruct (f line). Qed.

Lemma marked_lines_counted markers : forall lines,
  length markers = length lines ->
  Forall well_formed markers ->
  Forall (fun l => contains [laquo] (text l) = false) lines ->
  let out := mjoin (zip_with emitted markers lines) in
  count_if (counts_toward (lit "L4")) out = 0 /\
  length lines
  + (count_if (counts_toward (lit "L1")) out + count_if (counts_toward (lit "L2")) out
     + count_if (counts_toward (lit "L3")) out + count_if (counts_toward (lit "CODE")) out)
  = length out.
Proof.
  induction markers as [|m ms IH]; intros [|l ls] Hlen Hwf Hno; try done.
  cbn zeta.
  change (mjoin (zip_with emitted (m :: ms) (l :: ls)))
    with (emitted m l ++ mjoin (zip_with emitted ms ls)).
  change (length (l :: ls)) with (S (length ls)).
  inversion Hwf as [|? ? Hm Hms]; subst. inversion Hno as [|? ? Hl Hls]; subst.
  destruct (IH ls) as [IH4 IHsum]; [by injection Hlen|done|done|]. cbn zeta in IHsum.
  assert (forall f, count_if f (emitted m l)
                    = match m with Some x => Nat.b2n (f x) | None => 0 end
                      + Nat.b2n (f (text l))) as Hem.
  { intros f. unfold emitted. rewrite count_if_app, count_if_b2n.
    destruct m; [|done]. apply (f_equal (fun n => n + _)), count_if_b2n. }
  assert (length (emitted m l) = match m with Some _ => 2 | None => 1 end) as Hlem
    by (by destruct m).
  rewrite !count_if_app, !length_app, !Hem, Hlem.
  rewrite !(text_line_not_counted _ _ Hl).
  change (Nat.b2n false) with 0.
  destruct m as [m|].
  - assert (counts_toward (lit "L4") m = false /\
            Nat.b2n (counts_toward (lit "L1") m) + Nat.b2n (counts_toward (lit "L2") m)
            + Nat.b2n (counts_toward (lit "L3") m)
            + Nat.b2n (counts_toward (lit "CODE") m) = 1) as [H4 H1].
    { destruct (Hm m eq_refl);
        [by apply header_marker_counted|by apply code_marker_counted]. }
    rewrite H4. change (Nat.b2n false) with 0. split; lia.
  - split; lia.
Qed.

(** The statistics that [process_pdf] prints, under the built-in
    configuration and for lines that hold no opening guillemet: every
    inserted marker is counted in exactly one of L1, L2, L3 and CODE, no line
    of text is counted, and the counter L4 stays at zero. *)
Theorem stats_of_marked_text (lines : list TextLine) :
  let out := mark_text (TextMarker_init default_config) lines in
  let stats := _calculate_stats out default_config in
  Forall (fun l => contains [laquo] (text l) = false) lines ->
  exists n1 n2 n3 nc,
    stats !! lit "L1" = Some n1 /\ stats !! lit "L2" = Some n2 /\
    stats !! lit "L3" = Some n3 /\ stats !! lit "CODE" = Some nc /\
    stats !! lit "L4" = Some 0 /\
    length out = length lines + (n1 + n2 + n3 + nc).
Proof.
  intros out stats Hno. unfold stats, _calculate_stats.
  rewrite !count_lines_lookup.
  unfold out, mark_text, mark_run.
  destruct (mark_loop_grammar lines None initial_state) as (ms & Hlen & Hwf & Hout).
  simpl in Hout. simpl. rewrite Hout.
  destruct (marked_lines_counted ms lines Hlen Hwf Hno) as [H4 Hsum].
  simpl in H4, Hsum.
  eexists _, _, _, _. repeat split; try reflexivity.
  - simpl. by rewrite H4.
  - simpl. lia.
Qed.

Lemma stats_of_marked_text_witness :
  let lines := [line_of (lit "RULES OF APPLICATION"); line_of (lit "ANESTHESIA");
                line_of (lit "8540 Complete History and Physical Examination");
                line_of (lit "plain text here")] in
  let out := mark_text (TextMarker_init default_config) lines in
  let stats := _calculate_stats out default_config in
  exists n1 n2 n3 nc,
    stats !! lit "L1" = Some n1 /\ stats !! lit "L2" = Some n2 /\
    stats !! lit "L3" = Some n3 /\ stats !! lit "CODE" = Some nc /\
    stats !! lit "L4" = Some 0 /\
    length out = length lines + (n1 + n2 + n3 + nc).
Proof.
  intros lines out stats. apply (stats_of_marked_text lines).
  repeat constructor.
Defined.

(** ** Short lines *)

Lemma reaches_min_len ic r st st' :
  reaches ic r st st' -> m_pos st + min_len r <= m_pos st'.
Proof.
  induction 1 as [st|p c rest pos g _|c rest pos g _|neg items c rest pos g _
                  |st _|st _|r1 r2 st mid st' _ IH1 _ IH2
                  |r1 r2 st st' _ IH|r1 r2 st st' _ IH
                  |r hi greedy st|r lo hi greedy st mid st' _ _ IH1 _ _ IH2
                  |n r st st' _ IH]; simpl in *; try lia.
  destruct lo as [|lo]; simpl in *; lia.
Qed.

Lemma short_no_match ic r st st' :
  reaches ic r st st' -> min_len r <= length (m_rest st).
Proof.
  intros H. pose proof (reaches_min_len _ _ _ _ H) as Hmin.
  apply reaches_consumes in H as (u & E & Hpos). rewrite E, length_app. lia.
Qed.

Lemma short_no_search ic r text :
  length text < min_len r -> found (re_search (Pattern r ic) text) = false.
Proof.
  intros Hlen. destruct (found (re_search (Pattern r ic) text)) eqn:E; [|done].
  apply search_from_sound in E as (k & e & Hk & He).
  apply short_no_match in He. simpl in He. rewrite length_drop in He. lia.
Qed.

Lemma short_no_search_any ic rs text n :
  forallb (fun r => n <=? min_len r) rs = true -> length text < n ->
  existsb (fun pattern => found (re_search (Pattern pattern ic) text)) rs = false.
Proof.
  intros H Hlen. induction rs as [|r rs IH]; simpl in *; [done|].
  apply andb_true_iff in H as [Hr Hrs]. apply Nat.leb_le in Hr.
  rewrite short_no_search by lia. by apply IH.
Qed.

Lemma title_word_one c : title_word [c] = false.
Proof. all_chars c. Qed.

(** A text of at most three characters has at most two words, and then of
    one character each; none is in title case. *)
Lemma short_no_title s :
  length s <= 3 ->
  (2 <=? length (split s)) && (length (split s) <=? 5)
  && (length (split s) <=? 2 * length (filter (fun w => title_word w = true) (split s)))
  = false.
Proof.
  intros Hlen.
  destruct s as [|a [|b [|c [|]]]]; try (simpl in Hlen; lia); unfold split; simpl;
    repeat match goal with
           | |- context [is_space ?x] => destruct (is_space x)
           end; simpl; try done.
  change (reverse [a]) with [a]. change (reverse [c]) with [c].
  rewrite !filter_cons, !title_word_one. by rewrite !decide_False by done.
Qed.

Lemma short_no_level self line :
  length (strip (text line)) <= 3 ->
  _matches_l1 self line = false /\ _matches_l2 self line = false /\
  _matches_l3 self line = false.
Proof.
  intros Hlen. unfold _matches_l1, _matches_l2, _matches_l3.
  rewrite (short_no_search false specialty_heading_re) by (simpl; lia).
  rewrite (short_no_search_any true major_sections _ 4) by (done || lia).
  rewrite (short_no_search_any true l2_specific _ 4) by (done || lia).
  rewrite (short_no_search_any true l3_specific _ 4) by (done || lia).
  rewrite (short_no_title _ Hlen), !andb_false_r.
  assert ((15 <? length (strip (text line))) = false) as -> by (apply Nat.ltb_ge; lia).
  rewrite !andb_false_r. simpl.
  repeat split; repeat match goal with |- context [if ?b then _ else _] => destruct b end;
    done.
Qed.

Lemma short_no_code_info self text :
  length (strip text) <= 3 -> extract_code_info self text = None.
Proof.
  intros Hlen. unfold extract_code_info.
  assert (forall r, (forall e, reaches false r (MState 0 (strip text) []) e ->
                               4 <= length (strip text)) ->
                    re_match (Pattern r false) (strip text) = None) as Hnone.
  { intros r Hr.
    pose proof (no_reach_re_match (Pattern r false) (strip text)) as Hf.
    destruct (re_match (Pattern r false) (strip text)); [|done].
    discriminate Hf. intros e He%Hr. lia. }
  rewrite !Hnone; [done|..]; intros e; apply code_needs_four_digits.
Qed.

(** Whatever the configuration, an active pass hands a line on alone, with
    no marker and the hierarchy as it was, when its trimmed text has at most
    three characters: a blank line, a page number, a stray word.  No header
    test and no code can succeed on so little. *)
Theorem short_line_passes (config : MarkerConfig) (line : TextLine)
    (prev : option TextLine) (st : mark_state) :
  let self := TextMarker_init config in
  content_started st = true ->
  length (strip (text line)) <= 3 ->
  mark_line self (compile_content_start config) prev line st = append (text line) st.
Proof.
  intros self Hst Hlen. unfold mark_line. rewrite Hst. simpl.
  destruct (should_skip _ line); [done|].
  destruct (short_no_level (HierarchyDetector_init config) line Hlen) as (H1 & H2 & H3).
  unfold detect_level. rewrite H1, H2, H3.
  destruct (_is_tariff_code _ _); [|done].
  by rewrite short_no_code_info.
Qed.

Lemma short_line_passes_witness :
  let self := TextMarker_init default_config in
  let st := mark_run self [line_of (lit "RULES OF APPLICATION")] in
  let line := line_of (lit "  Ab ") in
  mark_line self (compile_content_start default_config) None line st
  = append (text line) st.
Proof.
  intros self st line. apply (short_line_passes default_config line None st).
  - reflexivity.
  - vm_compute. lia.
Defined.

(** ** The output, line after line *)

Lemma length_emitted_join_upper markers lines :
  length (mjoin (zip_with emitted markers lines)) <= 2 * length lines.
Proof.
  revert lines. induction markers as [|m ms IH]; intros [|l ls]; simpl; try lia.
  rewrite length_app. specialize (IH ls). unfold emitted at 1. rewrite length_app.
  destruct m; simpl; lia.
Qed.

(** [mark_text] never looks ahead and never goes back: the output for a
    longer input is the output for the lines so far, followed by the further
    lines, each preceded by at most one marker.  So the output has at most
    twice as many lines as the input. *)
Theorem mark_text_extends (config : MarkerConfig) (l1 l2 : list TextLine) :
  let self := TextMarker_init config in
  (exists markers : list (option str),
     length markers = length l2 /\
     mark_text self (l1 ++ l2) = mark_text self l1 ++ mjoin (zip_with emitted markers l2)) /\
  length (mark_text self (l1 ++ l2)) <= length (mark_text self l1) + 2 * length l2 /\
  length (mark_text self l2) <= 2 * length l2.
Proof.
  intros self. unfold mark_text, mark_run.
  assert (forall cs prev lines st,
            exists markers,
              length markers = length lines /\
              output (mark_loop self cs prev lines st)
              = output st ++ mjoin (zip_with emitted markers lines)) as Hemit
    by (intros; apply mark_loop_emits).
  rewrite mark_loop_app.
  destruct (Hemit (compile_content_start (tm_config self)) (last_line None l1) l2
              (mark_loop self (compile_content_start (tm_config self)) None l1
                 initial_state)) as (ms & Hlen & Hout).
  destruct (Hemit (compile_content_start (tm_config self)) None l2 initial_state)
    as (ms' & Hlen' & Hout').
  split; [by exists ms|]. rewrite Hout, Hout', length_app. simpl.
  pose proof (length_emitted_join_upper ms l2).
  pose proof (length_emitted_join_upper ms' l2). lia.
Qed.

(** ** Cleaning a header *)

Lemma strip_sublist s : strip s `sublist_of` s.
Proof.
  destruct (strip_decompose s) as (lead & trail & E & _).
  rewrite E at 2. apply sublist_inserts_l, sublist_inserts_r. done.
Qed.

(** The text bound to a level is what is left of the line: characters are
    only taken away, never added, changed or reordered, and what remains
    neither starts nor ends with whitespace. *)
Theorem clean_header_text_sublist (self : TextMarker) (text : str) :
  _clean_header_text self text `sublist_of` text /\
  tight (_clean_header_text self text) /\
  length (_clean_header_text self text) <= length text.
Proof.
  assert (_clean_header_text self text `sublist_of` text) as Hsub.
  { unfold _clean_header_text.
    etrans; [apply strip_sublist|]. etrans; apply re_delete_sublist. }
  split; [done|]. split; [|by apply sublist_length].
  unfold _clean_header_text.
  by destruct (strip_decompose
                 (re_delete (Pattern (plus space -:- page_ref -:- Eol) false)
                    (re_delete (Pattern (at_least 2 (Chr ".") -:- star Dot -:- Eol) false)
                       text))) as (? & ? & _ & _ & _ & ?).
Qed.

Lemma delete_from_unfold p fuel pos rest :
  delete_from p (S fuel) pos rest
  = match matches (p_ic p) (p_re p) (MState pos rest []) with
    | e :: _ =>
        if pos <? m_pos e then delete_from p fuel (m_pos e) (m_rest e)
        else match rest with
             | [] => []
             | c :: rest' => c :: delete_from p fuel (S pos) rest'
             end
    | [] => match rest with
            | [] => []
            | c :: rest' => c :: delete_from p fuel (S pos) rest'
            end
    end.
Proof. done. Qed.

Lemma delete_from_nil p fuel pos : delete_from p fuel pos [] = [].
Proof.
  destruct fuel as [|fuel]; simpl; [done|].
  destruct (matches (p_ic p) (p_re p) (MState pos [] [])) as [|e l] eqn:E; [done|].
  apply matches_head_reaches, reaches_consumes in E as (u & Eu & Pu). simpl in *.
  destruct u; [|done]. simpl in Pu.
  destruct (Nat.ltb_spec pos (m_pos e)); [lia|done].
Qed.

(** Characters at which no match can begin are kept. *)
Lemma delete_from_keep p h :
  nullable (p_re p) = false ->
  Forall (fun c => first (p_ic p) (p_re p) c = false) h ->
  forall fuel pos rest,
    delete_from p (length h + fuel) pos (h ++ rest)
    = h ++ delete_from p fuel (pos + length h) rest.
Proof.
  intros Hnull. induction 1 as [|c h Hc _ IH]; intros fuel pos rest; simpl.
  - by rewrite Nat.add_0_r.
  - destruct (matches (p_ic p) (p_re p) (MState pos (c :: h ++ rest) [])) as [|e l] eqn:E.
    + rewrite IH. by replace (S pos + length h) with (pos + S (length h)) by lia.
    + apply matches_head_reaches, reaches_first in E as [[_ Hn]|(c' & r' & Er & Hf & _)].
      * congruence.
      * simpl in Er. injection Er as <- _. congruence.
Qed.

(** Where no match begins at any position, nothing is deleted. *)
Lemma delete_from_none p : forall fuel pos rest,
  (forall k e, k <= length rest ->
               ~ reaches (p_ic p) (p_re p) (MState (pos + k) (drop k rest) []) e) ->
  delete_from p fuel pos rest = rest.
Proof.
  induction fuel as [|fuel IH]; intros pos rest Hno; simpl; [done|].
  destruct (matches (p_ic p) (p_re p) (MState pos rest [])) as [|e l] eqn:E.
  - destruct rest as [|c rest]; [done|]. f_equal. apply IH.
    intros k e Hk. replace (S pos + k) with (pos + S k) by lia.
    apply (Hno (S k) e). simpl. lia.
  - apply matches_head_reaches in E. exfalso. apply (Hno 0 e); [lia|].
    by rewrite Nat.add_0_r, drop_0.
Qed.

Lemma leader_first c :
  c <> "."%char ->
  first false (at_least 2 (Chr ".") -:- star Dot -:- Eol) c = false.
Proof.
  intros Hc. simpl. rewrite orb_false_r.
  destruct (chr_match false "." c) eqn:E; [|done]. by apply chr_dot in E.
Qed.

(** The dotted leader and all that follows it on the line is one match. *)
Lemma leader_deleted fuel pos dots tail :
  Forall (fun c => c = "."%char) dots -> 2 <= length dots ->
  Forall (fun c => c <> "010"%char) tail ->
  delete_from (Pattern (at_least 2 (Chr ".") -:- star Dot -:- Eol) false)
              (S fuel) pos (dots ++ tail) = [].
Proof.
  intros Hdots Hlen Htail. rewrite delete_from_unfold. cbn [p_ic p_re].
  destruct (matches false (at_least 2 (Chr ".") -:- star Dot -:- Eol)
              (MState pos (dots ++ tail) [])) as [|e l] eqn:E.
  - exfalso.
    assert (reaches false (at_least 2 (Chr ".") -:- star Dot -:- Eol)
              (MState pos (dots ++ tail) [])
              (MState (pos + length dots + length tail) [] [])) as H.
    { eapply R_seq.
      { apply (reaches_rep_prefix false _ (chr_match false ".") true 2 None dots);
          [apply eats_chr| |done|done].
        eapply Forall_impl; [exact Hdots|]. by intros c ->. }
      eapply R_seq.
      { rewrite <- (app_nil_r tail) at 1.
        apply (reaches_rep_prefix false _ (fun c => negb (Ascii.eqb c "010")) true
                 0 None tail); [apply eats_dot| |lia|done].
        eapply Forall_impl; [exact Htail|]. intros c Hc. simpl.
        destruct (Ascii.eqb_spec c "010"); done. }
      apply R_eol. by left. }
    apply matches_complete in H. rewrite E in H. by apply elem_of_nil in H.
  - apply matches_head_reaches in E.
    inv_seq E m1 Hd Hb. inv_seq Hb m2 Ht Heol.
    apply (reaches_rep_run _ _ _ _ _ _ _ _ (eats_chr _ _)) in Hd
      as (u1 & E1 & _ & Hlo & _ & P1 & _).
    apply (reaches_rep_run _ _ _ _ _ _ _ _ (eats_dot _)) in Ht
      as (u2 & E2 & _ & _ & _ & P2 & _).
    inversion Heol as [| | | | |? Hend| | | | | |]; subst.
    simpl in E1, P1. rewrite E2 in E1.
    assert (m_rest e = []) as Hrest.
    { destruct Hend as [?|Hend]; [done|]. exfalso.
      assert ("010"%char ∈ dots ++ tail) as Hin.
      { rewrite E1, Hend. rewrite !elem_of_app. right. right. by left. }
      apply elem_of_app in Hin as [Hin|Hin].
      - by apply (proj1 (Forall_forall _ _) Hdots) in Hin.
      - by apply (proj1 (Forall_forall _ _) Htail) in Hin. }
    destruct (Nat.ltb_spec pos (m_pos e)); [|lia].
    rewrite Hrest. apply delete_from_nil.
Qed.

Lemma page_ref_hyphen s e :
  reaches false (plus space -:- page_ref -:- Eol) s e -> "-"%char ∈ m_rest s.
Proof.
  intros H. inv_seq H m1 Hsp Hb. inv_seq Hb m2 Hp Heol.
  inv_seq Hp m3 Hl Hc. inv_seq Hc m4 Hh Hd.
  apply reaches_consumes in Hsp as (u & -> & _).
  inversion Hl; subst. simpl.
  inversion Hh as [|? c' ? ? ? Hm| | | | | | | | | |]; subst.
  apply Ascii.eqb_eq in Hm as <-.
  rewrite elem_of_app. right. right. by left.
Qed.

Lemma leader_cut (h dots tail : str) :
  Forall (fun c => c <> "."%char) h ->
  Forall (fun c => c = "."%char) dots -> 2 <= length dots ->
  Forall (fun c => c <> "010"%char) tail ->
  re_delete (Pattern (at_least 2 (Chr ".") -:- star Dot -:- Eol) false)
            (h ++ dots ++ tail) = h /\
  re_delete (Pattern (at_least 2 (Chr ".") -:- star Dot -:- Eol) false) h = h.
Proof.
  intros Hh Hdots Hlen Htail.
  assert (Forall (fun c => first false (at_least 2 (Chr ".") -:- star Dot -:- Eol) c
                           = false) h) as Hf
    by (eapply Forall_impl; [exact Hh|]; apply leader_first).
  unfold re_delete. split.
  - rewrite length_app.
    replace (S (length h + length (dots ++ tail)))
      with (length h + S (length (dots ++ tail))) by lia.
    rewrite (delete_from_keep
               (Pattern (at_least 2 (Chr ".") -:- star Dot -:- Eol) false) h eq_refl Hf).
    rewrite leader_deleted by done. by rewrite app_nil_r.
  - transitivity (delete_from
                    (Pattern (at_least 2 (Chr ".") -:- star Dot -:- Eol) false)
                    (length h + 1) 0 (h ++ []));
      [by rewrite app_nil_r, Nat.add_1_r|].
    rewrite (delete_from_keep
               (Pattern (at_least 2 (Chr ".") -:- star Dot -:- Eol) false) h eq_refl Hf).
    by rewrite delete_from_nil, !app_nil_r.
Qed.

(** A dotted leader of two or more full stops is cut off a header together
    with all that follows it on the line, the page reference of an index
    entry for one.  When the header before it holds no hyphen, what is bound
    is that header, trimmed. *)
Theorem clean_header_text_leader (self : TextMarker) (h dots tail : str) :
  Forall (fun c => c <> "."%char) h ->
  Forall (fun c => c = "."%char) dots -> 2 <= length dots ->
  Forall (fun c => c <> "010"%char) tail ->
  _clean_header_text self (h ++ dots ++ tail) = _clean_header_text self h /\
  ("-"%char ∉ h -> _clean_header_text self (h ++ dots ++ tail) = strip h).
Proof.
  intros Hh Hdots Hlen Htail.
  destruct (leader_cut h dots tail Hh Hdots Hlen Htail) as [E1 E2].
  unfold _clean_header_text. cbv zeta. rewrite E1, E2. split; [done|].
  intros Hno. f_equal. unfold re_delete. apply delete_from_none.
  intros k e Hk He. cbn [p_ic p_re] in He. apply page_ref_hyphen in He. simpl in He.
  apply Hno. rewrite <- (take_drop k h). apply elem_of_app. by right.
Qed.

Lemma clean_header_text_leader_witness :
  _clean_header_text (TextMarker_init default_config)
    (lit "Hospital Care " ++ lit "....." ++ lit " A-12")
  = strip (lit "Hospital Care ").
Proof.
  apply (clean_header_text_leader (TextMarker_init default_config)
           (lit "Hospital Care ") (lit ".....") (lit " A-12")).
  - repeat constructor; discriminate.
  - repeat constructor.
  - simpl. lia.
  - repeat constructor; discriminate.
  - intros H. repeat (apply elem_of_cons in H as [H|H]; [discriminate|]).
    by apply elem_of_nil in H.
Defined.

(** ** The hierarchy along a pass *)

Lemma mark_line_hierarchy self cs prev line st :
  current_hierarchy (mark_line self cs prev line st) = current_hierarchy st \/
  exists lv, (lv = L1 \/ lv = L2 \/ lv = L3) /\
    current_hierarchy (mark_line self cs prev line st)
    = update_hierarchy lv (_clean_header_text self (text line)) (current_hierarchy st).
Proof.
  unfold mark_line.
  destruct (negb (content_started st)).
  { left. by destruct (starts_content cs (text line)). }
  destruct (should_skip _ line); [by left|].
  destruct (detect_level _ line prev) as [lv|] eqn:Elv; [|by left].
  apply detect_level_header in Elv as [-> | Hlv].
  - left. by destruct (extract_code_info _ _).
  - right. exists lv. split; [done|]. by destruct Hlv as [-> | [-> | ->]].
Qed.

Lemma hierarchy_invariant_initial self : hierarchy_invariant self [] initial_hierarchy.
Proof.
  unfold hierarchy_invariant, initial_hierarchy. split; [done|]. split.
  - intros k. rewrite !lookup_insert_is_Some, lookup_empty.
    rewrite !elem_of_cons, elem_of_nil.
    pose proof (@is_Some_None str) as Hnone. simpl. intuition congruence.
  - intros k v H. left.
    repeat (apply lookup_insert_Some in H as [[_ <-]|[_ H]]; [done|]).
    by rewrite lookup_empty in H.
Qed.

Lemma hierarchy_invariant_mono self seen seen' h :
  seen ⊆ seen' -> hierarchy_invariant self seen h -> hierarchy_invariant self seen' h.
Proof.
  intros Hsub (H4 & Hk & Hv). split; [done|]. split; [done|].
  intros k v H. destruct (Hv k v H) as [?|(line & Hin & ?)]; [by left|].
  right. exists line. split; [by apply Hsub|done].
Qed.

Lemma hierarchy_invariant_update self seen line lv h :
  lv = L1 \/ lv = L2 \/ lv = L3 ->
  line ∈ seen ->
  hierarchy_invariant self seen h ->
  hierarchy_invariant self seen
    (update_hierarchy lv (_clean_header_text self (text line)) h).
Proof.
  intros Hlv Hin (H4 & Hk & Hv).
  destruct Hlv as [-> | [-> | ->]]; eval_hierarchy; (split; [by simplify_map_eq|]);
    (split;
      [intros k; rewrite !lookup_insert_is_Some, Hk, !elem_of_cons, elem_of_nil;
       destruct (decide (lit "L1" = k)), (decide (lit "L2" = k)),
         (decide (lit "L3" = k)), (decide (lit "L4" = k)); intuition congruence
      |intros k v H;
       repeat (apply lookup_insert_Some in H as [[_ <-]|[_ H]];
               [first [by left|right; by exists line]|]);
       by apply Hv in H]).
Qed.

Lemma mark_loop_hierarchy self cs lines : forall prev st seen,
  hierarchy_invariant self seen (current_hierarchy st) ->
  hierarchy_invariant self (seen ++ lines)
    (current_hierarchy (mark_loop self cs prev lines st)).
Proof.
  induction lines as [|line lines IH]; intros prev st seen Hinv; simpl.
  - by rewrite app_nil_r.
  - replace (seen ++ line :: lines) with ((seen ++ [line]) ++ lines)
      by (by rewrite <- app_assoc).
    apply IH.
    assert (hierarchy_invariant self (seen ++ [line]) (current_hierarchy st)) as Hinv'.
    { eapply hierarchy_invariant_mono; [|exact Hinv].
      intros x Hx. apply elem_of_app. by left. }
    destruct (mark_line_hierarchy self cs prev line st) as [-> | (lv & Hlv & ->)];
      [done|].
    apply hierarchy_invariant_update; [done| |done].
    apply elem_of_app. right. by left.
Qed.

(** Whatever the configuration and the lines, when [mark_text] is done the
    hierarchy still has the four keys L1 to L4 and no other, L4 is still
    bound to the empty text, as nothing ever binds it, and each of L1 to L3
    is bound to the empty text or to the cleaned text of one of the lines. *)
Theorem hierarchy_stays_in_shape (config : MarkerConfig) (lines : list TextLine) :
  let self := TextMarker_init config in
  hierarchy_invariant self lines (current_hierarchy (mark_run self lines)).
Proof.
  intros self. unfold mark_run.
  apply (mark_loop_hierarchy self _ lines None initial_state []).
  apply hierarchy_invariant_initial.
Qed.

(** ** A code alone on its line *)

Lemma bare_code_standalone (p a : bool) d :
  length d = 4 -> all_digits d ->
  found (re_match (Pattern standalone_code_re false)
           ((if p then lit "~" else []) ++ d ++ (if a then lit "*" else []) ++ []))
  = true.
Proof.
  intros Hlen Hd.
  destruct d as [|d1 [|d2 [|d3 [|d4 [|]]]]]; try discriminate.
  assert (Forall (fun c => cls_match false false [CDigit] c = true) [d1; d2; d3; d4])
    as Hd' by (eapply Forall_impl; [exact Hd|]; intros ?; apply cls_digit).
  destruct p, a; simpl;
    eapply (reaches_re_match (Pattern standalone_code_re false));
    (eapply R_seq; [by apply R_bol|]);
    (eapply R_seq;
      [first [eapply R_rep_more;
                [done|apply R_cls; reflexivity|simpl; lia|apply R_rep_stop]
             |apply R_rep_stop]|]);
    (eapply R_seq;
      [apply (reaches_rep_prefix false digit (cls_match false false [CDigit]) true
                4 (Some 4) [d1; d2; d3; d4]);
         [apply eats_cls|exact Hd'|simpl; lia|intros h [= <-]; simpl; lia]|]);
    (eapply R_seq;
      [first [eapply R_rep_more;
                [done|apply R_cls; reflexivity|simpl; lia|apply R_rep_stop]
             |apply R_rep_stop]|]);
    (eapply R_seq; [apply R_rep_stop|]);
    apply R_eol; by left.
Qed.

(** Whatever the configuration, a line that is a code and nothing else, an
    optional tilde, four digits and an optional asterisk between optional
    whitespace, is taken for a tariff code; an active pass that does not
    skip it puts the code marker of the configured template before it. *)
Theorem bare_code_line_marked (config : MarkerConfig) (line : TextLine)
    (prev : option TextLine) (st : mark_state) (p a : bool) (d : str) :
  let self := TextMarker_init config in
  strip (text line) = (if p then lit "~" else []) ++ d ++ (if a then lit "*" else []) ->
  length d = 4 -> all_digits d ->
  detect_level (tm_detector self) line prev = Some CODE /\
  (content_started st = true -> should_skip (tm_detector self) line = false ->
   mark_line self (compile_content_start config) prev line st
   = append (text line) (append (_format_code_marker self d p a) st)).
Proof.
  intros self Es Hlen Hd.
  assert (detect_level (tm_detector self) line prev = Some CODE) as Hlv.
  { unfold detect_level, _is_tariff_code. rewrite strip_strip, Es.
    destruct (found (re_match _ _)); [done|].
    pose proof (bare_code_standalone p a d Hlen Hd) as Hs.
    rewrite app_nil_r in Hs. by rewrite Hs. }
  split; [done|]. intros Hst Hskip.
  assert (code_shape (strip (text line)) p a d) as Hshape.
  { exists []. rewrite app_nil_r. by repeat split. }
  destruct (code_shape_found (tm_detector self) _ _ _ _ Hshape) as [info Hi].
  pose proof (extract_code_info_sound _ _ _ Hi) as Hs'.
  destruct (code_shape_unique _ _ _ _ _ _ _ Hs' Hshape) as (Ep & Ea & Ed).
  unfold mark_line. rewrite Hst. cbn [negb]. rewrite Hskip, Hlv, Hi.
  by rewrite Ep, Ea, Ed.
Qed.

Lemma bare_code_line_marked_witness :
  let self := TextMarker_init anchored_config in
  let line := line_of (lit "  ~0171* ") in
  detect_level (tm_detector self) line None = Some CODE.
Proof.
  intros self line.
  apply (bare_code_line_marked anchored_config line None initial_state true true
           (lit "0171")).
  - reflexivity.
  - reflexivity.
  - repeat constructor.
Defined.

(** ** The counters and the order of the lines *)

Lemma count_if_perm f l1 l2 : l1 ≡ₚ l2 -> count_if f l1 = count_if f l2.
Proof.
  unfold count_if. induction 1 as [|x l l' _ IH|x y l|l l' l'' _ IH1 _ IH2]; simpl.
  - done.
  - destruct (f x); simpl; by rewrite IH.
  - by destruct (f x), (f y).
  - by rewrite IH1.
Qed.

Lemma calculate_stats_lookup lines config key :
  _calculate_stats lines config !! key
  = (fun n => n + count_if (counts_toward key) lines) <$> initial_stats !! key.
Proof. apply count_lines_lookup. Qed.

Lemma initial_stats_keys key :
  (initial_stats !! key = Some 0 /\
   key ∈ [lit "L1"; lit "L2"; lit "L3"; lit "L4"; lit "CODE"; lit "provisional";
          lit "asterisked"]) \/
  (initial_stats !! key = None /\
   key ∉ [lit "L1"; lit "L2"; lit "L3"; lit "L4"; lit "CODE"; lit "provisional";
          lit "asterisked"]).
Proof.
  unfold initial_stats. rewrite !lookup_insert, lookup_empty.
  rewrite !elem_of_cons, elem_of_nil.
  repeat case_decide; subst; intuition congruence.
Qed.

(** The counters do not depend on the order of the lines: the counts of two
    lists add up to the counts of their concatenation, and rearranging the
    lines changes no counter.  The result always has the seven keys of the
    statistics and no other. *)
Theorem calculate_stats_order (config : MarkerConfig) :
  (forall l1 l2 key n1 n2,
     _calculate_stats l1 config !! key = Some n1 ->
     _calculate_stats l2 config !! key = Some n2 ->
     _calculate_stats (l1 ++ l2) config !! key = Some (n1 + n2)) /\
  (forall l1 l2, l1 ≡ₚ l2 -> _calculate_stats l1 config = _calculate_stats l2 config) /\
  (forall lines key,
     is_Some (_calculate_stats lines config !! key) <->
     key ∈ [lit "L1"; lit "L2"; lit "L3"; lit "L4"; lit "CODE"; lit "provisional";
            lit "asterisked"]).
Proof.
  split; [|split].
  - intros l1 l2 key n1 n2. rewrite !calculate_stats_lookup, count_if_app.
    destruct (initial_stats_keys key) as [[-> _]|[-> _]]; simpl.
    + by intros [= <-] [= <-].
    + done.
  - intros l1 l2 Hp. apply map_eq. intros key.
    by rewrite !calculate_stats_lookup, (count_if_perm _ _ _ Hp).
  - intros lines key. rewrite calculate_stats_lookup.
    destruct (initial_stats_keys key) as [[-> Hin]|[-> Hout]]; simpl.
    + split; [done|]. by eexists.
    + split; [|done]. intros [? [=]].
Qed.

Lemma calculate_stats_order_witness :
  _calculate_stats ([laquo :: lit "L1:ANESTHESIA" ++ [raquo]; lit "ANESTHESIA"]
                    ++ [laquo :: lit "L1:MATERNITY" ++ [raquo]; lit "MATERNITY"])
                   default_config !! lit "L1"
  = Some (1 + 1).
Proof.
  apply (proj1 (calculate_stats_order default_config)); reflexivity.
Defined.

(** ** The fields of the configuration that are not read *)

Lemma mark_line_unread config l3_size l1 l2 l3 pm am prev line st :
  let config' := with_unread_fields config l3_size l1 l2 l3 pm am in
  mark_line (TextMarker_init config') (compile_content_start config') prev line st
  = mark_line (TextMarker_init config) (compile_content_start config) prev line st.
Proof. reflexivity. Qed.

Lemma mark_loop_unread config l3_size l1 l2 l3 pm am lines : forall prev st,
  let config' := with_unread_fields config l3_size l1 l2 l3 pm am in
  mark_loop (TextMarker_init config') (compile_content_start config') prev lines st
  = mark_loop (TextMarker_init config) (compile_content_start config) prev lines st.
Proof.
  induction lines as [|line lines IH]; intros prev st config'; simpl; [done|].
  unfold config'. by rewrite mark_line_unread, IH.
Qed.

(** The marking reads neither the three lists of level patterns of the
    configuration, nor its L3 font size, nor its two code markers: the
    header tests use the lists written in the program, and the code marker
    is built from the tilde and the asterisk themselves.  Changing those six
    fields changes neither the level of a line nor the output. *)
Theorem unread_fields_change_nothing (config : MarkerConfig) (l3_size : Q)
    (l1 l2 l3 : list regex) (provisional asterisk : str) :
  let config' := with_unread_fields config l3_size l1 l2 l3 provisional asterisk in
  (forall line prev,
     detect_level (HierarchyDetector_init config') line prev
     = detect_level (HierarchyDetector_init config) line prev) /\
  (forall lines,
     mark_text (TextMarker_init config') lines = mark_text (TextMarker_init config) lines).
Proof.
  intros config'. split; [done|].
  intros lines. unfold mark_text, mark_run. f_equal. apply mark_loop_unread.
Qed.

(** ** The lines that the extraction hands over *)

Lemma foldl_invariant {A B : Type} (P : A -> Prop) (f : A -> B -> A) l : forall a,
  P a -> (forall a x, P a -> P (f a x)) -> P (foldl f a l).
Proof. induction l as [|x l IH]; intros a Ha Hf; simpl; [done|]. apply IH; auto. Qed.

Lemma extraction_invariant_mono p p' st :
  (p <= p')%Z -> extraction_invariant p st -> extraction_invariant p' st.
Proof.
  intros Hp (Hn & Hnum & Hall & Hsort). split; [done|]. split; [done|]. split; [|done].
  eapply Forall_impl; [exact Hall|]. intros l [? ?]. split; [done|lia].
Qed.

Lemma line_step_invariant mean p st line_data :
  (1 <= p)%Z -> extraction_invariant p st ->
  extraction_invariant p (line_step mean p st line_data).
Proof.
  intros Hp Hinv. unfold line_step.
  destruct (default [] (ld_spans line_data)) as [|span spans]; [done|].
  destruct (foldl span_step ([], [], false) (span :: spans)) as [[parts sizes] bold].
  destruct (strip (mjoin parts)) as [|c s] eqn:Es; [done|].
  destruct (default (0%Q, 0%Q, 0%Q, 0%Q) (ld_bbox line_data)) as [[[x0 y0] ?] ?].
  destruct st as [lines n]. destruct Hinv as (Hn & Hnum & Hall & Hsort). simpl in *.
  subst n. split; [|split; [|split]]; simpl.
  - rewrite length_app. simpl. lia.
  - rewrite fmap_app, length_app, Hnum. simpl.
    rewrite seq_app, fmap_app. simpl. do 3 f_equal. lia.
  - apply Forall_app. split; [done|]. constructor; [|done]. simpl.
    split; [by rewrite Es|lia].
  - intros i j li lj Hij Hi Hj.
    destruct (decide (j < length lines)) as [Hlt|Hge].
    + rewrite lookup_app_l in Hi, Hj by lia. by apply (Hsort i j).
    + rewrite lookup_app_r in Hj by lia.
      destruct (j - length lines) as [|k] eqn:Ek; [|done]. injection Hj as <-. simpl.
      destruct (decide (i < length lines)) as [Hlt|Hge'].
      * rewrite lookup_app_l in Hi by lia.
        apply list_elem_of_lookup_2 in Hi.
        by apply (proj1 (Forall_forall _ _) Hall) in Hi as [_ [_ ?]].
      * rewrite lookup_app_r in Hi by lia.
        destruct (i - length lines) as [|k'] eqn:Ek'; [|done]. by injection Hi as <-.
Qed.

Lemma page_step_invariant mean p st page :
  (1 <= p)%Z -> extraction_invariant p st ->
  extraction_invariant p (page_step mean st (p, page)).
Proof.
  intros Hp Hinv. unfold page_step. simpl.
  apply foldl_invariant; [done|]. intros st' block Hst'. unfold block_step.
  destruct (negb (block_type block =? 0)%Z); [done|].
  apply foldl_invariant; [done|]. intros st'' line_data Hst''.
  by apply line_step_invariant.
Qed.

Lemma pages_invariant mean pages : forall p st,
  (0 <= p)%Z -> extraction_invariant p st ->
  extraction_invariant (p + Z.of_nat (length pages))
    (foldl (page_step mean) st (enumerate (p + 1) pages)).
Proof.
  induction pages as [|page pages IH]; intros p st Hp Hinv; cbn [length enumerate foldl].
  - by rewrite Z.add_0_r.
  - replace (p + Z.of_nat (S (length pages)))%Z
      with ((p + 1) + Z.of_nat (length pages))%Z by lia.
    apply (IH (p + 1)%Z (page_step mean st ((p + 1)%Z, page))); [lia|].
    apply page_step_invariant; [lia|].
    eapply extraction_invariant_mono; [|exact Hinv]. lia.
Qed.

(** Whatever the document, the lines that the extraction with PyMuPDF hands
    over are numbered 1, 2, 3 and so on, in the order of the list; none is
    blank; and their page numbers, between 1 and the number of pages, never
    decrease along the list. *)
Theorem extract_with_pymupdf_lines (mean : list Q -> Q) (doc : Doc) :
  let lines := _extract_with_pymupdf mean doc in
  line_num <$> lines = (fun k => Z.of_nat k) <$> seq 1 (length lines) /\
  Forall (fun l => strip (text l) <> [] /\
                   (1 <= page_num l <= Z.of_nat (length doc))%Z) lines /\
  (forall i j li lj, i <= j -> lines !! i = Some li -> lines !! j = Some lj ->
                     (page_num li <= page_num lj)%Z).
Proof.
  intros lines.
  destruct (pages_invariant mean doc 0 ([], 0%Z)) as (_ & Hnum & Hall & Hsort);
    [lia| |done].
  split; [done|]. split; [done|]. split; [by constructor|]. by intros i j li lj _ [=].
Qed.

Lemma extract_with_pymupdf_lines_witness :
  let span := fun s => {| span_text := Some (lit s); span_size := Some 11%Q;
                          span_font := Some (lit "Helvetica-Bold") |} in
  let line := fun s => {| ld_spans := Some [span s];
                          ld_bbox := Some (72%Q, 90%Q, 300%Q, 102%Q) |} in
  let doc := [[{| block_type := 0; block_lines := Some [line "ANESTHESIA"; line "  "] |}];
              [{| block_type := 1; block_lines := None |};
               {| block_type := 0;
                  block_lines := Some [line "Hospital "; line "Care"] |}]] in
  let lines := _extract_with_pymupdf (fun _ => 11%Q) doc in
  let first_line := {| text := lit "ANESTHESIA"; page_num := 1; top := 90; left := 72;
                       font_size := 11; is_bold := true; line_num := 1 |} in
  let third_line := {| text := lit "Care"; page_num := 2; top := 90; left := 72;
                       font_size := 11; is_bold := true; line_num := 3 |} in
  (page_num first_line <= page_num third_line)%Z.
Proof.
  intros span line doc lines first_line third_line.
  apply (proj2 (proj2 (extract_with_pymupdf_lines (fun _ => 11%Q) doc))
           0 2 first_line third_line); [lia|reflexivity|reflexivity].
Defined.

(** ** The file that is written *)

Lemma line_feeds_app s t : line_feeds (s ++ t) = line_feeds s + line_feeds t.
Proof. unfold line_feeds. by rewrite List.filter_app, length_app. Qed.

Lemma line_feeds_none s :
  Forall (fun c => Ascii.eqb "010" c = false) s -> line_feeds s = 0.
Proof.
  unfold line_feeds. induction 1 as [|c s Hc _ IH]; [done|].
  cbn [List.filter]. by rewrite Hc.
Qed.

Lemma line_feeds_contains s : contains ["010"%char] s = false -> line_feeds s = 0.
Proof.
  intros H. apply line_feeds_none. induction s as [|c s IH]; [done|].
  cbn [contains starts_with] in H. destruct (Ascii.eqb "010" c) eqn:Ec; [done|].
  constructor; [done|]. by apply IH.
Qed.

Lemma written_line_feeds ls :
  Forall (fun l => line_feeds l = 0) ls -> line_feeds (written ls) = length ls.
Proof.
  induction 1 as [|l ls Hl _ IH]; [done|].
  change (written (l :: ls)) with ((l ++ ["010"%char]) ++ written ls).
  by rewrite !line_feeds_app, Hl, IH.
Qed.

Lemma marker_char_not_line_feed c :
  is_marker_char c = true -> Ascii.eqb "010" c = false.
Proof. all_chars c. Qed.

Lemma digit_not_line_feed c : is_digit c = true -> Ascii.eqb "010" c = false.
Proof. all_chars c. Qed.

Lemma marker_line_feeds m : header_marker m \/ code_marker m -> line_feeds m = 0.
Proof.
  intros [(lv & v & Hlv & Hv & ->)|(p & a & d & Hlen & Hd & ->)]; apply line_feeds_none.
  - constructor; [done|].
    apply Forall_app. split; [by destruct Hlv as [-> | [-> | ->]]; repeat constructor|].
    apply Forall_app. split; [by repeat constructor|].
    apply Forall_app. split; [|by repeat constructor].
    eapply Forall_impl; [exact Hv|]. apply marker_char_not_line_feed.
  - constructor; [done|].
    apply Forall_app. split; [by repeat constructor|].
    apply Forall_app. split; [by destruct p; repeat constructor|].
    apply Forall_app. split; [|by destruct a; repeat constructor].
    eapply Forall_impl; [exact Hd|]. apply digit_not_line_feed.
Qed.

Lemma emitted_line_feeds markers : forall lines,
  length markers = length lines ->
  Forall well_formed markers ->
  Forall (fun l => contains ["010"%char] (text l) = false) lines ->
  Forall (fun l => line_feeds l = 0) (mjoin (zip_with emitted markers lines)).
Proof.
  induction markers as [|m ms IH]; intros [|l ls] Hlen Hwf Hno; try done.
  inversion Hwf as [|? ? Hm Hms]; subst. inversion Hno as [|? ? Hl Hls]; subst.
  change (mjoin (zip_with emitted (m :: ms) (l :: ls)))
    with (emitted m l ++ mjoin (zip_with emitted ms ls)).
  apply Forall_app. split; [|apply IH; [by injection Hlen|done|done]].
  unfold emitted. apply Forall_app. split.
  - destruct m as [m|]; [|constructor]. constructor; [|constructor].
    by apply marker_line_feeds, Hm.
  - constructor; [|constructor]. by apply line_feeds_contains.
Qed.

(** With the built-in configuration and lines that hold no line feed,
    [process_pdf] writes every marked line on a line of its own: the file has
    as many line feeds as [mark_text] returned lines, between once and twice
    the number of lines extracted. *)
Theorem process_pdf_writes_lines (lines : list TextLine) :
  Forall (fun l => contains ["010"%char] (text l) = false) lines ->
  let file := fst (process_pdf lines None) in
  line_feeds file = length (mark_text (TextMarker_init default_config) lines) /\
  length lines <= line_feeds file <= 2 * length lines.
Proof.
  intros Hno file. unfold file, process_pdf. simpl.
  unfold mark_text, mark_run.
  destruct (mark_loop_grammar lines None initial_state) as (ms & Hlen & Hwf & Hout).
  simpl in Hout. simpl. rewrite Hout.
  rewrite written_line_feeds by (by apply emitted_line_feeds).
  split; [done|].
  pose proof (length_emitted_join ms lines Hlen).
  pose proof (length_emitted_join_upper ms lines). lia.
Qed.

Lemma process_pdf_writes_lines_witness :
  let lines := [line_of (lit "RULES OF APPLICATION"); line_of (lit "Hospital Care");
                line_of (lit "8540 Complete History and Physical Examination")] in
  let file := fst (process_pdf lines None) in
  line_feeds file = length (mark_text (TextMarker_init default_config) lines) /\
  length lines <= line_feeds file <= 2 * length lines.
Proof.
  intros lines. apply (process_pdf_writes_lines lines). repeat constructor.
Defined.

(** ** The length of a header *)

Lemma matches_l1_bounds self line :
  _matches_l1 self line = true ->
  6 <= length (strip (text line)) <= 80 /\
  found (re_search (d_fee_pattern self) (strip (text line))) = false /\
  found (re_match (d_code_pattern self) (strip (text line))) = false.
Proof.
  unfold _matches_l1.
  destruct (Nat.ltb_spec 80 (length (strip (text line)))) as [|Hle]; [done|].
  destruct (found (re_search (d_fee_pattern self) _)); [done|].
  destruct (found (re_match (d_code_pattern self) _)); [done|].
  intros H. split; [|done]. split; [|done].
  destruct (Nat.le_gt_cases 6 (length (strip (text line)))) as [|Hlt]; [done|].
  rewrite (short_no_search false specialty_heading_re) in H by (simpl; lia).
  rewrite (short_no_search_any true major_sections _ 6) in H by (done || lia).
  assert ((15 <? length (strip (text line))) = false) as E by (apply Nat.ltb_ge; lia).
  rewrite E, !andb_false_r in H. simpl in H. done.
Qed.

Lemma matches_l2_bounds self line :
  _matches_l2 self line = true ->
  4 <= length (strip (text line)) <= 60 /\
  found (re_search (d_fee_pattern self) (strip (text line))) = false /\
  found (re_match (d_code_pattern self) (strip (text line))) = false.
Proof.
  intros H.
  assert (4 <= length (strip (text line))) as Hmin.
  { destruct (Nat.le_gt_cases 4 (length (strip (text line)))) as [|Hlt]; [done|].
    destruct (short_no_level self line) as (_ & H2 & _); [lia|]. congruence. }
  revert H. unfold _matches_l2.
  destruct (Nat.ltb_spec 60 (length (strip (text line)))) as [|Hle]; [done|].
  destruct (found (re_search (d_fee_pattern self) _)); [done|].
  destruct (found (re_match (d_code_pattern self) _)); [done|].
  intros _. by repeat split.
Qed.

Lemma matches_l3_bounds self line :
  _matches_l3 self line = true ->
  6 <= length (strip (text line)) <= 40 /\
  found (re_search (d_fee_pattern self) (strip (text line))) = false /\
  found (re_match (d_code_pattern self) (strip (text line))) = false.
Proof.
  unfold _matches_l3.
  destruct (Nat.ltb_spec 40 (length (strip (text line)))) as [|Hle]; [done|].
  destruct (found (re_search (d_fee_pattern self) _)); [done|].
  destruct (found (re_match (d_code_pattern self) _)); [done|].
  intros H. split; [|done]. split; [|done].
  destruct (Nat.le_gt_cases 6 (length (strip (text line)))) as [|Hlt]; [done|].
  rewrite (short_no_search_any true l3_specific _ 6) in H by (done || lia). done.
Qed.

(** Whatever the configuration, a line that [detect_level] takes for a
    header has a trimmed text of 6 to 80 characters at level L1, of 4 to 60
    at level L2 and of 6 to 40 at level L3; it holds no fee, and the code
    pattern does not match it.  Level L4 is never returned. *)
Theorem header_length_bounds (config : MarkerConfig) (line : TextLine)
    (prev : option TextLine) (lv : level) :
  let self := HierarchyDetector_init config in
  let n := length (strip (text line)) in
  detect_level self line prev = Some lv ->
  lv <> CODE ->
  match lv with
  | L1 => 6 <= n <= 80
  | L2 => 4 <= n <= 60
  | L3 => 6 <= n <= 40
  | _ => False
  end /\
  found (re_search (Pattern (fee_pattern config) false) (strip (text line))) = false /\
  found (re_match (Pattern (code_pattern config) false) (strip (text line))) = false.
Proof.
  intros self n. unfold detect_level.
  destruct (_is_tariff_code self _); [by intros [= <-]|].
  destruct (_matches_l1 self line) eqn:E1.
  { intros [= <-] _. by apply matches_l1_bounds in E1 as (? & ? & ?). }
  destruct (_matches_l2 self line) eqn:E2.
  { intros [= <-] _. by apply matches_l2_bounds in E2 as (? & ? & ?). }
  destruct (_matches_l3 self line) eqn:E3; [|done].
  intros [= <-] _. by apply matches_l3_bounds in E3 as (? & ? & ?).
Qed.

Lemma header_length_bounds_witness :
  let line := line_of (lit "  Hospital Care  ") in
  4 <= length (strip (text line)) <= 60 /\
  found (re_search (Pattern (fee_pattern default_config) false) (strip (text line)))
  = false /\
  found (re_match (Pattern (code_pattern default_config) false) (strip (text line)))
  = false.
Proof.
  intros line.
  apply (header_length_bounds default_config line None L2); [reflexivity|discriminate].
Defined.

(** ** The page reference of a header *)

(** A stretch of the text at no position of which a match begins is kept. *)
Lemma delete_from_keep_none p h : forall fuel pos rest,
  (forall k e, k < length h ->
     ~ reaches (p_ic p) (p_re p) (MState (pos + k) (drop k (h ++ rest)) []) e) ->
  delete_from p (length h + fuel) pos (h ++ rest)
  = h ++ delete_from p fuel (pos + length h) rest.
Proof.
  induction h as [|c h IH]; intros fuel pos rest Hno.
  - simpl. by rewrite Nat.add_0_r.
  - change (length (c :: h) + fuel) with (S (length h + fuel)).
    change ((c :: h) ++ rest) with (c :: h ++ rest).
    rewrite delete_from_unfold.
    destruct (matches (p_ic p) (p_re p) (MState pos (c :: h ++ rest) [])) as [|e l] eqn:E.
    + rewrite IH.
      * by replace (pos + length (c :: h)) with (S pos + length h) by (simpl; lia).
      * intros k e Hk. replace (S pos + k) with (pos + S k) by lia.
        apply (Hno (S k) e). simpl. lia.
    + apply matches_head_reaches in E. exfalso. apply (Hno 0 e); [simpl; lia|].
      by rewrite Nat.add_0_r.
Qed.

Lemma leader_absent (h : str) :
  Forall (fun c => c <> "."%char) h ->
  re_delete (Pattern (at_least 2 (Chr ".") -:- star Dot -:- Eol) false) h = h.
Proof.
  intros Hh.
  assert (Forall (fun c => first false (at_least 2 (Chr ".") -:- star Dot -:- Eol) c
                           = false) h) as Hf
    by (eapply Forall_impl; [exact Hh|]; apply leader_first).
  unfold re_delete.
  transitivity (delete_from
                  (Pattern (at_least 2 (Chr ".") -:- star Dot -:- Eol) false)
                  (length h + 1) 0 (h ++ []));
    [by rewrite app_nil_r, Nat.add_1_r|].
  rewrite (delete_from_keep
             (Pattern (at_least 2 (Chr ".") -:- star Dot -:- Eol) false) h eq_refl Hf).
  by rewrite delete_from_nil, !app_nil_r.
Qed.

Lemma upper_AZ_char c :
  in_range 65 90 c = true ->
  cls_match false false [upper_AZ] c = true /\ is_space c = false /\ c <> "."%char.
Proof. all_chars c. Qed.

Lemma upper_AZ_cls c :
  cls_match false false [upper_AZ] c = true -> is_space c = false.
Proof. all_chars c. Qed.

Lemma hyphen_chr c : chr_match false "-" c = true -> is_space c = false.
Proof. all_chars c. Qed.

Lemma space_not_dot c : is_space c = true -> c <> "."%char.
Proof. all_chars c. Qed.

Lemma digit_not_dot c : is_digit c = true -> c <> "."%char.
Proof. all_chars c. Qed.

(** What a match of the page-reference pattern consumes: whitespace, then
    characters that are not whitespace up to the end of the text, a final
    line feed apart. *)
Lemma page_ref_match s e :
  reaches false (plus space -:- page_ref -:- Eol) s e ->
  exists u body,
    m_rest s = u ++ body ++ m_rest e /\
    u <> [] /\ all_space u /\
    Forall (fun c => is_space c = false) body /\
    (m_rest e = [] \/ m_rest e = ["010"%char]) /\
    m_pos s < m_pos e.
Proof.
  intros H. inv_seq H m1 Hsp Hb. inv_seq Hb m2 Hp Heol.
  inv_seq Hp m3 Hl Hc. inv_seq Hc m4 Hh Hd.
  apply (reaches_rep_run _ _ _ _ _ _ _ _ (eats_cls _ _ _)) in Hsp
    as (u & Eu & Hu & Hlo & _ & Pu & _).
  apply (reaches_rep_run _ _ _ _ _ _ _ _ (eats_cls _ _ _)) in Hd
    as (ds & Ed & Hds & _ & _ & Pd & _).
  inversion Hl as [| | |? ? cl rl pl gl Hcl| | | | | | | |]; subst.
  inversion Hh as [|? ch rh ph gh Hch| | | | | | | | | |]; subst.
  inversion Heol as [| | | | |? Hend| | | | | |]; subst.
  simpl in *. exists u, (cl :: ch :: ds).
  split; [by rewrite Eu, Ed|].
  split; [by destruct u; [simpl in Hlo; lia|]|].
  split; [eapply Forall_impl; [exact Hu|]; intros c; apply cls_space|].
  split.
  { constructor; [by apply upper_AZ_cls|]. constructor; [by apply hyphen_chr|].
    eapply Forall_impl; [exact Hds|]. intros c Hc. apply digit_not_space.
    by apply cls_digit. }
  split; [done|]. destruct u; [simpl in Hlo; lia|]. simpl in Pu. lia.
Qed.

Lemma page_ref_deleted (pre W : str) u ds :
  (pre = [] \/ exists x z, pre = x ++ [z] /\ is_space z = false) ->
  W <> [] -> all_space W ->
  in_range 65 90 u = true -> ds <> [] -> all_digits ds ->
  re_delete (Pattern (plus space -:- page_ref -:- Eol) false)
            (pre ++ W ++ u :: "-"%char :: ds) = pre.
Proof.
  intros Hpre HW HWs Hu Hds Hd.
  destruct (upper_AZ_char u Hu) as (Hucls & Hunsp & _).
  set (ref := u :: "-"%char :: ds).
  assert (Forall (fun c => is_space c = false) ref) as Href.
  { constructor; [done|]. constructor; [done|].
    eapply Forall_impl; [exact Hd|]. apply digit_not_space. }
  assert (forall r, (r = [] \/ r = ["010"%char]) ->
            forall a b, a ++ b ++ r = W ++ ref -> all_space a ->
                        Forall (fun c => is_space c = false) b -> r = []) as Hend.
  { intros r [-> | ->] a b E Ha Hb; [done|]. exfalso.
    assert (last (W ++ ref) = last ds) as Hl1.
    { unfold ref. rewrite last_app. simpl.
      destruct ds as [|d ds']; [done|]. rewrite !last_cons.
      by destruct (last ds'). }
    assert (exists d, last ds = Some d /\ is_digit d = true) as (d & Hld & Hdd).
    { destruct (last ds) as [d|] eqn:El; [|by apply last_None in El].
      exists d. split; [done|]. apply last_Some in El as [l' ->].
      by apply Forall_app in Hd as [_ Hd%Forall_inv]. }
    rewrite <- E, !app_assoc, last_snoc, Hld in Hl1. by injection Hl1 as <-. }
  unfold re_delete. rewrite length_app.
  replace (S (length pre + length (W ++ ref)))
    with (length pre + S (length (W ++ ref))) by lia.
  rewrite delete_from_keep_none.
  - rewrite delete_from_unfold. cbn [p_ic p_re].
    destruct (matches false (plus space -:- page_ref -:- Eol)
                (MState (0 + length pre) (W ++ ref) [])) as [|e l] eqn:E.
    + exfalso.
      assert (reaches false (plus space -:- page_ref -:- Eol)
                (MState (0 + length pre) (W ++ ref) [])
                (MState (0 + length pre + length W + 1 + 1 + length ds) [] [])) as H.
      { eapply R_seq.
        { apply (reaches_rep_prefix false space (cls_match false false [CSpace]) true
                   1 None W); [apply eats_cls| |by destruct W; [|simpl; lia]|done].
          eapply Forall_impl; [exact HWs|]. intros c. apply cls_space. }
        eapply R_seq; [|apply R_eol; by left].
        unfold ref, page_ref. eapply R_seq; [by apply R_cls|].
        eapply R_seq; [by apply R_chr|].
        rewrite <- (app_nil_r ds) at 1.
        replace (0 + length pre + length W + 1 + 1 + length ds)
          with (S (S (0 + length pre + length W)) + length ds) by lia.
        apply (reaches_rep_prefix false digit (cls_match false false [CDigit]) true
                 1 None ds); [apply eats_cls| |by destruct ds; [|simpl; lia]|done].
        eapply Forall_impl; [exact Hd|]. intros c. apply cls_digit. }
      apply matches_complete in H. rewrite E in H. by apply elem_of_nil in H.
    + apply matches_head_reaches, page_ref_match in E
        as (a & b & Ea & _ & Has & Hb & Hr & Hlt). simpl in Ea, Hlt.
      rewrite (Hend _ Hr a b (eq_sym Ea) Has Hb).
      destruct (Nat.ltb_spec (0 + length pre) (m_pos e)); [|lia].
      by rewrite delete_from_nil, app_nil_r.
  - intros k e Hk He. cbn [p_ic p_re] in He.
    apply page_ref_match in He as (a & b & Ea & Hane & Has & Hb & Hr & _).
    simpl in Ea. rewrite drop_app_le in Ea by lia.
    destruct Hpre as [-> | (x & z & -> & Hz)]; [simpl in Hk; lia|].
    rewrite length_app in Hk. simpl in Hk.
    rewrite drop_app_le in Ea by lia.
    destruct W as [|w W']; [done|]. assert (is_space w = true) as Hw by (by inversion HWs).
    (* the text from [k] on: some of [x], then [z], [w] and more *)
    rewrite <- !app_assoc in Ea. simpl in Ea.
    assert (exists a', a ++ a' = drop k x /\ a' ++ z :: w :: W' ++ ref = b ++ m_rest e)
      as (a' & Ea1 & Ea2).
    { apply app_eq_inv in Ea as [(a' & E1 & E2)|(a' & E1 & E2)].
      - exists a'. by split.
      - destruct a' as [|c a'].
        + exists []. rewrite app_nil_r in E1. by split; [rewrite app_nil_r|].
        + exfalso. simpl in E2. injection E2 as <- E2. subst a.
          apply Forall_app in Has as [_ Has]. inversion Has; congruence. }
    clear Ea.
    (* [w] is whitespace and is followed by more: it lies in [b] *)
    apply app_eq_inv in Ea2 as [(t & E1 & E2)|(t & E1 & E2)].
    + (* [b] ends within [a'] or right after it *)
      assert (length (m_rest e) <= 1) as Hle by (destruct Hr as [-> | ->]; simpl; lia).
      rewrite E2, !length_app in Hle. simpl in Hle. rewrite length_app in Hle.
      unfold ref in Hle. simpl in Hle. lia.
    + destruct t as [|c t].
      * rewrite app_nil_r in E1. simpl in E2.
        assert (length (m_rest e) <= 1) as Hle by (destruct Hr as [-> | ->]; simpl; lia).
        rewrite <- E2 in Hle. simpl in Hle. rewrite length_app in Hle.
        unfold ref in Hle. simpl in Hle. lia.
      * simpl in E2. injection E2 as <- E2.
        destruct t as [|c t].
        -- simpl in E2.
           assert (length (m_rest e) <= 1) as Hle
             by (destruct Hr as [-> | ->]; simpl; lia).
           rewrite <- E2 in Hle. simpl in Hle. rewrite length_app in Hle.
           unfold ref in Hle. simpl in Hle. lia.
        -- simpl in E2. injection E2 as <- E2. subst b.
           apply Forall_app in Hb as [_ Hb]. inversion Hb as [|? ? _ Hb']; subst.
           inversion Hb'; congruence.
Qed.

(** A page reference at the end of a header, a capital letter, a hyphen and
    digits after whitespace, is cut off: what is bound is the header before
    it, trimmed. *)
Theorem clean_header_text_page_ref (self : TextMarker) (h ws : str) (u : char)
    (ds : str) :
  Forall (fun c => c <> "."%char) h ->
  ws <> [] -> all_space ws ->
  in_range 65 90 u = true ->
  ds <> [] -> all_digits ds ->
  _clean_header_text self (h ++ ws ++ u :: "-"%char :: ds) = strip h.
Proof.
  intros Hh Hws Hsp Hu Hds Hd. unfold _clean_header_text. cbv zeta.
  rewrite leader_absent.
  2:{ apply Forall_app. split; [done|]. apply Forall_app. split.
      - eapply Forall_impl; [exact Hsp|]. apply space_not_dot.
      - constructor; [by apply upper_AZ_char|]. constructor; [done|].
        eapply Forall_impl; [exact Hd|]. apply digit_not_dot. }
  destruct (strip_decompose h) as (lead & trail & E & Hl & Ht & Htight).
  destruct (strip h) as [|c0 core0] eqn:Ecore.
  - (* the header is blank *)
    rewrite E. simpl.
    replace ((lead ++ trail) ++ ws ++ u :: "-"%char :: ds)
      with ([] ++ (lead ++ trail ++ ws) ++ u :: "-"%char :: ds)
      by (by rewrite <- !app_assoc).
    rewrite page_ref_deleted; try done.
    + by left.
    + intros Hnil. apply app_eq_nil in Hnil as [_ Hnil].
      by apply app_eq_nil in Hnil as [_ ?].
    + apply Forall_app. split; [done|]. by apply Forall_app.
  - set (core := c0 :: core0) in *.
    rewrite E at 1.
    replace ((lead ++ core ++ trail) ++ ws ++ u :: "-"%char :: ds)
      with ((lead ++ core) ++ (trail ++ ws) ++ u :: "-"%char :: ds)
      by (by rewrite <- !app_assoc).
    rewrite page_ref_deleted; try done.
    + transitivity (strip (lead ++ core ++ [])); [by rewrite app_nil_r|].
      apply strip_unique; [done|constructor|done].
    + right. destruct (last core) as [z|] eqn:El; [|by apply last_None in El].
      pose proof El as Hz. apply last_Some in El as [x Ex].
      exists (lead ++ x), z. split; [by rewrite Ex, app_assoc|].
      by apply (proj2 Htight).
    + intros Hnil. by apply app_eq_nil in Hnil as [_ ?].
    + by apply Forall_app.
Qed.

Lemma clean_header_text_page_ref_witness :
  _clean_header_text (TextMarker_init default_config)
    (lit "Upper Extremity" ++ lit "  " ++ "B"%char :: "-"%char :: lit "27")
  = strip (lit "Upper Extremity").
Proof.
  apply (clean_header_text_page_ref (TextMarker_init default_config)
           (lit "Upper Extremity") (lit "  ") "B" (lit "27")).
  - repeat constructor; discriminate.
  - discriminate.
  - repeat constructor.
  - reflexivity.
  - discriminate.
  - repeat constructor.
Defined.

(** ** What is read of a line *)

Lemma mark_line_reads self cs prev prev' line line' st :
  same_reading line line' ->
  mark_line self cs prev line st = mark_line self cs prev' line' st.
Proof.
  intros (Ht & Hf & Hb). unfold mark_line.
  assert (should_skip (tm_detector self) line = should_skip (tm_detector self) line')
    as -> by (unfold should_skip; by rewrite Ht).
  assert (detect_level (tm_detector self) line prev
          = detect_level (tm_detector self) line' prev') as ->.
  { unfold detect_level, _matches_l1, _matches_l2, _matches_l3.
    by rewrite Ht, Hf, Hb. }
  by rewrite Ht.
Qed.

Lemma mark_loop_reads self cs lines : forall lines' prev prev' st,
  Forall2 same_reading lines lines' ->
  mark_loop self cs prev lines st = mark_loop self cs prev' lines' st.
Proof.
  induction lines as [|line lines IH]; intros lines' prev prev' st H;
    inversion H as [|? line' ? lines'' Hl Hls]; subst; simpl; [done|].
  rewrite (mark_line_reads self cs prev prev' line line' st Hl). by apply IH.
Qed.

(** The marking reads the text, the font size and the boldness of a line
    and nothing else: neither the page, nor the position on the page, nor
    the number of the line, nor the line before, which [detect_level] is
    handed and does not look at. *)
Theorem mark_text_reads (config : MarkerConfig) (lines lines' : list TextLine) :
  Forall2 same_reading lines lines' ->
  mark_text (TextMarker_init config) lines = mark_text (TextMarker_init config) lines'.
Proof.
  intros H. unfold mark_text, mark_run. f_equal. by apply mark_loop_reads.
Qed.

Lemma mark_text_reads_witness :
  mark_text (TextMarker_init default_config)
    [line_of (lit "RULES OF APPLICATION"); line_of (lit "Hospital Care")]
  = mark_text (TextMarker_init default_config)
      [{| text := lit "RULES OF APPLICATION"; page_num := 7; top := 3 # 2; left := 72;
          font_size := 0; is_bold := false; line_num := 120 |};
       {| text := lit "Hospital Care"; page_num := 8; top := 40; left := 1 # 3;
          font_size := 0; is_bold := false; line_num := 121 |}].
Proof. apply mark_text_reads. repeat constructor. Defined.
